(** * mis-builder: the redstone signal scorer and the slot optimizer

    A shallow embedding of [calculateSignalStrength], [getRarityOrder] and
    [optimizeForRedstone] from [src/MinecraftItemBuilder.tsx], and the
    properties of the two functions.

    Modelling conventions.
    - A JavaScript number that holds an integer (quantities, stack sizes,
      indices) is a [Z].  The floating-point expression of the scorer is
      evaluated in IEEE 754 binary64, round to nearest even, through the
      executable specification [SpecFloat] of the standard library.
    - A container is a [list (option Slot)]; [None] is the [null] slot.
    - The working array [optimizedSlots] holds one fresh object per
      occupied slot (the [map] with a spread), so an in-place mutation of
      an element is an update of the list at its index.  [forcedItems]
      holds references into that array and is a list of indices.
    - The two places where the source can throw ([reduce] of an empty array
      without an initial value, [Array(n)] with a negative [n]) are the
      constructors of [JsError]. *)

From Stdlib Require Import ZArith List Bool String Lia SpecFloat QArith Qround.
From stdpp Require Import base tactics option list gmap strings sorting relations.
Import ListNotations.
Open Scope Z_scope.

(** ** IEEE 754 binary64 *)

Module Double.
Definition prec : Z := 53.
Definition emax : Z := 1024.

(** The double nearest to an integer (exact below [2^53]). *)
Definition of_Z (z : Z) : spec_float := binary_normalize prec emax z 0 false.
Definition add : spec_float -> spec_float -> spec_float := SFadd prec emax.
Definition mul : spec_float -> spec_float -> spec_float := SFmul prec emax.
Definition div : spec_float -> spec_float -> spec_float := SFdiv prec emax.

(** [Math.floor] of a finite double, as an integer.  The infinities and
    NaN, which no container with integer fields of moderate size
    produces, are sent to [0]. *)
Definition floor (x : spec_float) : Z :=
  match x with
  | S754_finite s m e =>
      let v := cond_Zopp s (Zpos m) in
      if 0 <=? e then v * 2 ^ e else v / 2 ^ (- e)
  | _ => 0
  end.

Definition eqb (x y : spec_float) : bool :=
  match x, y with
  | S754_zero a, S754_zero b => Bool.eqb a b
  | S754_infinity a, S754_infinity b => Bool.eqb a b
  | S754_nan, S754_nan => true
  | S754_finite a m e, S754_finite b m' e' =>
      Bool.eqb a b && Pos.eqb m m' && Z.eqb e e'
  | _, _ => false
  end.
End Double.

(** ** Data model *)

Record Color := mkColor {
  rgb : Z * Z * Z;
  hsl : Z * Z * Z;
  hex : string
}.

(** A Minecraft item as seen in [public/items.json]. *)
Record Item := mkItem {
  id : string;
  name : string;
  sprite : string;
  color : Color;
  category : list string;
  group : list string;
  material : string;
  stack_size : Z;
  rarity : string
}.

(** An [Item], once inside a [Cell], becomes a [Slot].  The optional
    properties are options; [isDuplicate?: true] and
    [userSubstituted?: true] are either absent or [true]. *)
Record Slot := mkSlot {
  item : Item;
  forceAdjusted : option bool;
  isAdjusted : option bool;
  quantity : option Z;
  isDuplicate : bool;
  originalIndex : option Z;
  userSubstituted : bool
}.

Definition set_forceAdjusted (v : option bool) (s : Slot) : Slot :=
  mkSlot (item s) v (isAdjusted s) (quantity s) (isDuplicate s)
         (originalIndex s) (userSubstituted s).
Definition set_isAdjusted (v : option bool) (s : Slot) : Slot :=
  mkSlot (item s) (forceAdjusted s) v (quantity s) (isDuplicate s)
         (originalIndex s) (userSubstituted s).
Definition set_quantity (v : option Z) (s : Slot) : Slot :=
  mkSlot (item s) (forceAdjusted s) (isAdjusted s) v (isDuplicate s)
         (originalIndex s) (userSubstituted s).
Definition set_isDuplicate (v : bool) (s : Slot) : Slot :=
  mkSlot (item s) (forceAdjusted s) (isAdjusted s) (quantity s) v
         (originalIndex s) (userSubstituted s).
Definition set_originalIndex (v : option Z) (s : Slot) : Slot :=
  mkSlot (item s) (forceAdjusted s) (isAdjusted s) (quantity s)
         (isDuplicate s) v (userSubstituted s).

Abbreviation Container := (list (option Slot)).

(** [slots.filter((item) => item != null)] *)
Definition occupied (slots : Container) : list Slot := omap (fun x => x) slots.
Global Arguments occupied : simpl never.

(** Truthiness of an optional boolean property. *)
Definition truthy (b : option bool) : bool := default false b.

(** [item.quantity < n] and [item.quantity > n]; both are [false] on an
    absent quantity, as [undefined < n] and [undefined > n] are. *)
Definition quantity_lt (s : Slot) (n : Z) : bool :=
  match quantity s with Some q => q <? n | None => false end.
Definition quantity_gt (s : Slot) (n : Z) : bool :=
  match quantity s with Some q => n <? q | None => false end.

(** [item.quantity || 1] *)
Definition quantity_or_1 (s : Slot) : Z :=
  match quantity s with
  | Some q => if q =? 0 then 1 else q
  | None => 1
  end.

(** [Math.min(64, item.stack_size || 64)] *)
Definition stackLimit (s : Slot) : Z :=
  Z.min 64 (if stack_size (item s) =? 0 then 64 else stack_size (item s)).

(** ** The signal scorer *)

Definition invSize : Z := 54.

Definition fillSum (items : list Slot) : spec_float :=
  foldl (fun sum it =>
           Double.add sum (Double.div (Double.of_Z (quantity_or_1 it))
                                      (Double.of_Z (stackLimit it))))
        (Double.of_Z 0) items.

Definition calculateSignalStrength (slots : Container) : Z :=
  let items := occupied slots in
  if (length items =? 0)%nat then 0
  else Double.floor
         (Double.add
            (Double.mul (Double.div (Double.of_Z 14) (Double.of_Z invSize))
                        (fillSum items))
            (Double.of_Z (Z.min 1 (Z.of_nat (length items))))).

(** The same number in exact arithmetic: the fill in 64ths of a slot, and
    the floor of [14/54] of it plus one. *)
Definition fill64 (items : list Slot) : Z :=
  foldr (fun it acc => quantity_or_1 it * (64 / stackLimit it) + acc) 0 items.

Definition signalOfFill (f : Z) : Z := 14 * f / (invSize * 64) + 1.

Definition exactSignalStrength (slots : Container) : Z :=
  let items := occupied slots in
  if (length items =? 0)%nat then 0 else signalOfFill (fill64 items).

(** ** Rarity *)

(** The table [rarityOrder]; a rarity outside it has rank [0].  (Rarity
    strings are catalogue values; names of [Object.prototype] members are
    not among them.) *)
Definition rarityOrder : gmap string Z :=
  <["common" := 0]> (<["uncommon" := 1]> (<["rare" := 2]> (<["epic" := 3]> ∅))).

Definition getRarityOrder (r : string) : Z := default 0 (rarityOrder !! r).

(** ** The slot optimizer *)

Inductive JsError := TypeError | RangeError.

Inductive Result (A : Type) :=
| Ok (a : A)
| Throw (e : JsError).
Arguments Ok {A} a.
Arguments Throw {A} e.

(** The duplicate written by Strategy 1:
    [{...targetUnstackable, quantity: 1, originalIndex: -1,
      isDuplicate: true, forceAdjusted: true}] *)
Definition duplicateUnstackable (target : Slot) : Slot :=
  mkSlot (item target) (Some true) (isAdjusted target) (Some 1) true
         (Some (-1)) (userSubstituted target).

(** The duplicate written by Strategy 4:
    [{...itemToDuplicate, originalIndex: -1, forceAdjusted: true}] *)
Definition duplicateStackable (src : Slot) : Slot :=
  mkSlot (item src) (Some true) (isAdjusted src) (quantity src)
         (isDuplicate src) (Some (-1)) (userSubstituted src).

(** [item.quantity++] *)
Definition incrementQuantity (s : Slot) : Slot :=
  set_quantity (Z.succ <$> quantity s) s.

(** The occurrences of each item identifier:
    [acc[item.id] = (acc[item.id] ?? 0) + 1] over the occupied slots. *)
Definition itemCounts (slots : Container) : gmap string Z :=
  foldl (fun acc it => <[id (item it) := default 0 (acc !! id (item it)) + 1]> acc)
        ∅ (occupied slots).

(** The body of the loop that sets [forceAdjusted] to
    [quantity > 1 || itemCounts()[id] > 1]. *)
Definition markSlot (counts : gmap string Z) (it : Slot) : Slot :=
  let hasQuantity := quantity_gt it 1 in
  let hasMultipleInstances := 1 <? default 0 (counts !! id (item it)) in
  set_forceAdjusted (Some (hasQuantity || hasMultipleInstances)) it.

(** The loop over the occupied slots.  Its body writes [forceAdjusted] only
    and [itemCounts] reads identifiers only, so the counts are those of the
    array the loop starts from. *)
Definition markAdjusted (slots : Container) : Container :=
  let counts := itemCounts slots in
  (fun o : option Slot => markSlot counts <$> o) <$> slots.

(** [for (const item of ...) item.forceAdjusted = true] *)
Definition markAll (slots : Container) : Container :=
  (fun o : option Slot => set_forceAdjusted (Some true) <$> o) <$> slots.

(** The first [map]: quantity defaults to 1 and [originalIndex] to the
    position. *)
Definition normalizeSlot (idx : nat) (it : Slot) : Slot :=
  set_originalIndex (Some (default (Z.of_nat idx) (originalIndex it)))
                    (set_quantity (Some (quantity_or_1 it)) it).

Definition normalize (slots : Container) : Container :=
  imap (fun idx (o : option Slot) => normalizeSlot idx <$> o) slots.

(** Indices of the occupied slots that satisfy [p], in array order. *)
Definition indicesWhere (p : Slot -> bool) (slots : Container) : list nat :=
  omap (fun '(i, o) =>
          match o with
          | Some it => if p it then Some i else None
          | None => None
          end)
       (imap (fun i o => (i, o)) slots).

Definition slotAt (slots : Container) (i : nat) : option Slot :=
  mjoin (slots !! i).

(** [xs.reduce((acc, x) => f(acc, x), xs[0])] and the like over slots. *)
Definition pickUnstackable (acc it : Slot) : Slot :=
  if getRarityOrder (rarity (item it)) <? getRarityOrder (rarity (item acc))
  then it else acc.

Definition pickToDuplicate (acc it : Slot) : Slot :=
  if (stack_size (item acc) <=? stack_size (item it))
     && (getRarityOrder (rarity (item it)) <? getRarityOrder (rarity (item acc)))
  then it else acc.

Section Optimizer.

(** The scorer the strategies call after every trial write. *)
Variable score : Container -> Z.

(** Strategy 1, the loop over the empty slots from index 1: write a
    duplicate; when the signal rises, clear the slot again and stop. *)
Fixpoint fillUnstackables (target : Slot) (currentSignal : Z)
         (idxs : list nat) (slots : Container) : Container * bool :=
  match idxs with
  | [] => (slots, false)
  | i :: rest =>
      match slots !! i with
      | Some None =>
          let slots' := <[i := Some (duplicateUnstackable target)]> slots in
          if currentSignal <? score slots'
          then (<[i := None]> slots', true)
          else fillUnstackables target currentSignal rest slots'
      | _ => fillUnstackables target currentSignal rest slots
      end
  end.

(** [while (item.quantity < limit) { item.quantity++; ... }] on the object
    at index [i]: [n] counts the iterations that remain.  When the signal
    rises the increment is undone and the result is flagged. *)
Fixpoint incrementWhile (n : nat) (currentSignal : Z) (i : nat)
         (slots : Container) : Container * bool :=
  match n with
  | O => (slots, false)
  | S n' =>
      match slotAt slots i with
      | Some it =>
          let slots' := <[i := Some (incrementQuantity it)]> slots in
          if currentSignal <? score slots'
          then (slots, true)
          else incrementWhile n' currentSignal i slots'
      | None => (slots, false)
      end
  end.

(** The number of times [item.quantity < limit] holds from quantity [q]. *)
Definition iterations (limit : Z) (it : Slot) : nat :=
  match quantity it with
  | Some q => Z.to_nat (limit - q)
  | None => O
  end.

(** The labelled outer loop of Strategies 2, 3 and 5 over a snapshot of
    slots; [break outer] ends it. *)
Fixpoint incrementAll (limit : Slot -> Z) (currentSignal : Z)
         (idxs : list nat) (slots : Container) : Container * bool :=
  match idxs with
  | [] => (slots, false)
  | i :: rest =>
      match slotAt slots i with
      | Some it =>
          let '(slots', found) :=
            incrementWhile (iterations (limit it) it) currentSignal i slots in
          if found then (slots', true)
          else incrementAll limit currentSignal rest slots'
      | None => incrementAll limit currentSignal rest slots
      end
  end.

(** Strategy 4, the loop over the empty slots from index 1: write a copy
    of [itemToDuplicate]; when the signal rises keep it at quantity 1 and
    stop. *)
Fixpoint fillStackables (itemToDuplicate : Slot) (currentSignal : Z)
         (idxs : list nat) (slots : Container) : Container :=
  match idxs with
  | [] => slots
  | i :: rest =>
      match slots !! i with
      | Some None =>
          let newItem := duplicateStackable itemToDuplicate in
          let slots' := <[i := Some newItem]> slots in
          if currentSignal <? score slots'
          then <[i := Some (set_quantity (Some 1) newItem)]> slots'
          else fillStackables itemToDuplicate currentSignal rest slots'
      | _ => fillStackables itemToDuplicate currentSignal rest slots
      end
  end.

(** [optimizedSlots.entries().drop(1)]: the indices from 1. *)
Definition fromOne (slots : Container) : list nat :=
  seq 1 (length slots - 1).

(** [optimizedSlots.slice(1).reverse()] filtered by [p]: the indices from
    the end down to 1 whose slot satisfies [p]. *)
Definition fromEnd (p : Slot -> bool) (slots : Container) : list nat :=
  reverse (filter (fun i => (1 <= i)%nat) (indicesWhere p slots)).

Definition isForced (it : Slot) : bool := truthy (forceAdjusted it).

Definition strategy1 (hasUnstackable hasQuantityAdjustments : bool)
           (forcedItems : list Slot) (currentSignal : Z)
           (slots : Container) : Container * bool :=
  if hasUnstackable && negb hasQuantityAdjustments then
    let unstackables :=
      filter (fun it => stack_size (item it) = 1) forcedItems in
    match unstackables with
    | first :: _ =>
        let targetUnstackable := foldl pickUnstackable first unstackables in
        fillUnstackables targetUnstackable currentSignal (fromOne slots) slots
    | [] => (slots, false)
    end
  else (slots, false).

Definition strategy2 (hasSixteen : bool) (currentSignal : Z)
           (slots : Container) : Container * bool :=
  if hasSixteen then
    incrementAll (fun _ => 16) currentSignal
      (fromEnd (fun it => isForced it && (stack_size (item it) =? 16)) slots)
      slots
  else (slots, false).

Definition strategy3 (hasSixtyFour : bool) (currentSignal : Z)
           (slots : Container) : Container * bool :=
  if hasSixtyFour then
    incrementAll (fun _ => 64) currentSignal
      (fromEnd (fun it => isForced it && (stack_size (item it) =? 64)) slots)
      slots
  else (slots, false).

Definition belowLimit (it : Slot) : bool :=
  isForced it && quantity_lt it (stack_size (item it)).

(** [!optimizedSlots.some((item) => item?.forceAdjusted &&
    item.quantity < item.stack_size)] *)
Definition allMaxed (slots : Container) : bool :=
  negb (existsb belowLimit (occupied slots)).

(** [forcedItems.reduce((acc, item) => ...)] without an initial value:
    a [TypeError] on an empty array. *)
Definition chooseItemToDuplicate (forcedItems : list Slot) : Result Slot :=
  match forcedItems with
  | first :: others => Ok (foldl pickToDuplicate first others)
  | [] => Throw TypeError
  end.

Definition strategy4 (run : bool) (forced : list nat) (currentSignal : Z)
           (slots : Container) : Result Container :=
  if run then
    if allMaxed slots then
      match chooseItemToDuplicate (omap (slotAt slots) forced) with
      | Ok itemToDuplicate =>
          Ok (fillStackables itemToDuplicate currentSignal (fromOne slots) slots)
      | Throw e => Throw e
      end
    else Ok slots
  else Ok slots.

Definition strategy5 (currentSignal : Z) (slots : Container) : Container :=
  fst (incrementAll (fun it => stack_size (item it)) currentSignal
         (reverse (indicesWhere belowLimit slots)) slots).

(** The comparator of the final sort as a total preorder: smaller stack
    size first, then smaller quantity. *)
Definition sortsBefore (a b : Slot) : bool :=
  if stack_size (item a) =? stack_size (item b)
  then default 0 (quantity a) <=? default 0 (quantity b)
  else stack_size (item a) <? stack_size (item b).

(** [Array.prototype.sort] is stable; the stable sort is the insertion
    sort that, from the right, puts each element in front of the first
    one it does not come after. *)
Fixpoint insertSorted (a : Slot) (l : list Slot) : list Slot :=
  match l with
  | [] => [a]
  | b :: l' => if sortsBefore a b then a :: b :: l' else b :: insertSorted a l'
  end.

Definition sortAdjusted (l : list Slot) : list Slot :=
  foldr insertSorted [] l.

(** Partition and layout: [[null, ...unadjusted, ...nulls, ...adjusted]]. *)
Definition layout (slots : Container) : Result Container :=
  let withoutNulls :=
    (fun it => set_isAdjusted (Some (isForced it)) it) <$> occupied slots in
  let adjusted := filter (fun it => isForced it = true) withoutNulls in
  let unadjusted := filter (fun it => isForced it = false) withoutNulls in
  let sorted := sortAdjusted adjusted in
  let nullsNeeded := 53 - Z.of_nat (length unadjusted) - Z.of_nat (length sorted) in
  if nullsNeeded <? 0 then Throw RangeError
  else Ok (None :: (Some <$> unadjusted)
                ++ replicate (Z.to_nat nullsNeeded) None
                ++ (Some <$> sorted)).

(** [optimizedSlots.some((item) => (item?.quantity ?? 0) > 1)] *)
Definition hasQuantityAdjustments (slots : Container) : bool :=
  existsb (fun it => quantity_gt it 1) (occupied slots).

(** Normalisation and the classification of the candidates: the marking
    loop, then the fallback that marks every occupied slot. *)
Definition classify (slots : Container) : Container :=
  let marked := markAdjusted (normalize slots) in
  if hasQuantityAdjustments marked then marked else markAll marked.

(** The guard of Strategy 4. *)
Definition gapFillingGuard (hasQuantityAdjustments : bool)
           (hasUnstackable hasSixteen hasSixtyFour : bool)
           (AreUnstackablesAtThreshold Are16StackablesAtThreshold
              Are64StackablesAtThreshold : bool) : bool :=
  negb hasQuantityAdjustments
  && ((negb AreUnstackablesAtThreshold && hasUnstackable)
      || (negb Are16StackablesAtThreshold && hasSixteen)
      || (negb Are64StackablesAtThreshold && hasSixtyFour)).

Definition hasStackSize (n : Z) (forcedItems : list Slot) : bool :=
  existsb (fun it => stack_size (item it) =? n) forcedItems.

Definition optimize (slots : Container) : Result Container :=
  if forallb (fun x : option Slot =>
                match x with None => true | Some _ => false end) slots
  then Ok slots
  else
    let currentSignal := score (normalize slots) in
    let hasQuantityAdjustments :=
      hasQuantityAdjustments (markAdjusted (normalize slots)) in
    let optimizedSlots := classify slots in
    let forced := indicesWhere isForced optimizedSlots in
    let forcedItems := omap (slotAt optimizedSlots) forced in
    let hasUnstackable := hasStackSize 1 forcedItems in
    let hasSixteen := hasStackSize 16 forcedItems in
    let hasSixtyFour := hasStackSize 64 forcedItems in
    let '(optimizedSlots, AreUnstackablesAtThreshold) :=
      strategy1 hasUnstackable hasQuantityAdjustments forcedItems
                currentSignal optimizedSlots in
    let '(optimizedSlots, Are16StackablesAtThreshold) :=
      strategy2 hasSixteen currentSignal optimizedSlots in
    let '(optimizedSlots, Are64StackablesAtThreshold) :=
      strategy3 hasSixtyFour currentSignal optimizedSlots in
    let run4 :=
      gapFillingGuard hasQuantityAdjustments
        hasUnstackable hasSixteen hasSixtyFour
        AreUnstackablesAtThreshold Are16StackablesAtThreshold
        Are64StackablesAtThreshold in
    match strategy4 run4 forced currentSignal optimizedSlots with
    | Throw e => Throw e
    | Ok optimizedSlots =>
        let optimizedSlots := strategy5 currentSignal optimizedSlots in
        layout (markAdjusted optimizedSlots)
    end.

End Optimizer.

Definition optimizeForRedstone : Container -> Result Container :=
  optimize calculateSignalStrength.

(** ** Exactness tables for the scorer

    The fill of a container whose stack sizes are 1, 16 or 64 is a number
    of 64ths.  [table] lists the doubles of the 64ths a container of at most
    54 slots reaches; the double operations of the scorer are evaluated on
    all of them. *)

Module Exactness.
(** The double [f / 64]. *)
Definition sixtyFourths (f : Z) : spec_float :=
  Double.div (Double.of_Z f) (Double.of_Z 64).

Definition bound : nat := 3521.

Definition table : list spec_float :=
  (fun k => sixtyFourths (Z.of_nat k)) <$> seq 0 bound.

(** [x + d = y] for the entries [x] of [l] and [y] of [l'] at the same
    position. *)
Fixpoint addsUp (d : spec_float) (l l' : list spec_float) : bool :=
  match l, l' with
  | x :: t, y :: t' => Double.eqb (Double.add x d) y && addsUp d t t'
  | _, _ => true
  end.

End Exactness.

(** ** Well-formed containers *)

(** A stack limit is 1, 16 or 64. *)
Definition stackClass (n : Z) : Prop := n = 1 \/ n = 16 \/ n = 64.

(** An occupied slot of an input: a stack limit of the three classes and a
    quantity, when present, between 1 and the stack limit. *)
Definition slotWellFormed (it : Slot) : Prop :=
  stackClass (stack_size (item it)) /\
  match quantity it with
  | Some q => 1 <= q <= stack_size (item it)
  | None => True
  end.

(** A container of the interface: 54 slots, the reserved slot 0 empty, and
    every occupied slot well formed. *)
Definition wellFormed (c : Container) : Prop :=
  length c = 54%nat /\ c !! 0%nat = Some None /\ Forall slotWellFormed (occupied c).

(** An occupied slot of the working array and of the output: the quantity
    is present, positive and within the stack limit. *)
Definition slotFilled (it : Slot) : Prop :=
  stackClass (stack_size (item it)) /\
  exists q, quantity it = Some q /\ 1 <= q <= stack_size (item it).

Definition filled (c : Container) : Prop :=
  length c = 54%nat /\ c !! 0%nat = Some None /\ Forall slotFilled (occupied c).

(** What the scorer needs of an occupied slot: a stack limit of the three
    classes and an effective quantity between 1 and the stack limit. *)
Definition scorable (it : Slot) : Prop :=
  stackClass (stack_size (item it)) /\
  1 <= quantity_or_1 it <= stack_size (item it).

(** ** The working array between two writes

    Between the classification and the layout the strategies change the
    working array by writes of two kinds that the signal check accepts:
    the increment of a candidate's quantity, and the duplicate, a full
    stack, written into an empty slot. *)

(** The fill of a container in 64ths. *)
Definition fillOf (s : Container) : Z := fill64 (occupied s).

(** The occupied slots that hold identifier [k]. *)
Definition countId (k : string) (s : Container) : nat :=
  length (filter (fun it => id (item it) = k) (occupied s)).

(** A slot without its quantity. *)
Definition erase (it : Slot) : Slot := set_quantity None it.

Definition skeleton (s : Container) : Container :=
  (fun o : option Slot => erase <$> o) <$> s.

Section Moves.
Variable score : Container -> Z.
Variable currentSignal : Z.

(** [newSignal > currentSignal] after a trial write. *)
Definition rises (s : Container) : bool := currentSignal <? score s.

Inductive move : Container -> Container -> Prop :=
| move_increment s i it q :
    slotAt s i = Some it ->
    quantity it = Some q ->
    isForced it = true ->
    q < stack_size (item it) ->
    rises (<[i := Some (incrementQuantity it)]> s) = false ->
    move s (<[i := Some (incrementQuantity it)]> s)
| move_duplicate s i d :
    (1 <= i)%nat ->
    s !! i = Some None ->
    item d ∈ item <$> occupied s ->
    isForced d = true ->
    originalIndex d = Some (-1) ->
    quantity d = Some (stack_size (item d)) ->
    rises (<[i := Some d]> s) = false ->
    move s (<[i := Some d]> s).

(** The last write of Strategy 4: the duplicate that raised the signal
    stays at quantity 1. *)
Inductive commit (src : Slot) : Container -> Container -> Prop :=
| commit_duplicate s i :
    (1 <= i)%nat ->
    s !! i = Some None ->
    rises (<[i := Some (duplicateStackable src)]> s) = true ->
    commit src s
      (<[i := Some (set_quantity (Some 1) (duplicateStackable src))]> s).
End Moves.

(** The order the writes keep: an occupied slot stays occupied by the same
    item with the same annotations and a quantity that is not smaller. *)
Definition growsSlot (o o' : option Slot) : Prop :=
  match o with
  | None => True
  | Some a =>
      exists b, o' = Some b /\ erase a = erase b
                /\ quantity_or_1 a <= quantity_or_1 b
  end.

Definition grows (s s' : Container) : Prop := Forall2 growsSlot s s'.

(** No empty slot from index 1 on. *)
Definition noEmpty (s : Container) : Prop :=
  forall i, (1 <= i)%nat -> s !! i <> Some None.

(** Every occupied slot is a candidate. *)
Definition allForced (s : Container) : Prop :=
  Forall (fun it => isForced it = true) (occupied s).

(** Every occupied slot has an original index. *)
Definition allIndexed (s : Container) : Prop :=
  Forall (fun it => is_Some (originalIndex it)) (occupied s).

(** What the scorer reads of a container: the effective quantity and the
    stack limit of each occupied slot. *)
Definition profile (s : Container) : list (Z * Z) :=
  (fun it => (quantity_or_1 it, stack_size (item it))) <$> occupied s.

(** A container with [f] applied to every occupied slot. *)
Definition mapSlots (f : Slot -> Slot) (s : Container) : Container :=
  (fun o : option Slot => f <$> o) <$> s.

(** The flag the marking loop computes for a slot of [s]. *)
Definition adjustedIn (s : Container) (it : Slot) : bool :=
  quantity_gt it 1 || (1 <? Z.of_nat (countId (id (item it)) s)).

(** ** The layout *)

(** The occupied slots with [isAdjusted] set, in array order. *)
Definition finalSlots (f : Container) : list Slot :=
  (fun it => set_isAdjusted (Some (isForced it)) it) <$> occupied f.

Definition unadjustedGroup (f : Container) : list Slot :=
  filter (fun it => isForced it = false) (finalSlots f).

Definition adjustedGroup (f : Container) : list Slot :=
  sortAdjusted (filter (fun it => isForced it = true) (finalSlots f)).

(** The padding between the two groups. *)
Definition padding (f : Container) : nat :=
  (53 - length (unadjustedGroup f) - length (adjustedGroup f))%nat.

(** The order of the final sort. *)
Definition sortedGroup (l : list Slot) : Prop :=
  StronglySorted (fun a b => sortsBefore a b = true) l.


(** The slots written into empty places: each has a second slot with its
    identifier. *)
Definition newcomersTwinned (s0 s : Container) : Prop :=
  forall i b, s0 !! i = Some None -> s !! i = Some (Some b) ->
              (2 <= countId (id (item b)) s)%nat.

(** ** Sample containers *)

Module Samples.
Definition plainColor : Color := mkColor (0, 0, 0) (0, 0, 0) "".

Definition catalogueItem (i : string) (stack : Z) (r : string) : Item :=
  mkItem i "" "" plainColor [] [] "" stack r.

(** A slot as the application builds it from a catalogue item. *)
Definition slotOf (it : Item) (q : option Z) : option Slot :=
  Some (mkSlot it None None q false None false).

(** The reserved slot, the given slots, and empty slots up to 54. *)
Definition container (l : Container) : Container :=
  None :: l ++ replicate (53 - length l) None.

(** The three items of the test suite. *)
Definition unstackableItem : option Slot := slotOf (catalogueItem "" 1 "") (Some 1).
Definition stackable16Item : option Slot := slotOf (catalogueItem "" 16 "") (Some 1).
Definition stackable64Item : option Slot := slotOf (catalogueItem "" 64 "") (Some 1).

Definition emptyContainer : Container := container [].
Definition oneUnstackable : Container := container [unstackableItem].

(** The container the optimizer returns for [oneUnstackable]. *)
Definition oneUnstackableOptimized : Container :=
  Eval vm_compute in
    match optimizeForRedstone oneUnstackable with
    | Ok o => o
    | Throw _ => []
    end.
End Samples.

(** ** The scorer as the specification words it

    The sum over the occupied slots of [qty / limit], with
    [limit = min(64, stackLimit or 64)] and [qty = quantity or 1], in
    rational arithmetic, and the floor of [14/54] of it plus
    [min(1, itemCount)]. *)
Definition specFillSum (items : list Slot) : Q :=
  foldr (fun it acc =>
           (inject_Z (quantity_or_1 it) / inject_Z (stackLimit it) + acc)%Q)
        0%Q items.

Definition specSignalStrength (slots : Container) : Z :=
  let items := occupied slots in
  match items with
  | [] => 0
  | _ :: _ =>
      Qfloor ((14 # 54) * specFillSum items
              + inject_Z (Z.min 1 (Z.of_nat (length items))))%Q
  end.

(** The boundary table of the scorer: occupied slots, signal. *)
Definition boundaryTable : list (nat * Z) :=
  [(0%nat, 0); (1%nat, 1); (2%nat, 1); (3%nat, 1); (4%nat, 2);
   (50%nat, 13); (51%nat, 14); (52%nat, 14); (53%nat, 14); (54%nat, 15)].

(** One unit of an unstackable item. *)
Definition unstackableUnit (it : Slot) : Prop :=
  stack_size (item it) = 1 /\ quantity_or_1 it = 1.

(** ** The classification rule *)

(** The array after the marking loop. *)
Definition marked (c : Container) : Container := markAdjusted (normalize c).

(** The fallback marks every occupied slot. *)
Definition usesFallback (c : Container) : bool :=
  negb (hasQuantityAdjustments (marked c)).

(** The rule of the marking loop for the slot [it] at index [i]: its
    quantity exceeds 1, or another occupied slot holds its identifier. *)
Definition qualifies (s : Container) (i : nat) (it : Slot) : Prop :=
  quantity_gt it 1 = true \/
  exists j it', j <> i /\ s !! j = Some (Some it') /\ id (item it') = id (item it).

(** The rule and the fallback as the specification states them. *)
Definition claimedClassification (c : Container) : Prop :=
  (forall i it, marked c !! i = Some (Some it) ->
                (isForced it = true <-> qualifies (marked c) i it)) /\
  (usesFallback c = true <->
   ~ exists i it, marked c !! i = Some (Some it) /\ qualifies (marked c) i it).

(** ** The choice of Strategy 4 *)

(** The choice the specification asks for: a candidate of the largest stack
    size, and among those one of the lowest rarity rank. *)
Definition preferredToDuplicate (candidates : list Slot) (chosen : Slot) : Prop :=
  chosen ∈ candidates /\
  forall it, it ∈ candidates ->
    stack_size (item it) < stack_size (item chosen) \/
    (stack_size (item it) = stack_size (item chosen) /\
     getRarityOrder (rarity (item chosen)) <= getRarityOrder (rarity (item it))).

Module GapFilling.
Import Samples.

(** A 16-stackable in front of a 64-stackable, both common, quantity 1. *)
Definition sixteen : option Slot := slotOf (catalogueItem "b" 16 "common") (Some 1).
Definition sixtyFour : option Slot := slotOf (catalogueItem "a" 64 "common") (Some 1).
Definition mixed : Container := container [sixteen; sixtyFour].
End GapFilling.

Module Classification.
Import Samples.

(** Two slots of one identifier and a third of another, all at
    quantity 1. *)
Definition twin : option Slot := slotOf (catalogueItem "a" 64 "common") (Some 1).
Definition single : option Slot := slotOf (catalogueItem "b" 64 "common") (Some 1).
Definition twins : Container := container [twin; twin; single].
End Classification.

(** ** The order of the adjusted group *)


(** ** The working array with respect to the threshold *)

(** Every occupied slot holds a full stack. *)
Definition everyMaxed (s : Container) : Prop :=
  Forall (fun it => quantity it = Some (stack_size (item it))) (occupied s).

(** Every occupied slot holds quantity 1. *)
Definition everyOne (s : Container) : Prop :=
  Forall (fun it => quantity it = Some 1) (occupied s).

(** The working array of a run: well formed, not empty, and at the signal
    of the input. *)
Definition atLevel (score : Container -> Z) (cur : Z) (s : Container) : Prop :=
  filled s /\ occupied s <> [] /\ score s = cur.

(** One more unit on a candidate of stack size [L] that is not full raises
    the signal. *)
Definition saturated (cur L : Z) (s : Container) : Prop :=
  forall i b q,
    s !! i = Some (Some b) -> isForced b = true ->
    stack_size (item b) = L -> quantity b = Some q -> q < L ->
    cur < signalOfFill (fillOf s + 64 / L).

(** One more unstackable raises the signal, when the array holds an
    unstackable and an empty slot after the reserved one. *)
Definition saturatedUnstackable (cur : Z) (s : Container) : Prop :=
  (exists it, it ∈ occupied s /\ stack_size (item it) = 1) ->
  (exists i, (1 <= i)%nat /\ s !! i = Some None) ->
  cur < signalOfFill (fillOf s + 64).

(** ** The run of the optimizer on a container

    The arrays after Strategies 1 to 4 and the three threshold flags, as
    the optimizer computes them with the scorer [score]. *)
Definition traced (score : Container -> Z) (c : Container)
           (s1 : Container) (fU : bool) (s2 : Container) (f16 : bool)
           (s3 : Container) (f64 : bool) (s4 : Container) : Prop :=
  let cur := score (normalize c) in
  let hasQ := hasQuantityAdjustments (markAdjusted (normalize c)) in
  let s0 := classify c in
  let forced := indicesWhere isForced s0 in
  let forcedItems := omap (slotAt s0) forced in
  strategy1 score (hasStackSize 1 forcedItems) hasQ forcedItems cur s0
  = (s1, fU) /\
  strategy2 score (hasStackSize 16 forcedItems) cur s1 = (s2, f16) /\
  strategy3 score (hasStackSize 64 forcedItems) cur s2 = (s3, f64) /\
  strategy4 score
    (gapFillingGuard hasQ (hasStackSize 1 forcedItems)
       (hasStackSize 16 forcedItems) (hasStackSize 64 forcedItems)
       fU f16 f64)
    forced cur s3 = Ok s4.

(** The candidates the strategies work on. *)
Definition forcedItemsOf (c : Container) : list Slot :=
  omap (slotAt (classify c)) (indicesWhere isForced (classify c)).

(** A slot of [s] that the pass on the layout of [s] takes as a candidate:
    every slot when no quantity is above 1, the slots the marking loop
    flags otherwise. *)
Definition candidate (s : Container) (a : Slot) : Prop :=
  hasQuantityAdjustments s = false \/ adjustedIn s a = true.

(** The array the optimizer ends with: at the signal of the input, and one
    more unit on any candidate that is not full, or one more unstackable
    when nothing has a quantity above 1, raises the signal. *)
Definition settled (score : Container -> Z) (cur : Z) (s : Container) : Prop :=
  atLevel score cur s /\
  allIndexed s /\
  (forall i a q,
     s !! i = Some (Some a) -> candidate s a ->
     quantity a = Some q -> q < stack_size (item a) ->
     cur < signalOfFill (fillOf s + 64 / stack_size (item a))) /\
  (hasQuantityAdjustments s = false ->
   (exists it, it ∈ occupied s /\ stack_size (item it) = 1) ->
   (exists i, (1 <= i)%nat /\ s !! i = Some None) ->
   cur < signalOfFill (fillOf s + 64)).

(** The items of [s'] are items of [s]. *)
Definition sameItems (s s' : Container) : Prop :=
  forall x, x ∈ item <$> occupied s' -> x ∈ item <$> occupied s.

(** An occupied slot of the working array [s] as the output holds it:
    both flags are what the marking loop computes. *)
Definition finalSlot (s : Container) (a : Slot) : Slot :=
  set_isAdjusted (Some (adjustedIn s a))
                 (set_forceAdjusted (Some (adjustedIn s a)) a).

(** ** The threshold test

    [testSignals] of the test suite: the item of the result with the
    largest stack size, one unit of it written into the reserved slot, and
    the signal of that array. *)

(** [currentItem.stack_size > largestStackSizeItem.stack_size
     ? currentItem : largestStackSizeItem] *)
Definition pickLargest (largestStackSizeItem currentItem : Slot) : Slot :=
  if stack_size (item largestStackSizeItem) <? stack_size (item currentItem)
  then currentItem else largestStackSizeItem.

(** The [reduce] without an initial value: a [TypeError] when no slot is
    occupied. *)
Definition largestStackSizeItem (optimizedSlots : Container) : Result Slot :=
  match occupied optimizedSlots with
  | first :: others => Ok (foldl pickLargest first others)
  | [] => Throw TypeError
  end.

(** [optimizedSlots[0] = { ...largestStackSizeItem, quantity: 1 }] and the
    signal of the array after the write.  The array holds an occupied
    slot when the [reduce] returns, so index 0 exists. *)
Definition signalPlus1 (score : Container -> Z) (optimizedSlots : Container)
  : Result Z :=
  match largestStackSizeItem optimizedSlots with
  | Ok largest =>
      Ok (score (<[0%nat := Some (set_quantity (Some 1) largest)]> optimizedSlots))
  | Throw e => Throw e
  end.

Definition optimizedSignalPlus1 : Container -> Result Z :=
  signalPlus1 calculateSignalStrength.

(** The expectation of the test: the optimized container is at the
    threshold. *)
Definition atThreshold (score : Container -> Z) (c : Container) : Prop :=
  exists o, optimize score c = Ok o /\ signalPlus1 score o = Ok (score o + 1).

(** Every occupied slot holds an item of stack size [L]. *)
Definition singleClass (L : Z) (c : Container) : Prop :=
  Forall (fun it => stack_size (item it) = L) (occupied c).

(** No occupied slot holds more than one unit. *)
Definition singleUnits (c : Container) : Prop :=
  Forall (fun it => quantity_or_1 it = 1) (occupied c).

Module Threshold.
(** One full stack of a 64-stackable item. *)
Definition fullStack : Container :=
  Samples.container [Samples.slotOf (Samples.catalogueItem "" 64 "") (Some 64)].

(** Seven single units of a 16-stackable item, as the test suite builds
    them. *)
Definition sevenSixteens : Container :=
  Samples.container (replicate 7 Samples.stackable16Item).
End Threshold.

(** * The cells of the application

    The component keeps its cells, the undo history, the next cell
    identifier, the selection and the display mode in React state.  A
    handler reads the state of the render it was created in and queues
    new values; the state after the handler holds, for each variable, the
    last value queued.  The handlers are modelled as functions from the
    state before to the state after. *)

Record Cell := mkCell { cell_id : Z; slots : Container }.

Record SelectedSlot := mkSelectedSlot { cellId : Z; slotIndex : Z }.

Record AppState := mkAppState {
  cells : list Cell;
  history : list (list Cell);
  nextCellId : Z;
  selectedSlots : list SelectedSlot;
  lastSelectedSlot : option SelectedSlot;
  displayMode : bool;
  catalogueItems : list Item
}.

Definition setCells (v : list Cell) (st : AppState) : AppState :=
  mkAppState v (history st) (nextCellId st) (selectedSlots st)
             (lastSelectedSlot st) (displayMode st) (catalogueItems st).
Definition setHistory (v : list (list Cell)) (st : AppState) : AppState :=
  mkAppState (cells st) v (nextCellId st) (selectedSlots st)
             (lastSelectedSlot st) (displayMode st) (catalogueItems st).
Definition setNextCellId (v : Z) (st : AppState) : AppState :=
  mkAppState (cells st) (history st) v (selectedSlots st)
             (lastSelectedSlot st) (displayMode st) (catalogueItems st).
Definition setSelectedSlots (v : list SelectedSlot) (st : AppState) : AppState :=
  mkAppState (cells st) (history st) (nextCellId st) v
             (lastSelectedSlot st) (displayMode st) (catalogueItems st).
Definition setLastSelectedSlot (v : option SelectedSlot) (st : AppState)
  : AppState :=
  mkAppState (cells st) (history st) (nextCellId st) (selectedSlots st)
             v (displayMode st) (catalogueItems st).
Definition setDisplayMode (v : bool) (st : AppState) : AppState :=
  mkAppState (cells st) (history st) (nextCellId st) (selectedSlots st)
             (lastSelectedSlot st) v (catalogueItems st).

(** ** The undo history *)

(** [saveToHistory]: a shallow copy of the cells is appended, and the
    oldest snapshot is dropped when there are more than 10. *)
Definition saveToHistory (st : AppState) : AppState :=
  let cellsSnapshot :=
    (fun cell => mkCell (cell_id cell) (slots cell)) <$> cells st in
  let newHistory := history st ++ [cellsSnapshot] in
  let newHistory :=
    if (10 <? length newHistory)%nat then drop 1 newHistory else newHistory in
  setHistory newHistory st.

(** [undo]: [history.at(-1)] is restored and removed; nothing happens on
    an empty history. *)
Definition undo (st : AppState) : AppState :=
  match last (history st) with
  | None => st
  | Some previousState =>
      setHistory (take (length (history st) - 1) (history st))
                 (setCells previousState st)
  end.

Definition addCell (st : AppState) : AppState :=
  setNextCellId (nextCellId st + 1)
    (setCells (cells st ++ [mkCell (nextCellId st) (replicate 54 None)])
       (saveToHistory st)).

Definition removeCell (cellId : Z) (st : AppState) : AppState :=
  setCells (filter (fun c => cell_id c <> cellId) (cells st))
           (saveToHistory st).

(** ** Clearing slots *)

(** [array.splice(start, 1)] on an integer [start]: a negative [start]
    counts from the end, and nothing is removed at or past the end. *)
Definition splice1 {A} (start : Z) (l : list A) : list A :=
  let len := Z.of_nat (length l) in
  let relativeStart :=
    if start <? 0 then Z.max (len + start) 0 else Z.min start len in
  delete (Z.to_nat relativeStart) l.

(** [newSlots.splice(idx, 1); newSlots.push(null)] *)
Definition removeSlot (newSlots : Container) (idx : Z) : Container :=
  splice1 idx newSlots ++ [None].

(** [sort((a, b) => b - a)]: the stable sort into descending order. *)
Fixpoint insertDescending (a : Z) (l : list Z) : list Z :=
  match l with
  | [] => [a]
  | b :: l' => if b <=? a then a :: b :: l' else b :: insertDescending a l'
  end.

Definition sortDescending (l : list Z) : list Z := foldr insertDescending [] l.

(** The indices selected in the cell [cell], largest first. *)
Definition slotsToRemove (selectedSlots : list SelectedSlot) (cell : Cell)
  : list Z :=
  sortDescending
    (slotIndex <$> filter (fun s => cellId s = cell_id cell) selectedSlots).

Definition clearSlot (cellId slotIndex : Z) (st : AppState) : AppState :=
  if (0 <? length (selectedSlots st))%nat then
    setLastSelectedSlot None
      (setSelectedSlots []
         (setCells
            ((fun cell =>
                mkCell (cell_id cell)
                       (foldl removeSlot (slots cell)
                              (slotsToRemove (selectedSlots st) cell)))
               <$> cells st)
            (saveToHistory st)))
  else
    setCells
      ((fun cell =>
          if cell_id cell =? cellId
          then mkCell (cell_id cell) (removeSlot (slots cell) slotIndex)
          else cell)
         <$> cells st)
      (saveToHistory st).

(** ** The display mode *)

(** [delete cleanSlot.quantity; delete cleanSlot.isAdjusted;
     delete cleanSlot.originalIndex] *)
Definition cleanSlot (slot : Slot) : Slot :=
  set_originalIndex None (set_isAdjusted None (set_quantity None slot)).

Definition reorderedSlots (optimizedSlots : Container) : Container :=
  (fun slot : option Slot => cleanSlot <$> slot) <$> optimizedSlots.

(** The reserved slot, the occupied slots from index 1 in order, and
    empty slots up to 54. *)
Definition compactedSlots (slots : Container) : Container :=
  let compacted := None :: (Some <$> occupied (drop 1 slots)) in
  compacted ++ replicate (54 - length compacted) None.

(** [cells.map(...)] with a callback that may throw: the first error
    ends the handler. *)
Fixpoint mapResult {A B} (f : A -> Result B) (l : list A) : Result (list B) :=
  match l with
  | [] => Ok []
  | x :: l' =>
      match f x with
      | Throw e => Throw e
      | Ok y =>
          match mapResult f l' with
          | Throw e => Throw e
          | Ok ys => Ok (y :: ys)
          end
      end
  end.

Definition toggleCell (newDisplayMode : bool) (cell : Cell) : Result Cell :=
  if newDisplayMode then
    match optimizeForRedstone (slots cell) with
    | Ok optimizedSlots => Ok (mkCell (cell_id cell) (reorderedSlots optimizedSlots))
    | Throw e => Throw e
    end
  else Ok (mkCell (cell_id cell) (compactedSlots (slots cell))).

Definition toggleDisplayMode (st : AppState) : Result AppState :=
  let newDisplayMode := negb (displayMode st) in
  match mapResult (toggleCell newDisplayMode) (cells st) with
  | Ok newCells => Ok (setDisplayMode newDisplayMode (setCells newCells st))
  | Throw e => Throw e
  end.

(** The slots a cell is drawn with, and the signal shown beside it:
    [displayMode ? optimizeForRedstone(cell.slots) : cell.slots] and
    [displayMode ? calculateSignalStrength(displaySlots) : null]. *)
Definition displaySlots (displayMode : bool) (cell : Cell) : Result Container :=
  if displayMode then optimizeForRedstone (slots cell) else Ok (slots cell).

Definition signalStrength (displayMode : bool) (cell : Cell)
  : Result (option Z) :=
  match displaySlots displayMode cell with
  | Ok displaySlots =>
      Ok (if displayMode then Some (calculateSignalStrength displaySlots)
          else None)
  | Throw e => Throw e
  end.

(** ** Export and import *)

(** An entry of the exported list: [{ id, count, cell }].  On import
    [count] and [cell] may be absent. *)
Record LayoutItem := mkLayoutItem {
  layout_id : string;
  count : option Z;
  cell : option Z
}.

(** [exportCells]: one entry for every occupied slot, cell by cell. *)
Definition exportItems (cells : list Cell) : list LayoutItem :=
  mjoin (imap (fun cellIndex c =>
                 (fun slot =>
                    mkLayoutItem (id (item slot)) (Some (quantity_or_1 slot))
                                 (Some (Z.of_nat cellIndex)))
                   <$> occupied (slots c))
              cells).

(** [catalogueItems.find((i) => i.id === id)] *)
Definition findCatalogueItem (catalogueItems : list Item) (itemId : string)
  : option Item :=
  List.find (fun i => bool_decide (id i = itemId)) catalogueItems.

(** [{ ...catalogueItem, quantity: item.count }] *)
Definition itemWithQuantity (catalogueItem : Item) (count : option Z) : Slot :=
  mkSlot catalogueItem None None count false None false.

(** The body of [importData.items.forEach]: the cell of the entry gets a
    list in the map, and the entry is appended when the catalogue knows
    its identifier. *)
Definition addToCellMap (catalogueItems : list Item)
           (cellMap : gmap Z (list Slot)) (entry : LayoutItem)
  : gmap Z (list Slot) :=
  let cellIndex := default 0 (cell entry) in
  let cellMap :=
    match cellMap !! cellIndex with
    | Some _ => cellMap
    | None => <[cellIndex := []]> cellMap
    end in
  match findCatalogueItem catalogueItems (layout_id entry) with
  | Some catalogueItem =>
      <[cellIndex := default [] (cellMap !! cellIndex)
                     ++ [itemWithQuantity catalogueItem (count entry)]]> cellMap
  | None => cellMap
  end.

Definition cellMapOf (catalogueItems : list Item) (items : list LayoutItem)
  : gmap Z (list Slot) :=
  foldl (addToCellMap catalogueItems) ∅ items.

(** [Math.max(...cellMap.keys())]; without keys it is [-Infinity], here
    [None]. *)
Definition maxCellIndex (cellMap : gmap Z (list Slot)) : option Z :=
  foldr (fun k acc => Some (from_option (Z.max k) k acc)) None
        (elements (dom cellMap)).

(** [Array(54).fill(null)] with [slots[index + 1] = item] for every
    [index + 1 < 54]. *)
Definition slotsOfItems (cellItems : list Slot) : Container :=
  None :: (Some <$> take 53 cellItems)
       ++ replicate (53 - length (take 53 cellItems)) None.

(** The loop [for (let i = 0; i <= maxCellIndex; i++)]. *)
Definition cellsOfMap (nextCellId : Z) (cellMap : gmap Z (list Slot))
  : list Cell :=
  match maxCellIndex cellMap with
  | None => []
  | Some m =>
      (fun i => mkCell (nextCellId + i)
                       (slotsOfItems (default [] (cellMap !! i))))
        <$> seqZ 0 (m + 1)
  end.

(** [importCells] on a file of the Litematica format with the entries
    [items]. *)
Definition importItems (items : list LayoutItem) (st : AppState) : AppState :=
  let newCells :=
    cellsOfMap (nextCellId st) (cellMapOf (catalogueItems st) items) in
  setLastSelectedSlot None
    (setSelectedSlots []
       (setNextCellId (nextCellId st + Z.of_nat (length newCells))
          (setCells newCells st))).

(** [importCells] on a file of the old format, an array of arrays of
    identifiers or [null]: a row of 50 is shifted by one for the reserved
    slot, any other row is padded or cut to 54 slots. *)
Definition slotOfId (catalogueItems : list Item) (itemId : option string)
  : option Slot :=
  match itemId with
  | None => None
  | Some i =>
      (fun it => mkSlot it None None None false None false)
        <$> findCatalogueItem catalogueItems i
  end.

Definition importOldCell (catalogueItems : list Item) (nextCellId : Z)
           (index : nat) (cellData : list (option string)) : Cell :=
  let slots : Container := slotOfId catalogueItems <$> cellData in
  if (length slots =? 50)%nat then
    let migratedSlots := None :: slots in
    mkCell (nextCellId + Z.of_nat index)
           (migratedSlots ++ replicate (54 - length migratedSlots) None)
  else
    mkCell (nextCellId + Z.of_nat index)
           (take 54 (slots ++ replicate (54 - length slots) None)).

Definition importOldFormat (importData : list (list (option string)))
           (st : AppState) : AppState :=
  let newCells :=
    imap (importOldCell (catalogueItems st) (nextCellId st)) importData in
  setLastSelectedSlot None
    (setSelectedSlots []
       (setNextCellId (nextCellId st + Z.of_nat (length newCells))
          (setCells newCells st))).

(** ** Selection *)

Record ClickEvent := mkClickEvent {
  shiftKey : bool;
  ctrlKey : bool;
  metaKey : bool
}.

(** [s.cellId === cellId && s.slotIndex === slotIndex] *)
Definition sameSlot (c i : Z) (s : SelectedSlot) : bool :=
  bool_decide (cellId s = c) && bool_decide (slotIndex s = i).

(** [cell?.slots[i]] is truthy. *)
Definition slotFilledAt (cell : option Cell) (i : Z) : bool :=
  match cell with
  | Some c =>
      if i <? 0 then false
      else match slots c !! Z.to_nat i with
           | Some (Some _) => true
           | _ => false
           end
  | None => false
  end.

(** The filled slots of the cell [c] from [startIndex] to [endIndex]. *)
Definition rangeSelection (cells : list Cell) (c startIndex endIndex : Z)
  : list SelectedSlot :=
  let cell := List.find (fun x => bool_decide (cell_id x = c)) cells in
  mkSelectedSlot c
    <$> filter (fun i => slotFilledAt cell i = true)
               (seqZ startIndex (endIndex - startIndex + 1)).

(** [handleSlotClick]; [item] tells whether the clicked slot holds an
    item. *)
Definition handleSlotClick (e : ClickEvent) (c i : Z) (item : bool)
           (st : AppState) : AppState :=
  if negb item then st
  else
    let isAlreadySelected := existsb (sameSlot c i) (selectedSlots st) in
    let otherwise :=
      if ctrlKey e || metaKey e then
        setLastSelectedSlot (Some (mkSelectedSlot c i))
          (setSelectedSlots
             (if isAlreadySelected
              then filter (fun s => sameSlot c i s = false) (selectedSlots st)
              else selectedSlots st ++ [mkSelectedSlot c i])
             st)
      else if isAlreadySelected && (length (selectedSlots st) =? 1)%nat then
        setLastSelectedSlot None (setSelectedSlots [] st)
      else
        setLastSelectedSlot (Some (mkSelectedSlot c i))
          (setSelectedSlots [mkSelectedSlot c i] st) in
    match lastSelectedSlot st with
    | Some l =>
        if shiftKey e && bool_decide (cellId l = c) then
          setSelectedSlots
            (rangeSelection (cells st) c (Z.min (slotIndex l) i)
                            (Z.max (slotIndex l) i))
            st
        else otherwise
    | None => otherwise
    end.

(** [handleBackgroundClick] *)
Definition handleBackgroundClick (st : AppState) : AppState :=
  setLastSelectedSlot None (setSelectedSlots [] st).

(** ** Invariants of the state *)

(** The identifiers of the cells [cs] are distinct and below [n]. *)
Definition idsBelow (n : Z) (cs : list Cell) : Prop :=
  Forall (fun c => cell_id c < n) cs /\ NoDup (cell_id <$> cs).

(** The cells, and the cells of every snapshot, have distinct
    identifiers below [nextCellId]. *)
Definition wellNumbered (st : AppState) : Prop :=
  idsBelow (nextCellId st) (cells st) /\
  Forall (idsBelow (nextCellId st)) (history st).

(** Every cell has 54 slots and an empty reserved slot. *)
Definition cellShaped (c : Cell) : Prop :=
  length (slots c) = 54%nat /\ slots c !! 0%nat = Some None.

Module App.
(** The state the component starts with when nothing is stored. *)
Definition initial : AppState :=
  mkAppState [mkCell 1 (replicate 54 None)] [] 2 [] None false [].

(** A state with one cell that holds the seven 16-stackables. *)
Definition oneCell : AppState :=
  mkAppState [mkCell 1 Threshold.sevenSixteens] [] 2 [] None false [].

(** The state with the 16-stackable of the cell in the catalogue. *)
Definition withCatalogue : AppState :=
  mkAppState [mkCell 1 Threshold.sevenSixteens] [] 2 [] None false
             [Samples.catalogueItem "" 16 ""].

(** One entry for the third cell, of an identifier the catalogue does not
    hold. *)
Definition oneEntry : list LayoutItem := [mkLayoutItem "a" (Some 3) (Some 2)].

(** The same with the slots 2 and 5 of the cell selected. *)
Definition selected : AppState :=
  mkAppState [mkCell 1 Threshold.sevenSixteens] [] 2
             [mkSelectedSlot 1 2; mkSelectedSlot 1 5] None false [].
End App.

(** The elements of [l] whose position, counted from [k], is not in
    [idxs]. *)
Fixpoint withoutIndices {A} (idxs : list Z) (k : Z) (l : list A) : list A :=
  match l with
  | [] => []
  | x :: l' =>
      if decide (k ∈ idxs) then withoutIndices idxs (k + 1) l'
      else x :: withoutIndices idxs (k + 1) l'
  end.

(** The slot indices selected in the cell with identifier [c]. *)
Definition selectedIn (selectedSlots : list SelectedSlot) (c : Z) : list Z :=
  slotIndex <$> filter (fun s => cellId s = c) selectedSlots.

(** The entries of the cell with index [i], and the slots the catalogue
    gives for a list of entries. *)
Definition entriesOf (i : Z) (items : list LayoutItem) : list LayoutItem :=
  filter (fun e => default 0 (cell e) = i) items.

Definition slotsOfEntries (catalogueItems : list Item)
           (entries : list LayoutItem) : list Slot :=
  omap (fun e => (fun it => itemWithQuantity it (count e))
                   <$> findCatalogueItem catalogueItems (layout_id e))
       entries.

(** A slot as the import builds it from an exported slot. *)
Definition reimported (slot : Slot) : Slot :=
  itemWithQuantity (item slot) (Some (quantity_or_1 slot)).

(** ** The handlers as steps of the state *)

Inductive handles : AppState -> AppState -> Prop :=
| handles_addCell st : handles st (addCell st)
| handles_removeCell k st : handles st (removeCell k st)
| handles_clearSlot k i st : handles st (clearSlot k i st)
| handles_undo st : handles st (undo st)
| handles_toggleDisplayMode st st' :
    toggleDisplayMode st = Ok st' -> handles st st'
| handles_importItems items st : handles st (importItems items st)
| handles_importOldFormat importData st :
    handles st (importOldFormat importData st)
| handles_slotClick e c i item st : handles st (handleSlotClick e c i item st)
| handles_backgroundClick st : handles st (handleBackgroundClick st).

(** * Properties *)

(** ** The scorer in exact arithmetic *)

Lemma Double_eqb_eq x y : Double.eqb x y = true -> x = y.
Proof.
  destruct x as [a|a| |a m e], y as [b|b| |b m' e']; simpl; try discriminate;
    try (intros H; apply Bool.eqb_prop in H; congruence); try done.
  rewrite !andb_true_iff. intros [[H1 H2] H3].
  apply Bool.eqb_prop in H1. apply Pos.eqb_eq in H2. apply Z.eqb_eq in H3.
  congruence.
Qed.

Module ExactnessFacts.
Import Exactness.

Lemma table_lookup (k : nat) :
  (k < bound)%nat -> table !! k = Some (sixtyFourths (Z.of_nat k)).
Proof.
  intros Hk. unfold table. rewrite list_lookup_fmap.
  rewrite lookup_seq_lt; [done | lia].
Qed.

Lemma addsUp_sound d l l' :
  addsUp d l l' = true ->
  forall i x y, l !! i = Some x -> l' !! i = Some y -> Double.add x d = y.
Proof.
  revert l'. induction l as [|a l IH]; intros [|b l'] H i x y Hx Hy;
    try done.
  simpl in H. apply andb_true_iff in H as [H1 H2].
  destruct i as [|i]; simpl in *.
  - simplify_eq. by apply Double_eqb_eq.
  - eauto.
Qed.

(** Adding [d] 64ths, [1 <= d <= 64], to an entry of the table gives the
    entry [d] places further. *)
Lemma additions_checked (d : nat) :
  In d (seq 1 64) ->
  addsUp (sixtyFourths (Z.of_nat d)) table (drop d table) = true.
Proof. revert d. apply forallb_forall. vm_compute. reflexivity. Qed.

Lemma divisions_checked (L : Z) :
  In L [1; 16; 64] ->
  forallb (fun q =>
             Double.eqb (Double.div (Double.of_Z q) (Double.of_Z L))
                        (sixtyFourths (q * (64 / L))))
          (seqZ 1 L) = true.
Proof. revert L. apply forallb_forall. vm_compute. reflexivity. Qed.

Lemma floors_checked (f : Z) :
  In f (seqZ 0 3457) ->
  (Double.floor
     (Double.add
        (Double.mul (Double.div (Double.of_Z 14) (Double.of_Z invSize))
                    (sixtyFourths f))
        (Double.of_Z 1))
   =? signalOfFill f) = true.
Proof. revert f. apply forallb_forall. vm_compute. reflexivity. Qed.

Lemma add_exact f d :
  0 <= f <= 3456 -> 1 <= d <= 64 ->
  Double.add (sixtyFourths f) (sixtyFourths d) = sixtyFourths (f + d).
Proof.
  intros Hf Hd.
  assert (In (Z.to_nat d) (seq 1 64)) as Hin by (apply in_seq; lia).
  pose proof (additions_checked _ Hin) as H.
  assert (exists k : nat, f = Z.of_nat k /\ (Z.to_nat d + k < bound)%nat)
    as (k & -> & Hk).
  { exists (Z.to_nat f). split; [lia|]. unfold bound.
    apply Nat2Z.inj_lt. rewrite Nat2Z.inj_add, !Z2Nat.id by lia.
    change (Z.of_nat 3521) with 3521. lia. }
  assert (exists e : nat, d = Z.of_nat e /\ Z.to_nat d = e) as (e & -> & He)
    by (exists (Z.to_nat d); lia).
  rewrite He in *. rewrite <- Nat2Z.inj_add.
  eapply (addsUp_sound _ _ _ H k).
  - apply table_lookup. lia.
  - rewrite lookup_drop, (Nat.add_comm k e). by apply table_lookup.
Qed.

Lemma div_exact q L :
  stackClass L -> 1 <= q <= L ->
  Double.div (Double.of_Z q) (Double.of_Z L) = sixtyFourths (q * (64 / L)).
Proof.
  intros HL Hq.
  assert (In L [1; 16; 64]) as HinL
    by (destruct HL as [->|[->| ->]]; simpl; tauto).
  pose proof (divisions_checked _ HinL) as H.
  rewrite forallb_forall in H.
  apply Double_eqb_eq, H. apply list_elem_of_In, elem_of_seqZ. lia.
Qed.

Lemma floor_exact f :
  0 <= f <= 3456 ->
  Double.floor
    (Double.add
       (Double.mul (Double.div (Double.of_Z 14) (Double.of_Z invSize))
                   (sixtyFourths f))
       (Double.of_Z 1))
  = signalOfFill f.
Proof.
  intros Hf. apply Z.eqb_eq, floors_checked.
  apply list_elem_of_In, elem_of_seqZ. lia.
Qed.
End ExactnessFacts.

Lemma slotWellFormed_scorable it : slotWellFormed it -> scorable it.
Proof.
  intros [Hc Hq]. split; [done|]. unfold quantity_or_1.
  destruct (quantity it) as [q|].
  - destruct (Z.eqb_spec q 0); lia.
  - destruct Hc as [->|[->| ->]]; lia.
Qed.

Lemma slotFilled_scorable it : slotFilled it -> scorable it.
Proof.
  intros [Hc (q & Hq & Hr)]. split; [done|]. unfold quantity_or_1.
  rewrite Hq. destruct (Z.eqb_spec q 0); lia.
Qed.

Lemma slotFilled_wellFormed it : slotFilled it -> slotWellFormed it.
Proof. intros [Hc (q & Hq & Hr)]. split; [done|]. by rewrite Hq. Qed.

Lemma stackLimit_class it :
  stackClass (stack_size (item it)) -> stackLimit it = stack_size (item it).
Proof. unfold stackLimit. intros [->|[->| ->]]; reflexivity. Qed.

(** The share of one slot in [fill64]. *)
Lemma scorable_share it :
  scorable it -> 1 <= quantity_or_1 it * (64 / stackLimit it) <= 64.
Proof.
  intros [Hc Hq]. rewrite stackLimit_class by done.
  destruct Hc as [Hc|[Hc|Hc]]; rewrite Hc in *.
  - change (64 / 1) with 64. lia.
  - change (64 / 16) with 4. lia.
  - change (64 / 64) with 1. lia.
Qed.

Lemma fill64_bounds items :
  Forall scorable items ->
  Z.of_nat (length items) <= fill64 items <= 64 * Z.of_nat (length items).
Proof.
  induction 1 as [|it items Hit _ IH]; simpl; [lia|].
  pose proof (scorable_share _ Hit). lia.
Qed.

Lemma fillSum_exact_from items a :
  Forall scorable items ->
  0 <= a -> a + 64 * Z.of_nat (length items) <= 3456 ->
  foldl (fun sum it =>
           Double.add sum (Double.div (Double.of_Z (quantity_or_1 it))
                                      (Double.of_Z (stackLimit it))))
        (Exactness.sixtyFourths a) items
  = Exactness.sixtyFourths (a + fill64 items).
Proof.
  intros Hall. revert a.
  induction Hall as [|it items Hit _ IH]; intros a Ha Hb; simpl.
  - by rewrite Z.add_0_r.
  - pose proof (scorable_share _ Hit) as Hs.
    rewrite (ExactnessFacts.div_exact (quantity_or_1 it) (stackLimit it)).
    + rewrite ExactnessFacts.add_exact by (simpl length in Hb; lia).
      rewrite IH by (simpl length in Hb; lia). f_equal. lia.
    + rewrite stackLimit_class; apply Hit.
    + rewrite stackLimit_class; apply Hit.
Qed.

(** On a container of at most 54 scorable slots the double computation of
    the scorer is exact. *)
Lemma calculateSignalStrength_exact slots :
  Forall scorable (occupied slots) ->
  (length (occupied slots) <= 54)%nat ->
  calculateSignalStrength slots = exactSignalStrength slots.
Proof.
  intros Hall Hlen. unfold calculateSignalStrength, exactSignalStrength.
  destruct (Nat.eqb_spec (length (occupied slots)) 0) as [|Hne]; [done|].
  unfold fillSum. change (Double.of_Z 0) with (Exactness.sixtyFourths 0).
  rewrite fillSum_exact_from by (done || lia).
  rewrite Z.add_0_l. rewrite Z.min_l by lia.
  apply ExactnessFacts.floor_exact.
  pose proof (fill64_bounds _ Hall). lia.
Qed.

(** ** Containers as lists *)

Lemma slotAt_Some (s : Container) i it :
  slotAt s i = Some it <-> s !! i = Some (Some it).
Proof.
  unfold slotAt. destruct (s !! i) as [[x|]|]; simpl; split; congruence.
Qed.

Lemma elem_of_occupied (s : Container) it :
  it ∈ occupied s <-> exists i, s !! i = Some (Some it).
Proof.
  unfold occupied. rewrite list_elem_of_omap. split.
  - intros (x & Hx & ->). by apply list_elem_of_lookup_1 in Hx.
  - intros (i & Hi). exists (Some it). split; [|done].
    by eapply list_elem_of_lookup_2.
Qed.

Lemma occupied_app (a b : Container) :
  occupied (a ++ b) = occupied a ++ occupied b.
Proof. apply omap_app. Qed.

Lemma occupied_cons_None (s : Container) : occupied (None :: s) = occupied s.
Proof. reflexivity. Qed.

Lemma occupied_cons_Some it (s : Container) :
  occupied (Some it :: s) = it :: occupied s.
Proof. reflexivity. Qed.

Lemma occupied_cons o (s : Container) :
  occupied (o :: s) = option_list o ++ occupied s.
Proof. by destruct o. Qed.

Lemma occupied_replicate_None n : occupied (replicate n None) = [].
Proof. induction n; simpl; auto. Qed.

Lemma occupied_Some (l : list Slot) : occupied (Some <$> l) = l.
Proof.
  induction l as [|a l IH]; [done|].
  by rewrite fmap_cons, occupied_cons_Some, IH.
Qed.

(** The occupied slots around index [i]. *)
Lemma occupied_split (s : Container) i o :
  s !! i = Some o ->
  occupied s = occupied (take i s) ++ option_list o ++ occupied (drop (S i) s).
Proof.
  intros Hi. rewrite <- (take_drop_middle s i o Hi) at 1.
  rewrite occupied_app. f_equal. by destruct o.
Qed.

Lemma occupied_insert (s : Container) i o o' :
  s !! i = Some o ->
  occupied (<[i := o']> s)
  = occupied (take i s) ++ option_list o' ++ occupied (drop (S i) s).
Proof.
  intros Hi. rewrite insert_take_drop by (by eapply lookup_lt_Some).
  rewrite occupied_app. f_equal. by destruct o'.
Qed.

Lemma fill64_app a b : fill64 (a ++ b) = fill64 a + fill64 b.
Proof. induction a as [|x a IH]; simpl; lia. Qed.

Lemma fill64_perm a b : a ≡ₚ b -> fill64 a = fill64 b.
Proof. induction 1; simpl; lia. Qed.

(** The share of a slot, empty or occupied, in the fill. *)
Definition share (o : option Slot) : Z := fill64 (option_list o).

Lemma share_Some it : share (Some it) = quantity_or_1 it * (64 / stackLimit it).
Proof. unfold share. simpl. lia. Qed.

Lemma fillOf_insert (s : Container) i o o' :
  s !! i = Some o -> fillOf (<[i := o']> s) = fillOf s - share o + share o'.
Proof.
  intros Hi. unfold fillOf, share.
  rewrite (occupied_insert _ _ _ _ Hi), (occupied_split _ _ _ Hi).
  rewrite !fill64_app. lia.
Qed.

Lemma length_occupied_insert (s : Container) i o o' :
  s !! i = Some o ->
  (length (occupied (<[i := o']> s)) + length (option_list o)
   = length (occupied s) + length (option_list o'))%nat.
Proof.
  intros Hi. rewrite (occupied_insert _ _ _ _ Hi), (occupied_split _ _ _ Hi).
  rewrite !length_app. lia.
Qed.

Lemma length_occupied_le (s : Container) : (length (occupied s) <= length s)%nat.
Proof.
  induction s as [|[x|] s IH]; [simpl; lia| |].
  - rewrite occupied_cons_Some. simpl. lia.
  - rewrite occupied_cons_None. simpl. lia.
Qed.

(** With the reserved slot empty at most 53 slots are occupied. *)
Lemma length_occupied_reserved (s : Container) :
  s !! 0%nat = Some None -> (length (occupied s) < length s)%nat.
Proof.
  destruct s as [|[x|] s]; try done.
  intros _. rewrite occupied_cons_None. pose proof (length_occupied_le s).
  simpl. lia.
Qed.

Lemma Forall_occupied_insert (P : Slot -> Prop) (s : Container) i o o' :
  s !! i = Some o ->
  Forall P (occupied s) ->
  (forall it, o' = Some it -> P it) ->
  Forall P (occupied (<[i := o']> s)).
Proof.
  intros Hi Hall Ho'.
  rewrite (occupied_insert _ _ _ _ Hi). rewrite (occupied_split _ _ _ Hi) in Hall.
  rewrite !Forall_app in *. destruct Hall as (H1 & _ & H3).
  split_and!; [done| |done]. destruct o'; simpl; auto.
Qed.

Lemma Forall_occupied_lookup (P : Slot -> Prop) (s : Container) i it :
  Forall P (occupied s) -> s !! i = Some (Some it) -> P it.
Proof.
  intros Hall Hi. rewrite Forall_forall in Hall. apply Hall.
  apply elem_of_occupied. eauto.
Qed.

(** ** Slots and their fields *)

Lemma erase_incrementQuantity it : erase (incrementQuantity it) = erase it.
Proof. reflexivity. Qed.

Lemma erase_set_quantity v it : erase (set_quantity v it) = erase it.
Proof. reflexivity. Qed.

Lemma erase_item a b : erase a = erase b -> item a = item b.
Proof. unfold erase, set_quantity. congruence. Qed.

Lemma erase_forceAdjusted a b : erase a = erase b -> forceAdjusted a = forceAdjusted b.
Proof. unfold erase, set_quantity. congruence. Qed.

Lemma erase_isForced a b : erase a = erase b -> isForced a = isForced b.
Proof. unfold isForced. by intros ->%erase_forceAdjusted. Qed.

Lemma erase_originalIndex a b : erase a = erase b -> originalIndex a = originalIndex b.
Proof. unfold erase, set_quantity. congruence. Qed.

Lemma erase_eq a b : erase a = erase b -> quantity a = quantity b -> a = b.
Proof.
  destruct a, b. unfold erase, set_quantity. simpl. congruence.
Qed.

Lemma erase_set_back a b : erase a = erase b -> b = set_quantity (quantity b) a.
Proof. intros H. apply erase_eq; [|done]. by rewrite erase_set_quantity. Qed.

Lemma quantity_or_1_Some it q :
  quantity it = Some q -> 1 <= q -> quantity_or_1 it = q.
Proof. unfold quantity_or_1. intros -> ?. destruct (Z.eqb_spec q 0); lia. Qed.

Lemma slotFilled_quantity it :
  slotFilled it -> quantity it = Some (quantity_or_1 it).
Proof.
  intros [_ (q & Hq & Hr)]. rewrite (quantity_or_1_Some _ _ Hq); [done|lia].
Qed.

(** ** The order [grows] *)

Global Instance growsSlot_refl : Reflexive growsSlot.
Proof. intros [a|]; simpl; [|done]. exists a. split_and!; [done..|lia]. Qed.

Global Instance growsSlot_trans : Transitive growsSlot.
Proof.
  intros [a|] y z; simpl; [|done].
  intros (b & -> & Hab & Hq) (c & -> & Hbc & Hq'). exists c.
  split_and!; [done|congruence|lia].
Qed.

Global Instance grows_refl : Reflexive grows.
Proof. intros s. unfold grows. reflexivity. Qed.

Global Instance grows_trans : Transitive grows.
Proof. intros x y z. unfold grows. apply transitivity. Qed.

Lemma grows_length s s' : grows s s' -> length s = length s'.
Proof. apply Forall2_length. Qed.

Lemma grows_lookup s s' i a :
  grows s s' -> s !! i = Some (Some a) ->
  exists b, s' !! i = Some (Some b) /\ erase a = erase b
            /\ quantity_or_1 a <= quantity_or_1 b.
Proof.
  intros Hg Hi. destruct (Forall2_lookup_l _ _ _ _ _ Hg Hi) as (o' & Ho' & Hs).
  destruct Hs as (b & -> & ?). eauto.
Qed.

Lemma grows_insert (s : Container) i o o' :
  s !! i = Some o -> growsSlot o o' -> grows s (<[i := o']> s).
Proof.
  intros Hi Ho. rewrite <- (list_insert_id s i o Hi) at 1.
  apply Forall2_insert; [reflexivity|done].
Qed.

Lemma grows_occupied_not_empty s s' i :
  grows s s' -> s !! i <> Some None -> s' !! i <> Some None.
Proof.
  intros Hg Hi Hi'.
  destruct (s !! i) as [[a|]|] eqn:E; [|done|].
  - destruct (grows_lookup _ _ _ _ Hg E) as (b & Hb & _). congruence.
  - apply lookup_ge_None in E. apply lookup_lt_Some in Hi'.
    rewrite (grows_length _ _ Hg) in E. lia.
Qed.

Lemma grows_items s s' x :
  grows s s' -> x ∈ item <$> occupied s -> x ∈ item <$> occupied s'.
Proof.
  intros Hg (a & -> & Ha)%list_elem_of_fmap.
  apply elem_of_occupied in Ha as (i & Hi).
  destruct (grows_lookup _ _ _ _ Hg Hi) as (b & Hb & He & _).
  apply list_elem_of_fmap. exists b. split; [by apply erase_item|].
  apply elem_of_occupied. eauto.
Qed.

Lemma grows_countId k s s' : grows s s' -> (countId k s <= countId k s')%nat.
Proof.
  unfold grows, countId. induction 1 as [|o o' s s' Ho _ IH]; [done|].
  destruct o as [a|].
  - destruct Ho as (b & -> & He & _). rewrite !occupied_cons_Some.
    rewrite !filter_cons, <- (erase_item _ _ He).
    destruct (decide (id (item a) = k)); simpl; lia.
  - rewrite occupied_cons_None. destruct o' as [b|].
    + rewrite occupied_cons_Some, filter_cons. case_decide; simpl; lia.
    + by rewrite occupied_cons_None.
Qed.

Lemma scorable_unit it : scorable it -> 1 <= 64 / stackLimit it <= 64.
Proof.
  intros [Hc _]. rewrite stackLimit_class by done.
  destruct Hc as [->|[->| ->]];
    [change (64 / 1) with 64|change (64 / 16) with 4|change (64 / 64) with 1];
    lia.
Qed.

Lemma grows_fill64 s s' :
  grows s s' -> Forall scorable (occupied s') -> fillOf s <= fillOf s'.
Proof.
  unfold grows, fillOf. induction 1 as [|o o' s s' Ho _ IH]; [done|].
  destruct o as [a|].
  - destruct Ho as (b & -> & He & Hq). rewrite !occupied_cons_Some.
    intros [Hb Hs']%Forall_cons. simpl.
    assert (stackLimit a = stackLimit b) as ->
      by (unfold stackLimit; by rewrite (erase_item _ _ He)).
    pose proof (scorable_unit _ Hb). specialize (IH Hs').
    assert (quantity_or_1 a * (64 / stackLimit b)
            <= quantity_or_1 b * (64 / stackLimit b))
      by (apply Z.mul_le_mono_nonneg_r; lia).
    lia.
  - rewrite occupied_cons_None. destruct o' as [b|].
    + rewrite occupied_cons_Some. intros [Hb Hs']%Forall_cons. simpl.
      pose proof (scorable_share _ Hb). specialize (IH Hs'). lia.
    + rewrite occupied_cons_None. auto.
Qed.

(** ** What a write keeps *)

Lemma skeleton_lookup s i : skeleton s !! i = (fun o => erase <$> o) <$> s !! i.
Proof. unfold skeleton. apply list_lookup_fmap. Qed.

Lemma skeleton_length s : length (skeleton s) = length s.
Proof. unfold skeleton. apply length_fmap. Qed.

Lemma skeleton_eq_length s s' : skeleton s = skeleton s' -> length s = length s'.
Proof. intros H. by rewrite <- (skeleton_length s), H, skeleton_length. Qed.

Lemma skeleton_eq_lookup s s' i a :
  skeleton s = skeleton s' -> s !! i = Some (Some a) ->
  exists b, s' !! i = Some (Some b) /\ erase a = erase b.
Proof.
  intros H Hi. pose proof (skeleton_lookup s i) as H1.
  rewrite H, skeleton_lookup, Hi in H1. simpl in H1.
  destruct (s' !! i) as [[b|]|]; simpl in H1; try discriminate.
  exists b. split; [done|congruence].
Qed.

Lemma skeleton_eq_empty s s' i :
  skeleton s = skeleton s' -> s !! i = Some None -> s' !! i = Some None.
Proof.
  intros H Hi. pose proof (skeleton_lookup s i) as H1.
  rewrite H, skeleton_lookup, Hi in H1. simpl in H1.
  by destruct (s' !! i) as [[b|]|]; simpl in H1; try discriminate.
Qed.

Lemma skeleton_insert s i it it' :
  s !! i = Some (Some it) -> erase it' = erase it ->
  skeleton (<[i := Some it']> s) = skeleton s.
Proof.
  intros Hi He. unfold skeleton. rewrite list_fmap_insert. simpl.
  apply list_insert_id. rewrite list_lookup_fmap, Hi. simpl. by rewrite He.
Qed.

Section MoveFacts.
Context (score : Container -> Z) (cur : Z).

Lemma move_grows s s' : move score cur s s' -> grows s s'.
Proof.
  destruct 1 as [s i it q Hi Hq _ _ _|s i d _ Hi _ _ _ _ _].
  - apply slotAt_Some in Hi. eapply grows_insert; [done|]. simpl.
    eexists. split_and!; [done|done|].
    unfold quantity_or_1, incrementQuantity. rewrite Hq. simpl.
    destruct (Z.eqb_spec q 0), (Z.eqb_spec (Z.succ q) 0); lia.
  - by eapply grows_insert.
Qed.

Lemma moves_grows s s' : rtc (move score cur) s s' -> grows s s'.
Proof.
  induction 1 as [|s s1 s' H _ IH]; [reflexivity|].
  etrans; [by eapply move_grows|done].
Qed.

Lemma move_reserved s s' :
  move score cur s s' -> s !! 0%nat = Some None -> s' !! 0%nat = Some None.
Proof.
  destruct 1 as [s i it q Hi _ _ _ _|s i d Hi1 _ _ _ _ _ _]; intros H0.
  - apply slotAt_Some in Hi. rewrite list_lookup_insert_ne; [done|].
    intros ->. congruence.
  - rewrite list_lookup_insert_ne; [done|lia].
Qed.

Lemma move_filled s s' : move score cur s s' -> filled s -> filled s'.
Proof.
  intros Hm (Hlen & H0 & Hall). split_and!.
  - by rewrite <- (grows_length _ _ (move_grows _ _ Hm)).
  - by eapply move_reserved.
  - destruct Hm as [s i it q Hi Hq _ Hlt _|s i d _ Hi Hd _ _ Hq _].
    + apply slotAt_Some in Hi. eapply Forall_occupied_insert; [done..|].
      intros ? [= <-].
      destruct (Forall_occupied_lookup _ _ _ _ Hall Hi) as [Hc (q' & Hq' & Hr)].
      split; [done|]. exists (Z.succ q). unfold incrementQuantity.
      rewrite Hq. simpl. split; [done|]. simplify_eq. lia.
    + eapply Forall_occupied_insert; [done..|].
      intros ? [= <-].
      apply list_elem_of_fmap in Hd as (a & Hda & Ha).
      rewrite Forall_forall in Hall. destruct (Hall _ Ha) as [Hc _].
      rewrite <- Hda in Hc. split; [done|]. eexists. split; [done|].
      destruct Hc as [->|[->| ->]]; lia.
Qed.

Lemma moves_filled s s' : rtc (move score cur) s s' -> filled s -> filled s'.
Proof. induction 1; eauto using move_filled. Qed.

Lemma move_allForced s s' :
  move score cur s s' -> allForced s -> allForced s'.
Proof.
  unfold allForced.
  destruct 1 as [s i it q Hi _ Hf _ _|s i d _ Hi _ Hf _ _ _]; intros Hall.
  - apply slotAt_Some in Hi. eapply Forall_occupied_insert; [done..|].
    by intros ? [= <-].
  - eapply Forall_occupied_insert; [done..|]. by intros ? [= <-].
Qed.

Lemma moves_allForced s s' :
  rtc (move score cur) s s' -> allForced s -> allForced s'.
Proof. induction 1; eauto using move_allForced. Qed.

Lemma move_allIndexed s s' :
  move score cur s s' -> allIndexed s -> allIndexed s'.
Proof.
  unfold allIndexed.
  destruct 1 as [s i it q Hi _ _ _ _|s i d _ Hi _ _ Ho _ _]; intros Hall.
  - apply slotAt_Some in Hi. eapply Forall_occupied_insert; [done..|].
    intros ? [= <-]. apply (Forall_occupied_lookup _ _ _ _ Hall Hi).
  - eapply Forall_occupied_insert; [done..|]. intros ? [= <-].
    by rewrite Ho.
Qed.

Lemma moves_allIndexed s s' :
  rtc (move score cur) s s' -> allIndexed s -> allIndexed s'.
Proof. induction 1; eauto using move_allIndexed. Qed.

(** *** The loops *)

Lemma set_quantity_same it q : quantity it = Some q -> set_quantity (Some q) it = it.
Proof. destruct it. simpl. by intros ->. Qed.

Lemma incrementWhile_spec n : forall i s s' found it q,
  incrementWhile score n cur i s = (s', found) ->
  slotAt s i = Some it -> quantity it = Some q -> isForced it = true ->
  (n <> 0%nat -> q + Z.of_nat n <= stack_size (item it)) ->
  exists k : nat,
    (k <= n)%nat /\
    s' = <[i := Some (set_quantity (Some (q + Z.of_nat k)) it)]> s /\
    rtc (move score cur) s s' /\
    (found = true ->
     (k < n)%nat /\
     rises score cur
       (<[i := Some (set_quantity (Some (q + Z.of_nat k + 1)) it)]> s) = true) /\
    (found = false -> k = n).
Proof.
  induction n as [|n IH]; intros i s s' found it q Hrun Hi Hq Hf Hle.
  - simpl in Hrun. simplify_eq. exists 0%nat. split_and!; try done.
    rewrite Z.add_0_r, set_quantity_same by done.
    symmetry. apply list_insert_id. by apply slotAt_Some.
  - simpl in Hrun. rewrite Hi in Hrun.
    assert (incrementQuantity it = set_quantity (Some (q + 1)) it) as Hinc
      by (unfold incrementQuantity; rewrite Hq; reflexivity).
    destruct (cur <? score (<[i:=Some (incrementQuantity it)]> s)) eqn:Hr.
    + simplify_eq. exists 0%nat. split_and!; try done; try lia.
      * rewrite Z.add_0_r, set_quantity_same by done.
        symmetry. apply list_insert_id. by apply slotAt_Some.
      * intros _. split; [lia|]. unfold rises.
        by rewrite Z.add_0_r, <- Hinc.
    + assert (i < length s)%nat as Hlt
        by (apply slotAt_Some in Hi; by eapply lookup_lt_Some).
      eapply (IH _ _ _ _ (incrementQuantity it) (q + 1)) in Hrun as
          (k & Hk & -> & Hm & Ht & Hfalse).
      * exists (S k). split_and!.
        -- lia.
        -- rewrite list_insert_insert_eq, Hinc.
           by replace (q + Z.of_nat (S k)) with (q + 1 + Z.of_nat k) by lia.
        -- eapply rtc_l; [|done]. eapply move_increment; eauto. lia.
        -- intros Hfound. destruct (Ht Hfound) as [? Hrise]. split; [lia|].
           rewrite list_insert_insert_eq, Hinc in Hrise.
           by replace (q + Z.of_nat (S k) + 1)
             with (q + 1 + Z.of_nat k + 1) by lia.
        -- intros Hfound. rewrite (Hfalse Hfound). done.
      * apply slotAt_Some. by rewrite list_lookup_insert_eq.
      * by rewrite Hinc.
      * done.
      * rewrite Hinc. simpl. lia.
Qed.

Lemma incrementAll_spec limit idxs :
  (forall a b, erase a = erase b -> limit a = limit b) ->
  forall s s' found,
  incrementAll score limit cur idxs s = (s', found) ->
  filled s ->
  (forall i it, i ∈ idxs -> slotAt s i = Some it ->
                isForced it = true /\ limit it <= stack_size (item it)) ->
  rtc (move score cur) s s' /\
  skeleton s' = skeleton s /\
  (forall j, j ∉ idxs -> s' !! j = s !! j) /\
  (found = true ->
   exists i it q,
     i ∈ idxs /\ slotAt s' i = Some it /\ quantity it = Some q /\
     q < limit it /\
     rises score cur (<[i := Some (incrementQuantity it)]> s') = true) /\
  (found = false ->
   forall i it q, i ∈ idxs -> slotAt s' i = Some it ->
                  quantity it = Some q -> limit it <= q).
Proof.
  intros Hlim. induction idxs as [|i rest IH]; intros s s' found Hrun Hfil Hpre.
  { simpl in Hrun. simplify_eq. split_and!; try done.
    intros _ i it q Hi. by apply elem_of_nil in Hi. }
  simpl in Hrun. destruct (slotAt s i) as [it|] eqn:Hi.
  - destruct (incrementWhile score (iterations (limit it) it) cur i s)
      as [s1 f1] eqn:E1.
    destruct (Hpre i it) as [Hf Hl]; [left|done|].
    apply slotAt_Some in Hi as Hi'.
    destruct (Forall_occupied_lookup _ _ _ _ (proj2 (proj2 Hfil)) Hi')
      as [Hc (q & Hq & Hr)].
    unfold iterations in E1. rewrite Hq in E1.
    destruct (incrementWhile_spec _ _ _ _ _ _ _ E1 Hi Hq Hf)
      as (k & Hk & Hs1 & Hm & Ht & Hfalse); [lia|]. subst s1.
    set (it1 := set_quantity (Some (q + Z.of_nat k)) it) in *.
    assert (skeleton (<[i:=Some it1]> s) = skeleton s) as Hsk
      by (by eapply skeleton_insert).
    assert (slotAt (<[i:=Some it1]> s) i = Some it1) as Hi1.
    { apply slotAt_Some. rewrite list_lookup_insert_eq; [done|].
      by eapply lookup_lt_Some. }
    destruct f1.
    + injection Hrun as <- <-.
      destruct (Ht eq_refl) as [Hkn Hrise]. split_and!; try done.
      * intros j Hj. rewrite list_lookup_insert_ne; [done|].
        intros ->. apply Hj. left.
      * intros _. exists i, it1, (q + Z.of_nat k). split_and!; try done.
        -- left.
        -- rewrite (Hlim it1 it) by done. lia.
        -- by rewrite list_insert_insert_eq.
    + apply IH in Hrun as (Hm' & Hsk' & Hout & Ht' & Hf').
      * split_and!.
        -- by etrans.
        -- by rewrite Hsk'.
        -- intros j Hj. rewrite Hout by (intros ?; apply Hj; by right).
           rewrite list_lookup_insert_ne; [done|].
           intros ->. apply Hj. left.
        -- intros Hfound. destruct (Ht' Hfound) as (i' & it' & q' & ? & ?).
           exists i', it', q'. split; [by right|done].
        -- intros Hfound i' it' q' [->|Hin]%elem_of_cons Hi'' Hq'.
           ++ apply slotAt_Some in Hi1, Hi''.
              destruct (grows_lookup _ _ _ _ (moves_grows _ _ Hm') Hi1)
                as (b & Hb & He & Hle).
              rewrite Hi'' in Hb. injection Hb as <-.
              pose proof (moves_filled _ _ Hm' (moves_filled _ _ Hm Hfil))
                as Hfil'.
              destruct (Forall_occupied_lookup _ _ _ _ (proj2 (proj2 Hfil')) Hi'')
                as [_ (q'' & Hq'' & Hr'')].
              rewrite Hq' in Hq''. injection Hq'' as <-.
              rewrite (quantity_or_1_Some it' q') in Hle by (done || lia).
              rewrite (quantity_or_1_Some it1 (q + Z.of_nat k)) in Hle
                by (done || lia).
              rewrite <- (Hlim it1 it' He), (Hlim it1 it) by done.
              rewrite (Hfalse eq_refl) in Hle. lia.
           ++ by eapply Hf'.
      * by eapply moves_filled.
      * intros j a Hj Ha. apply slotAt_Some in Ha.
        destruct (skeleton_eq_lookup _ _ _ _ Hsk Ha) as (b & Hb & He).
        apply slotAt_Some in Hb.
        destruct (Hpre j b) as [Hfb Hlb]; [by right|done|].
        rewrite (erase_isForced _ _ He), (Hlim _ _ He), (erase_item _ _ He).
        done.
  - apply IH in Hrun as (Hm' & Hsk' & Hout & Ht' & Hf'); [|done|].
    + split_and!; try done.
      * intros j Hj. apply Hout. intros ?. apply Hj. by right.
      * intros Hfound. destruct (Ht' Hfound) as (i' & it' & q' & ? & ?).
        exists i', it', q'. split; [by right|done].
      * intros Hfound i' it' q' [->|Hin]%elem_of_cons Hi'' Hq'.
        -- apply slotAt_Some in Hi''.
           destruct (skeleton_eq_lookup _ _ _ _ Hsk' Hi'') as (b & Hb & _).
           apply slotAt_Some in Hb. congruence.
        -- by eapply Hf'.
    + intros j a Hj. apply Hpre. by right.
Qed.

Lemma fillUnstackables_spec target idxs :
  stack_size (item target) = 1 ->
  Forall (fun i => (1 <= i)%nat) idxs ->
  forall s s' found,
  fillUnstackables score target cur idxs s = (s', found) ->
  item target ∈ item <$> occupied s ->
  rtc (move score cur) s s' /\
  (forall i a, s !! i = Some (Some a) -> s' !! i = Some (Some a)) /\
  (forall i b, s !! i = Some None -> s' !! i = Some (Some b) ->
               b = duplicateUnstackable target) /\
  (found = true ->
   exists i, (1 <= i)%nat /\ s' !! i = Some None /\
             rises score cur (<[i := Some (duplicateUnstackable target)]> s')
             = true) /\
  (found = false -> forall i, i ∈ idxs -> s' !! i <> Some None).
Proof.
  intros Hst. induction 1 as [|i rest Hi1 _ IH]; intros s s' found Hrun Hin.
  { simpl in Hrun. simplify_eq. split_and!; try done.
    - intros i b H1 H2. congruence.
    - intros _ i Hi. by apply elem_of_nil in Hi. }
  simpl in Hrun.
  assert (forall s1, rtc (move score cur) s s1 ->
            fillUnstackables score target cur rest s1 = (s', found) ->
            s1 !! i <> Some None ->
            (forall j a, s !! j = Some (Some a) -> s1 !! j = Some (Some a)) ->
            (forall j b, s !! j = Some None -> s1 !! j = Some (Some b) ->
                         b = duplicateUnstackable target) ->
            rtc (move score cur) s s' /\
            (forall i a, s !! i = Some (Some a) -> s' !! i = Some (Some a)) /\
            (forall i b, s !! i = Some None -> s' !! i = Some (Some b) ->
                         b = duplicateUnstackable target) /\
            (found = true ->
             exists i, (1 <= i)%nat /\ s' !! i = Some None /\
               rises score cur (<[i := Some (duplicateUnstackable target)]> s')
               = true) /\
            (found = false -> forall j, j ∈ i :: rest -> s' !! j <> Some None))
    as Hnext.
  { intros s1 Hm Hrun1 Hne Hold Hnew.
    apply IH in Hrun1 as (Hm' & Hold' & Hnew' & Ht & Hf);
      [|by eapply grows_items; [eapply moves_grows|]].
    split_and!; [by etrans|by eauto| |done|].
    - intros j b Hj Hb. destruct (s1 !! j) as [[x|]|] eqn:E.
      + rewrite (Hold' _ _ E) in Hb. injection Hb as <-. by eapply Hnew.
      + by eapply Hnew'.
      + apply lookup_ge_None in E. apply lookup_lt_Some in Hj.
        rewrite <- (grows_length _ _ (moves_grows _ _ Hm)) in E. lia.
    - intros Hfound j [->|Hj]%elem_of_cons; [|by apply Hf].
      by eapply grows_occupied_not_empty; [eapply moves_grows|]. }
  destruct (s !! i) as [[x|]|] eqn:Hi.
  - apply (Hnext s); [done..| |done|]; [by rewrite Hi|congruence].
  - set (s1 := <[i:=Some (duplicateUnstackable target)]> s) in *.
    assert (i < length s)%nat as Hlt by (by eapply lookup_lt_Some).
    destruct (cur <? score s1) eqn:Hr.
    + simplify_eq. unfold s1. rewrite list_insert_insert_eq.
      rewrite (list_insert_id s i None Hi). split_and!; try done.
      * intros j b H1 H2. congruence.
      * intros _. exists i. by split_and!.
    + apply (Hnext s1); [|done| | |].
      * apply rtc_once. eapply (move_duplicate _ _ s i); eauto.
        simpl. by rewrite Hst.
      * unfold s1. by rewrite list_lookup_insert_eq.
      * intros j a Hj. unfold s1. rewrite list_lookup_insert_ne; [done|].
        intros ->. congruence.
      * intros j b Hj. unfold s1. destruct (decide (i = j)) as [<-|Hne].
        -- rewrite list_lookup_insert_eq by done. congruence.
        -- rewrite list_lookup_insert_ne by done. congruence.
  - apply (Hnext s); [done..| |done|]; [by rewrite Hi|congruence].
Qed.

Lemma fillStackables_spec src idxs :
  quantity src = Some (stack_size (item src)) ->
  Forall (fun i => (1 <= i)%nat) idxs ->
  forall s s',
  fillStackables score src cur idxs s = s' ->
  item src ∈ item <$> occupied s ->
  (rtc (move score cur) s s' /\ forall i, i ∈ idxs -> s' !! i <> Some None)
  \/ (exists s'', rtc (move score cur) s s'' /\ commit score cur src s'' s').
Proof.
  intros Hq. induction 1 as [|i rest Hi1 _ IH]; intros s s' Hrun Hin.
  { simpl in Hrun. simplify_eq. left. split; [done|].
    intros i Hi. by apply elem_of_nil in Hi. }
  simpl in Hrun.
  assert (forall s1, rtc (move score cur) s s1 ->
            fillStackables score src cur rest s1 = s' ->
            s1 !! i <> Some None ->
            (rtc (move score cur) s s' /\
             forall j, j ∈ i :: rest -> s' !! j <> Some None)
            \/ (exists s'', rtc (move score cur) s s'' /\
                            commit score cur src s'' s'))
    as Hnext.
  { intros s1 Hm Hrun1 Hne.
    apply IH in Hrun1 as [[Hm' Hf]|(s'' & Hm' & Hc)];
      [| |by eapply grows_items; [eapply moves_grows|]].
    - left. split; [by etrans|].
      intros j [->|Hj]%elem_of_cons; [|by apply Hf].
      by eapply grows_occupied_not_empty; [eapply moves_grows|].
    - right. exists s''. split; [by etrans|done]. }
  destruct (s !! i) as [[x|]|] eqn:Hi.
  - apply (Hnext s); [done..|]. by rewrite Hi.
  - set (s1 := <[i:=Some (duplicateStackable src)]> s) in *.
    destruct (cur <? score s1) eqn:Hrise.
    + right. exists s. split; [done|]. subst s'. unfold s1.
      rewrite list_insert_insert_eq. by constructor.
    + apply (Hnext s1); [|done|].
      * apply rtc_once. eapply (move_duplicate _ _ s i); eauto.
      * unfold s1. rewrite list_lookup_insert_eq; [done|].
        by eapply lookup_lt_Some.
  - apply (Hnext s); [done..|]. by rewrite Hi.
Qed.

Lemma commit_grows src s s' : commit score cur src s s' -> grows s s'.
Proof. destruct 1. by eapply grows_insert. Qed.

Lemma commit_filled src s s' :
  commit score cur src s s' ->
  stackClass (stack_size (item src)) -> filled s -> filled s'.
Proof.
  destruct 1 as [s i Hi1 Hi _]. intros Hc (Hlen & H0 & Hall). split_and!.
  - by rewrite length_insert.
  - rewrite list_lookup_insert_ne; [done|lia].
  - eapply Forall_occupied_insert; [done..|]. intros ? [= <-].
    split; [done|]. exists 1. split; [done|]. simpl.
    destruct Hc as [->|[->| ->]]; lia.
Qed.
End MoveFacts.

(** ** Slot-wise maps *)

Lemma mapSlots_lookup f s i : mapSlots f s !! i = (fun o => f <$> o) <$> s !! i.
Proof. unfold mapSlots. apply list_lookup_fmap. Qed.

Lemma mapSlots_length f s : length (mapSlots f s) = length s.
Proof. unfold mapSlots. apply length_fmap. Qed.

Lemma occupied_mapSlots f s : occupied (mapSlots f s) = f <$> occupied s.
Proof.
  induction s as [|[a|] s IH]; [done| |].
  - change (mapSlots f (Some a :: s)) with (Some (f a) :: mapSlots f s).
    by rewrite !occupied_cons_Some, fmap_cons, IH.
  - change (mapSlots f (None :: s)) with (None :: mapSlots f s).
    by rewrite !occupied_cons_None.
Qed.

Lemma mapSlots_Some f s i b :
  mapSlots f s !! i = Some (Some b) <->
  exists a, s !! i = Some (Some a) /\ b = f a.
Proof.
  rewrite mapSlots_lookup. destruct (s !! i) as [[a|]|]; simpl; split.
  - intros [= <-]. eauto.
  - intros (a' & [= <-] & ->). done.
  - done.
  - by intros (a' & [=] & _).
  - done.
  - by intros (a' & [=] & _).
Qed.

Lemma mapSlots_None f s i : mapSlots f s !! i = Some None <-> s !! i = Some None.
Proof. rewrite mapSlots_lookup. by destruct (s !! i) as [[a|]|]. Qed.

Lemma countId_mapSlots f s k :
  (forall a, item (f a) = item a) -> countId k (mapSlots f s) = countId k s.
Proof.
  intros Hf. unfold countId. rewrite occupied_mapSlots.
  induction (occupied s) as [|a l IH]; [done|].
  rewrite fmap_cons, !filter_cons, Hf.
  destruct (decide (id (item a) = k)); simpl; by rewrite IH.
Qed.

Lemma profile_mapSlots f s :
  (forall a, item (f a) = item a) -> (forall a, quantity (f a) = quantity a) ->
  profile (mapSlots f s) = profile s.
Proof.
  intros Hf Hq. unfold profile. rewrite occupied_mapSlots, <- list_fmap_compose.
  apply list_fmap_ext. intros _ a _. simpl.
  unfold quantity_or_1. by rewrite Hf, Hq.
Qed.

(** ** The item counts *)

Lemma itemCounts_from (l : list Slot) (acc : gmap string Z) k :
  default 0
    (foldl (fun acc it =>
              <[id (item it) := default 0 (acc !! id (item it)) + 1]> acc)
           acc l !! k)
  = default 0 (acc !! k)
    + Z.of_nat (length (filter (fun it => id (item it) = k) l)).
Proof.
  revert acc. induction l as [|a l IH]; intros acc; simpl; [lia|].
  rewrite IH, filter_cons. destruct (decide (id (item a) = k)) as [->|Hne].
  - rewrite lookup_insert_eq. simpl. lia.
  - rewrite lookup_insert_ne by done. lia.
Qed.

Lemma itemCounts_lookup s k :
  default 0 (itemCounts s !! k) = Z.of_nat (countId k s).
Proof. unfold itemCounts, countId. rewrite itemCounts_from. by rewrite lookup_empty. Qed.

Lemma markSlot_adjustedIn s it :
  markSlot (itemCounts s) it = set_forceAdjusted (Some (adjustedIn s it)) it.
Proof. unfold markSlot, adjustedIn. by rewrite itemCounts_lookup. Qed.

Lemma markAdjusted_mapSlots s :
  markAdjusted s = mapSlots (fun it => set_forceAdjusted (Some (adjustedIn s it)) it) s.
Proof.
  unfold markAdjusted, mapSlots. apply list_fmap_ext. intros _ [a|] _; [|done].
  simpl. by rewrite markSlot_adjustedIn.
Qed.

Lemma markAll_mapSlots s : markAll s = mapSlots (set_forceAdjusted (Some true)) s.
Proof. reflexivity. Qed.

(** ** Normalisation *)

Lemma normalize_lookup c i :
  normalize c !! i = (fun o => normalizeSlot i <$> o) <$> c !! i.
Proof. unfold normalize. by rewrite list_lookup_imap. Qed.

Lemma normalize_length c : length (normalize c) = length c.
Proof. unfold normalize. apply length_imap. Qed.

Lemma normalize_Some c i b :
  normalize c !! i = Some (Some b) <->
  exists a, c !! i = Some (Some a) /\ b = normalizeSlot i a.
Proof.
  rewrite normalize_lookup. destruct (c !! i) as [[a|]|]; simpl; split.
  - intros [= <-]. eauto.
  - intros (a' & [= <-] & ->). done.
  - done.
  - by intros (a' & [=] & _).
  - done.
  - by intros (a' & [=] & _).
Qed.

Lemma normalize_None c i : normalize c !! i = Some None <-> c !! i = Some None.
Proof. rewrite normalize_lookup. by destruct (c !! i) as [[a|]|]. Qed.

Lemma occupied_normalize_from (c : Container) (k : nat) :
  Forall2 (fun a b => exists i, b = normalizeSlot i a)
          (occupied c)
          (occupied (imap (fun idx (o : option Slot) =>
                             normalizeSlot (k + idx) <$> o) c)).
Proof.
  revert k. induction c as [|o c IH]; intros k; [constructor|].
  rewrite imap_cons, !occupied_cons. apply Forall2_app.
  - destruct o as [a|]; simpl; [|constructor].
    constructor; [eauto|constructor].
  - erewrite imap_ext; [apply (IH (S k))|].
    intros i x _. simpl. by replace (k + S i)%nat with (S k + i)%nat by lia.
Qed.

Lemma occupied_normalize c :
  Forall2 (fun a b => exists i, b = normalizeSlot i a)
          (occupied c) (occupied (normalize c)).
Proof. apply (occupied_normalize_from c 0). Qed.

Lemma quantity_or_1_normalizeSlot i a :
  quantity_or_1 (normalizeSlot i a) = quantity_or_1 a.
Proof.
  unfold quantity_or_1 at 1. simpl. unfold quantity_or_1.
  destruct (quantity a) as [q|]; [|done].
  destruct (Z.eqb_spec q 0) as [->|Hq]; [done|].
  by destruct (Z.eqb_spec q 0).
Qed.

Lemma normalize_fmap {B} (p : Slot -> B) c :
  (forall i a, p (normalizeSlot i a) = p a) ->
  p <$> occupied (normalize c) = p <$> occupied c.
Proof.
  intros Hp. pose proof (occupied_normalize c) as H.
  induction H as [|a b l l' (i & ->) _ IH]; [done|].
  by rewrite !fmap_cons, Hp, IH.
Qed.

Lemma profile_normalize c : profile (normalize c) = profile c.
Proof.
  unfold profile. apply normalize_fmap. intros i a.
  by rewrite quantity_or_1_normalizeSlot.
Qed.

Lemma countId_normalize c k : countId k (normalize c) = countId k c.
Proof.
  unfold countId.
  assert (forall l : list Slot,
            length (filter (fun it => id (item it) = k) l)
            = length (filter (fun x => x = k) ((fun it => id (item it)) <$> l)))
    as Hid.
  { induction l as [|a l IH]; [done|]. rewrite fmap_cons, !filter_cons.
    destruct (decide (id (item a) = k)); simpl; by rewrite IH. }
  rewrite !Hid. by rewrite (normalize_fmap (fun it => id (item it))).
Qed.

(** ** The scores read the profile only *)

Lemma length_profile s : length (profile s) = length (occupied s).
Proof. unfold profile. apply length_fmap. Qed.

Lemma fillSum_profile (l : list Slot) acc :
  foldl (fun sum it =>
           Double.add sum (Double.div (Double.of_Z (quantity_or_1 it))
                                      (Double.of_Z (stackLimit it))))
        acc l
  = foldl (fun sum (p : Z * Z) =>
             Double.add sum
               (Double.div (Double.of_Z p.1)
                  (Double.of_Z (Z.min 64 (if p.2 =? 0 then 64 else p.2)))))
          acc ((fun it => (quantity_or_1 it, stack_size (item it))) <$> l).
Proof. revert acc. induction l as [|a l IH]; intros acc; simpl; [done|]. apply IH. Qed.

Lemma calculateSignalStrength_profile s s' :
  profile s = profile s' -> calculateSignalStrength s = calculateSignalStrength s'.
Proof.
  intros H. unfold calculateSignalStrength, fillSum.
  rewrite <- !length_profile, !fillSum_profile. fold (profile s) (profile s').
  by rewrite H.
Qed.

Lemma fill64_profile (l : list Slot) :
  fill64 l
  = foldr (fun (p : Z * Z) acc =>
             p.1 * (64 / Z.min 64 (if p.2 =? 0 then 64 else p.2)) + acc) 0
          ((fun it => (quantity_or_1 it, stack_size (item it))) <$> l).
Proof. induction l as [|a l IH]; simpl; [done|]. f_equal. apply IH. Qed.

Lemma exactSignalStrength_profile s s' :
  profile s = profile s' -> exactSignalStrength s = exactSignalStrength s'.
Proof.
  intros H. unfold exactSignalStrength.
  rewrite <- !length_profile, !fill64_profile. fold (profile s) (profile s').
  by rewrite H.
Qed.

Lemma profile_perm s s' :
  occupied s ≡ₚ occupied s' -> profile s ≡ₚ profile s'.
Proof. unfold profile. by intros ->. Qed.

(** ** Index lists *)

Lemma elem_of_indicesWhere (p : Slot -> bool) (s : Container) i :
  i ∈ indicesWhere p s <-> exists it, s !! i = Some (Some it) /\ p it = true.
Proof.
  unfold indicesWhere. rewrite list_elem_of_omap. split.
  - intros ([j o] & Hin & Hp). apply elem_of_lookup_imap in Hin as (j' & o' & [= -> ->] & Hj).
    destruct o' as [it|]; [|done]. destruct (p it) eqn:E; [|done].
    injection Hp as ->. eauto.
  - intros (it & Hi & Hp). exists (i, Some it). split.
    + apply elem_of_lookup_imap. eauto.
    + simpl. by rewrite Hp.
Qed.

Lemma elem_of_fromOne (s : Container) i :
  i ∈ fromOne s <-> (1 <= i < length s)%nat.
Proof. unfold fromOne. rewrite elem_of_seq. lia. Qed.

Lemma Forall_fromOne (s : Container) : Forall (fun i => (1 <= i)%nat) (fromOne s).
Proof. apply Forall_forall. intros i Hi%elem_of_fromOne. lia. Qed.

Lemma elem_of_fromEnd (p : Slot -> bool) (s : Container) i :
  i ∈ fromEnd p s <->
  (1 <= i)%nat /\ exists it, s !! i = Some (Some it) /\ p it = true.
Proof.
  unfold fromEnd. rewrite elem_of_reverse, list_elem_of_filter.
  by rewrite elem_of_indicesWhere.
Qed.

(** An index list covers the slots from 1 on that are looked at. *)
Lemma noEmpty_fromOne (s : Container) :
  (forall i, i ∈ fromOne s -> s !! i <> Some None) -> noEmpty s.
Proof.
  intros H i Hi Hn. apply (H i); [|done]. apply elem_of_fromOne.
  split; [done|]. by eapply lookup_lt_Some.
Qed.

Lemma elem_of_forcedItems (s : Container) (idxs : list nat) it :
  it ∈ omap (slotAt s) idxs <-> exists i, i ∈ idxs /\ s !! i = Some (Some it).
Proof.
  rewrite list_elem_of_omap. split.
  - intros (i & Hi & Hs). apply slotAt_Some in Hs. eauto.
  - intros (i & Hi & Hs). apply slotAt_Some in Hs. eauto.
Qed.

(** A [reduce] that keeps one of its two arguments returns an element. *)
Lemma foldl_choice {A} (pick : A -> A -> A) (x : A) (l : list A) :
  (forall a b, pick a b = a \/ pick a b = b) ->
  foldl pick x l ∈ x :: l.
Proof.
  intros Hp. revert x. induction l as [|y l IH]; intros x; simpl; [left|].
  destruct (Hp x y) as [-> | ->].
  - specialize (IH x). apply elem_of_cons in IH as [->|?]; [left|].
    right. by right.
  - right. apply IH.
Qed.

Lemma pickUnstackable_choice a b :
  pickUnstackable a b = a \/ pickUnstackable a b = b.
Proof. unfold pickUnstackable. case_match; auto. Qed.

Lemma pickToDuplicate_choice a b :
  pickToDuplicate a b = a \/ pickToDuplicate a b = b.
Proof. unfold pickToDuplicate. case_match; auto. Qed.

Lemma existsb_elem_of {A} (f : A -> bool) (l : list A) :
  existsb f l = true <-> exists x, x ∈ l /\ f x = true.
Proof.
  rewrite existsb_exists. split; intros (x & Hx & Hf); exists x;
    (split; [by apply list_elem_of_In|done]).
Qed.

Lemma existsb_false_elem_of {A} (f : A -> bool) (l : list A) x :
  existsb f l = false -> x ∈ l -> f x = false.
Proof.
  intros He Hx. destruct (f x) eqn:E; [|done].
  assert (existsb f l = true) by (apply existsb_elem_of; eauto). congruence.
Qed.

(** ** The classification *)

Lemma set_forceAdjusted_fields v a :
  item (set_forceAdjusted v a) = item a /\
  quantity (set_forceAdjusted v a) = quantity a /\
  originalIndex (set_forceAdjusted v a) = originalIndex a.
Proof. done. Qed.

(** The classification changes the flag [forceAdjusted] of the normalised
    slots and nothing else. *)
Lemma classify_shape c :
  exists g : Slot -> Slot,
    (forall a, exists v, g a = set_forceAdjusted (Some v) a) /\
    classify c = mapSlots g (normalize c).
Proof.
  unfold classify.
  destruct (hasQuantityAdjustments (markAdjusted (normalize c))).
  - eexists. split; [|apply markAdjusted_mapSlots]. intros a. by eexists.
  - rewrite markAll_mapSlots, markAdjusted_mapSlots.
    exists (fun a => set_forceAdjusted (Some true) a). split; [by eexists|].
    unfold mapSlots. rewrite <- list_fmap_compose. apply list_fmap_ext.
    by intros _ [a|] _.
Qed.

Lemma normalizeSlot_filled i a : slotWellFormed a -> slotFilled (normalizeSlot i a).
Proof.
  intros Hw. destruct (slotWellFormed_scorable _ Hw) as [Hc Hq].
  split; [done|]. by exists (quantity_or_1 a).
Qed.

Lemma classify_lookup c i b :
  classify c !! i = Some (Some b) ->
  exists a v, c !! i = Some (Some a) /\
              b = set_forceAdjusted (Some v) (normalizeSlot i a).
Proof.
  destruct (classify_shape c) as (g & Hg & ->).
  intros (n & (a & Ha & ->)%normalize_Some & ->)%mapSlots_Some.
  destruct (Hg (normalizeSlot i a)) as (v & Hv). eauto.
Qed.

Lemma classify_None c i : classify c !! i = Some None <-> c !! i = Some None.
Proof.
  destruct (classify_shape c) as (g & Hg & ->).
  by rewrite mapSlots_None, normalize_None.
Qed.

Lemma classify_length c : length (classify c) = length c.
Proof.
  destruct (classify_shape c) as (g & Hg & ->).
  by rewrite mapSlots_length, normalize_length.
Qed.

Lemma classify_filled c : wellFormed c -> filled (classify c).
Proof.
  intros (Hlen & H0 & Hall). split_and!.
  - by rewrite classify_length.
  - by apply classify_None.
  - apply Forall_forall. intros b (i & Hi)%elem_of_occupied.
    apply classify_lookup in Hi as (a & v & Ha & ->).
    apply (normalizeSlot_filled i), (Forall_occupied_lookup _ _ _ _ Hall Ha).
Qed.

Lemma classify_allIndexed c : allIndexed (classify c).
Proof.
  apply Forall_forall. intros b (i & Hi)%elem_of_occupied.
  apply classify_lookup in Hi as (a & v & Ha & ->). by eexists.
Qed.

Lemma classify_countId c k : countId k (classify c) = countId k c.
Proof.
  destruct (classify_shape c) as (g & Hg & ->).
  rewrite countId_mapSlots, countId_normalize; [done|].
  intros a. by destruct (Hg a) as (v & ->).
Qed.

Lemma classify_profile c : profile (classify c) = profile c.
Proof.
  destruct (classify_shape c) as (g & Hg & ->).
  rewrite profile_mapSlots, profile_normalize; [done|..];
    intros a; by destruct (Hg a) as (v & ->).
Qed.

Lemma hasQuantityAdjustments_markAdjusted s :
  hasQuantityAdjustments (markAdjusted s) = hasQuantityAdjustments s.
Proof.
  unfold hasQuantityAdjustments.
  rewrite markAdjusted_mapSlots, occupied_mapSlots.
  induction (occupied s) as [|a l IH]; [done|].
  rewrite fmap_cons. simpl. by rewrite IH.
Qed.

(** In the fallback every slot is a candidate and holds quantity 1. *)
Lemma classify_fallback c :
  wellFormed c ->
  hasQuantityAdjustments (markAdjusted (normalize c)) = false ->
  allForced (classify c) /\
  Forall (fun it => quantity it = Some 1) (occupied (classify c)).
Proof.
  intros Hwf Hq. pose proof (classify_filled c Hwf) as (_ & _ & Hfil).
  unfold classify in *. rewrite Hq in *.
  set (m := markAdjusted (normalize c)) in *.
  change (markAll m) with (mapSlots (set_forceAdjusted (Some true)) m) in *.
  unfold allForced. rewrite occupied_mapSlots in *. split.
  - apply Forall_fmap, Forall_forall. by intros a _.
  - apply Forall_fmap, Forall_forall. intros a Ha. simpl.
    rewrite Forall_fmap, Forall_forall in Hfil.
    destruct (Hfil a Ha) as [_ (q & Hqa & Hr)]. simpl in Hqa, Hr.
    unfold hasQuantityAdjustments in Hq.
    pose proof (existsb_false_elem_of _ _ a Hq Ha) as Hgt.
    unfold quantity_gt in Hgt. rewrite Hqa in Hgt.
    apply Z.ltb_ge in Hgt. rewrite Hqa. f_equal. lia.
Qed.

(** ** The strategies *)

Section StrategyFacts.
Context (score : Container -> Z) (cur : Z).

Lemma hasStackSize_true n (l : list Slot) :
  hasStackSize n l = true <-> exists it, it ∈ l /\ stack_size (item it) = n.
Proof.
  unfold hasStackSize. rewrite existsb_elem_of.
  split; intros (it & Hit & Hs); exists it; (split; [done|]); lia.
Qed.

Lemma strategy1_spec hasQ (forcedItems : list Slot) s s1 fU :
  strategy1 score (hasStackSize 1 forcedItems) hasQ forcedItems cur s = (s1, fU) ->
  filled s ->
  (forall it, it ∈ forcedItems -> it ∈ occupied s) ->
  rtc (move score cur) s s1 /\
  (forall i a, s !! i = Some (Some a) -> s1 !! i = Some (Some a)) /\
  (forall i b, s !! i = Some None -> s1 !! i = Some (Some b) ->
               quantity b = Some 1 /\ stack_size (item b) = 1) /\
  (fU = true ->
   hasQ = false /\
   exists i target,
     (1 <= i)%nat /\ s1 !! i = Some None /\ stack_size (item target) = 1 /\
     rises score cur (<[i := Some (duplicateUnstackable target)]> s1) = true) /\
  (fU = false -> hasStackSize 1 forcedItems = true -> hasQ = false ->
   noEmpty s1).
Proof.
  intros Hrun Hfil Hsub. unfold strategy1 in Hrun.
  assert (forall i b, s !! i = Some None -> s !! i = Some (Some b) ->
                      quantity b = Some 1 /\ stack_size (item b) = 1) as Hsame
    by (intros; congruence).
  destruct (hasStackSize 1 forcedItems) eqn:HU; simpl in Hrun;
    [|by simplify_eq].
  destruct hasQ; simpl in Hrun; [by simplify_eq|].
  apply hasStackSize_true in HU as (u & Hu & Hus).
  destruct (filter (fun it => stack_size (item it) = 1) forcedItems)
    as [|first rest] eqn:Hfilter.
  { assert (u ∈ filter (fun it => stack_size (item it) = 1) forcedItems)
      as Hin by (by apply list_elem_of_filter).
    rewrite Hfilter in Hin. by apply elem_of_nil in Hin. }
  set (target := foldl pickUnstackable first (first :: rest)) in *.
  assert (target ∈ first :: rest) as Ht.
  { pose proof (foldl_choice pickUnstackable first (first :: rest)
                  pickUnstackable_choice) as H.
    fold target in H. by apply elem_of_cons in H as [->|H]; [left|]. }
  rewrite <- Hfilter in Ht. apply list_elem_of_filter in Ht as [Hts Htin].
  eapply fillUnstackables_spec in Hrun as (Hm & Hold & Hnew & Htrue & Hfalse).
  - split_and!; [done|done| | |].
    + intros i b Hi Hb. by rewrite (Hnew i b Hi Hb).
    + intros Hf. split; [done|].
      destruct (Htrue Hf) as (i & ? & ? & ?). exists i, target. by split_and!.
    + intros Hf _ _. apply noEmpty_fromOne. intros i Hi.
      apply Hfalse; [done|]. apply elem_of_fromOne.
      apply elem_of_fromOne in Hi.
      by rewrite (grows_length _ _ (moves_grows _ _ _ _ Hm)).
  - done.
  - apply Forall_fromOne.
  - apply list_elem_of_fmap. exists target. split; [done|]. by apply Hsub.
Qed.

(** Strategies 2 and 3: the increments of the candidates of stack size
    [L] from the end. *)
Lemma incrementClass_spec L s s' f :
  incrementAll score (fun _ => L) cur
    (fromEnd (fun it => isForced it && (stack_size (item it) =? L)) s) s
  = (s', f) ->
  filled s ->
  rtc (move score cur) s s' /\
  skeleton s' = skeleton s /\
  (f = true ->
   exists i it q,
     s' !! i = Some (Some it) /\ isForced it = true /\
     stack_size (item it) = L /\ quantity it = Some q /\ q < L /\
     rises score cur (<[i := Some (incrementQuantity it)]> s') = true) /\
  (f = false ->
   forall i it q,
     s' !! i = Some (Some it) -> isForced it = true ->
     stack_size (item it) = L -> quantity it = Some q -> L <= q).
Proof.
  intros Hrun Hfil.
  eapply incrementAll_spec in Hrun as (Hm & Hsk & _ & Htrue & Hfalse);
    [|done|done|].
  - split_and!; [done..| |].
    + intros Hf. destruct (Htrue Hf) as (i & it & q & Hi & Hs & Hq & Hlt & Hr).
      apply slotAt_Some in Hs. exists i, it, q.
      apply elem_of_fromEnd in Hi as (_ & a & Ha & Hp).
      destruct (skeleton_eq_lookup _ _ _ _ (eq_sym Hsk) Ha) as (b & Hb & He).
      rewrite Hs in Hb. injection Hb as <-.
      apply andb_true_iff in Hp as [Hp1 Hp2]. apply Z.eqb_eq in Hp2.
      rewrite <- (erase_isForced _ _ He), <- (erase_item _ _ He).
      by split_and!.
    + intros Hf i it q Hi Hforced Hst Hq.
      assert (i <> 0%nat) as Hi0.
      { intros ->. destruct Hfil as (_ & H0 & _).
        destruct (skeleton_eq_lookup _ _ _ _ Hsk Hi) as (b & Hb & _).
        congruence. }
      eapply (Hfalse Hf i it q); [|by apply slotAt_Some|done].
      destruct (skeleton_eq_lookup _ _ _ _ Hsk Hi) as (a & Ha & He).
      apply elem_of_fromEnd. split; [lia|]. exists a. split; [done|].
      rewrite <- (erase_isForced _ _ He), <- (erase_item _ _ He), Hforced.
      simpl. by apply Z.eqb_eq.
  - intros i it Hi Hs. apply slotAt_Some in Hs.
    apply elem_of_fromEnd in Hi as (_ & a & Ha & Hp).
    rewrite Hs in Ha. injection Ha as <-.
    apply andb_true_iff in Hp as [Hp1 Hp2]. apply Z.eqb_eq in Hp2.
    split; [done|lia].
Qed.

Lemma strategy2_spec has s s' f :
  strategy2 score has cur s = (s', f) ->
  filled s ->
  rtc (move score cur) s s' /\
  skeleton s' = skeleton s /\
  (f = true ->
   exists i it q,
     s' !! i = Some (Some it) /\ isForced it = true /\
     stack_size (item it) = 16 /\ quantity it = Some q /\ q < 16 /\
     rises score cur (<[i := Some (incrementQuantity it)]> s') = true) /\
  (f = false -> has = true ->
   forall i it q,
     s' !! i = Some (Some it) -> isForced it = true ->
     stack_size (item it) = 16 -> quantity it = Some q -> 16 <= q).
Proof.
  unfold strategy2. destruct has.
  - intros Hrun Hfil.
    destruct (incrementClass_spec _ _ _ _ Hrun Hfil) as (? & ? & ? & Hno).
    split_and!; [done..|]. intros Hf _. by apply Hno.
  - intros [= <- <-] _. split_and!; done.
Qed.

Lemma strategy3_spec has s s' f :
  strategy3 score has cur s = (s', f) ->
  filled s ->
  rtc (move score cur) s s' /\
  skeleton s' = skeleton s /\
  (f = true ->
   exists i it q,
     s' !! i = Some (Some it) /\ isForced it = true /\
     stack_size (item it) = 64 /\ quantity it = Some q /\ q < 64 /\
     rises score cur (<[i := Some (incrementQuantity it)]> s') = true) /\
  (f = false -> has = true ->
   forall i it q,
     s' !! i = Some (Some it) -> isForced it = true ->
     stack_size (item it) = 64 -> quantity it = Some q -> 64 <= q).
Proof.
  unfold strategy3. destruct has.
  - intros Hrun Hfil.
    destruct (incrementClass_spec _ _ _ _ Hrun Hfil) as (? & ? & ? & Hno).
    split_and!; [done..|]. intros Hf _. by apply Hno.
  - intros [= <- <-] _. split_and!; done.
Qed.

Lemma chooseItemToDuplicate_elem (l : list Slot) src :
  chooseItemToDuplicate l = Ok src -> src ∈ l.
Proof.
  destruct l as [|first others]; [done|]. intros [= <-].
  apply foldl_choice, pickToDuplicate_choice.
Qed.

Lemma belowLimit_true it :
  belowLimit it = true <->
  isForced it = true /\ exists q, quantity it = Some q /\ q < stack_size (item it).
Proof.
  unfold belowLimit, quantity_lt. rewrite andb_true_iff.
  destruct (quantity it) as [q|].
  - rewrite Z.ltb_lt. split.
    + intros [? ?]. eauto.
    + intros [? (q' & [= <-] & ?)]. done.
  - split; [by intros [_ ?]|]. by intros [_ (q & ? & _)].
Qed.

Lemma allMaxed_true (s : Container) it :
  allMaxed s = true -> filled s -> it ∈ occupied s -> isForced it = true ->
  quantity it = Some (stack_size (item it)).
Proof.
  intros Hmax (_ & _ & Hall) Hin Hf. unfold allMaxed in Hmax.
  apply negb_true_iff in Hmax.
  pose proof (existsb_false_elem_of _ _ _ Hmax Hin) as Hb.
  rewrite Forall_forall in Hall. destruct (Hall _ Hin) as [_ (q & Hq & Hr)].
  destruct (decide (q < stack_size (item it))) as [Hlt|Hge].
  - assert (belowLimit it = true) as Ht; [|congruence].
    apply belowLimit_true. eauto.
  - rewrite Hq. f_equal. lia.
Qed.

(** Strategy 4 either leaves the array as it is, or writes accepted
    duplicates of one occupied slot into every empty slot, or ends with
    the duplicate that raised the signal, kept at quantity 1. *)
Lemma strategy4_spec run (forced : list nat) s :
  filled s ->
  (run = true -> allForced s) ->
  (run = true -> exists i it, i ∈ forced /\ s !! i = Some (Some it)) ->
  exists s4,
    strategy4 score run forced cur s = Ok s4 /\
    ((run && allMaxed s = false /\ s4 = s) \/
     (run = true /\ allMaxed s = true /\
      exists src,
        chooseItemToDuplicate (omap (slotAt s) forced) = Ok src /\
        src ∈ occupied s /\
        quantity src = Some (stack_size (item src)) /\
        ((rtc (move score cur) s s4 /\ noEmpty s4) \/
         (exists s'', rtc (move score cur) s s'' /\
                      commit score cur src s'' s4)))).
Proof.
  intros Hfil Hallf Hforced. unfold strategy4.
  destruct run; [|exists s; split; [done|by left]].
  destruct (allMaxed s) eqn:Hmax; [|exists s; split; [done|by left]].
  destruct (Hforced eq_refl) as (i0 & it0 & Hi0 & Hit0).
  destruct (chooseItemToDuplicate (omap (slotAt s) forced)) as [src|e] eqn:Hsrc.
  2:{ unfold chooseItemToDuplicate in Hsrc.
      destruct (omap (slotAt s) forced) eqn:E; [|done].
      assert (it0 ∈ omap (slotAt s) forced) as Hin
        by (apply elem_of_forcedItems; eauto).
      rewrite E in Hin. by apply elem_of_nil in Hin. }
  eexists. split; [done|]. right. split_and!; [done..|].
  exists src. split; [done|].
  apply chooseItemToDuplicate_elem, elem_of_forcedItems in Hsrc
    as (i & _ & Hi).
  assert (src ∈ occupied s) as Hocc by (apply elem_of_occupied; eauto).
  split; [done|].
  assert (quantity src = Some (stack_size (item src))) as Hq.
  { apply (allMaxed_true s); [done..|].
    specialize (Hallf eq_refl). unfold allForced in Hallf.
    rewrite Forall_forall in Hallf. by apply Hallf. }
  split; [done|].
  destruct (fillStackables_spec score cur src (fromOne s) Hq (Forall_fromOne s)
              s _ eq_refl) as [[Hm Hne]|Hcommit].
  - apply list_elem_of_fmap. eauto.
  - left. split; [done|]. apply noEmpty_fromOne. intros j Hj.
    apply Hne. apply elem_of_fromOne. apply elem_of_fromOne in Hj.
    by rewrite (grows_length _ _ (moves_grows _ _ _ _ Hm)).
  - by right.
Qed.

Lemma strategy5_spec s :
  filled s ->
  exists f,
    incrementAll score (fun it => stack_size (item it)) cur
      (reverse (indicesWhere belowLimit s)) s
    = (strategy5 score cur s, f) /\
    rtc (move score cur) s (strategy5 score cur s) /\
    skeleton (strategy5 score cur s) = skeleton s /\
    (f = true ->
     exists i it q,
       strategy5 score cur s !! i = Some (Some it) /\ isForced it = true /\
       quantity it = Some q /\ q < stack_size (item it) /\
       rises score cur
         (<[i := Some (incrementQuantity it)]> (strategy5 score cur s)) = true) /\
    (f = false ->
     forall i it q,
       strategy5 score cur s !! i = Some (Some it) -> isForced it = true ->
       quantity it = Some q -> stack_size (item it) <= q).
Proof.
  intros Hfil. unfold strategy5.
  destruct (incrementAll score (fun it => stack_size (item it)) cur
              (reverse (indicesWhere belowLimit s)) s) as [s5 f] eqn:Hrun.
  exists f. split; [done|]. simpl.
  eapply incrementAll_spec in Hrun as (Hm & Hsk & _ & Htrue & Hfalse);
    [|by intros a b ->%erase_item|done|].
  - split_and!; [done..| |].
    + intros Hf. destruct (Htrue Hf) as (i & it & q & Hi & Hs & Hq & Hlt & Hr).
      apply slotAt_Some in Hs. exists i, it, q.
      apply elem_of_reverse, elem_of_indicesWhere in Hi as (a & Ha & Hp).
      destruct (skeleton_eq_lookup _ _ _ _ (eq_sym Hsk) Ha) as (b & Hb & He).
      rewrite Hs in Hb. injection Hb as <-.
      apply belowLimit_true in Hp as [Hp _].
      rewrite <- (erase_isForced _ _ He). by split_and!.
    + intros Hf i it q Hi Hforced Hq.
      destruct (skeleton_eq_lookup _ _ _ _ Hsk Hi) as (a & Ha & He).
      destruct (belowLimit a) eqn:Hbelow.
      * eapply (Hfalse Hf i it q); [|by apply slotAt_Some|done].
        apply elem_of_reverse, elem_of_indicesWhere. eauto.
      * destruct (Forall_occupied_lookup _ _ _ _ (proj2 (proj2 Hfil)) Ha)
          as [_ (qa & Hqa & Hra)].
        assert (stack_size (item a) <= qa) as Hmaxed.
        { destruct (decide (qa < stack_size (item a))) as [Hlt|]; [|lia].
          assert (belowLimit a = true) as Hb; [|congruence].
          apply belowLimit_true.
          rewrite (erase_isForced _ _ (eq_sym He)). eauto. }
        destruct (grows_lookup _ _ _ _ (moves_grows _ _ _ _ Hm) Ha)
          as (b & Hb & _ & Hle).
        rewrite Hi in Hb. injection Hb as <-.
        pose proof (moves_filled _ _ _ _ Hm Hfil) as Hfil5.
        destruct (Forall_occupied_lookup _ _ _ _ (proj2 (proj2 Hfil5)) Hi)
          as [_ (q' & Hq' & Hr')].
        rewrite Hq in Hq'. injection Hq' as <-.
        rewrite (quantity_or_1_Some a qa), (quantity_or_1_Some it q) in Hle
          by (done || lia).
        rewrite <- (erase_item _ _ (eq_sym He)). lia.
  - intros i it Hi Hs. apply slotAt_Some in Hs.
    apply elem_of_reverse, elem_of_indicesWhere in Hi as (a & Ha & Hp).
    rewrite Hs in Ha. injection Ha as <-.
    apply belowLimit_true in Hp as [Hp _]. split; [done|lia].
Qed.
End StrategyFacts.

(** ** From the classification to the layout *)

Lemma forallb_empty (c : Container) :
  forallb (fun x : option Slot => match x with None => true | Some _ => false end) c
  = true <-> occupied c = [].
Proof.
  induction c as [|[a|] c IH]; simpl; [done| |].
  - by rewrite occupied_cons_Some.
  - by rewrite occupied_cons_None.
Qed.

Lemma optimize_empty score (c : Container) :
  occupied c = [] -> optimize score c = Ok c.
Proof. intros H. unfold optimize. by rewrite (proj2 (forallb_empty c) H). Qed.

Section Trace.
Context (score : Container -> Z).

Lemma commit_allIndexed cur src s s' :
  commit score cur src s s' -> allIndexed s -> allIndexed s'.
Proof.
  destruct 1 as [s i _ Hi _]. intros Hall.
  eapply Forall_occupied_insert; [done..|]. intros ? [= <-]. by eexists.
Qed.

Lemma optimize_trace c :
  wellFormed c -> occupied c <> [] ->
  exists s1 fU s2 f16 s3 f64 s4,
    let cur := score (normalize c) in
    let hasQ := hasQuantityAdjustments (markAdjusted (normalize c)) in
    let s0 := classify c in
    let forced := indicesWhere isForced s0 in
    let forcedItems := omap (slotAt s0) forced in
    strategy1 score (hasStackSize 1 forcedItems) hasQ forcedItems cur s0
    = (s1, fU) /\
    strategy2 score (hasStackSize 16 forcedItems) cur s1 = (s2, f16) /\
    strategy3 score (hasStackSize 64 forcedItems) cur s2 = (s3, f64) /\
    strategy4 score
      (gapFillingGuard hasQ (hasStackSize 1 forcedItems)
         (hasStackSize 16 forcedItems) (hasStackSize 64 forcedItems)
         fU f16 f64)
      forced cur s3 = Ok s4 /\
    optimize score c = layout (markAdjusted (strategy5 score cur s4)) /\
    filled s1 /\ filled s2 /\ filled s3 /\ filled s4 /\
    (gapFillingGuard hasQ (hasStackSize 1 forcedItems)
       (hasStackSize 16 forcedItems) (hasStackSize 64 forcedItems)
       fU f16 f64 = true ->
     allForced s3 /\ exists i it, i ∈ forced /\ s3 !! i = Some (Some it)).
Proof.
  intros Hwf Hne.
  set (cur := score (normalize c)).
  set (hasQ := hasQuantityAdjustments (markAdjusted (normalize c))).
  set (s0 := classify c).
  set (forced := indicesWhere isForced s0).
  set (forcedItems := omap (slotAt s0) forced).
  pose proof (classify_filled c Hwf) as Hfil0. fold s0 in Hfil0.
  destruct (strategy1 score (hasStackSize 1 forcedItems) hasQ forcedItems cur s0)
    as [s1 fU] eqn:E1.
  destruct (strategy2 score (hasStackSize 16 forcedItems) cur s1)
    as [s2 f16] eqn:E2.
  destruct (strategy3 score (hasStackSize 64 forcedItems) cur s2)
    as [s3 f64] eqn:E3.
  assert (forall it, it ∈ forcedItems -> it ∈ occupied s0) as Hsub.
  { intros it (i & _ & Hi)%elem_of_forcedItems. apply elem_of_occupied. eauto. }
  destruct (strategy1_spec _ _ _ _ _ _ _ E1 Hfil0 Hsub) as (Hm1 & _).
  pose proof (moves_filled _ _ _ _ Hm1 Hfil0) as Hfil1.
  destruct (strategy2_spec _ _ _ _ _ _ E2 Hfil1) as (Hm2 & _ & _ & _).
  pose proof (moves_filled _ _ _ _ Hm2 Hfil1) as Hfil2.
  destruct (strategy3_spec _ _ _ _ _ _ E3 Hfil2) as (Hm3 & _ & _ & _).
  pose proof (moves_filled _ _ _ _ Hm3 Hfil2) as Hfil3.
  set (run := gapFillingGuard hasQ (hasStackSize 1 forcedItems)
                (hasStackSize 16 forcedItems) (hasStackSize 64 forcedItems)
                fU f16 f64).
  assert (rtc (move score cur) s0 s3) as Hm03
    by (etrans; [done|]; by etrans).
  assert (run = true -> allForced s3) as Hallf4.
  { intros Hrun. unfold run, gapFillingGuard in Hrun.
    apply andb_true_iff in Hrun as [HQ _]. apply negb_true_iff in HQ.
    destruct (classify_fallback c Hwf HQ) as [Hforced _]. fold s0 in Hforced.
    exact (moves_allForced _ _ _ _ Hm03 Hforced). }
  assert (run = true -> exists i it, i ∈ forced /\ s3 !! i = Some (Some it))
    as Hforced4.
  { intros Hrun. unfold run, gapFillingGuard in Hrun.
    apply andb_true_iff in Hrun as [HQ _]. apply negb_true_iff in HQ.
    destruct (classify_fallback c Hwf HQ) as [Hforced _]. fold s0 in Hforced.
    destruct (occupied s0) as [|a l] eqn:Hocc.
    { exfalso. apply Hne.
      assert (countId_all : length (occupied s0) = length (occupied c)).
      { unfold s0. rewrite <- !length_profile. by rewrite classify_profile. }
      rewrite Hocc in countId_all. by destruct (occupied c). }
    assert (a ∈ occupied s0) as Ha by (rewrite Hocc; left).
    apply elem_of_occupied in Ha as (i & Hi).
    pose proof (moves_grows _ _ _ _ Hm03) as Hg.
    destruct (grows_lookup _ _ _ _ Hg Hi) as (b & Hb & _).
    exists i, b. split; [|done]. apply elem_of_indicesWhere.
    exists a. split; [done|].
    apply (Forall_occupied_lookup _ _ _ _ Hforced Hi). }
  destruct (strategy4_spec score cur run forced s3 Hfil3 Hallf4 Hforced4)
    as (s4 & E4 & Hcase).
  exists s1, fU, s2, f16, s3, f64, s4. cbv zeta.
  fold cur hasQ s0 forced forcedItems run.
  split_and!; try done.
  - unfold optimize.
    destruct (forallb _ c) eqn:Hall; [by apply forallb_empty in Hall|].
    fold cur hasQ s0 forced forcedItems. rewrite E1, E2, E3.
    fold run. by rewrite E4.
  - destruct Hcase
      as [[_ ->]|(_ & _ & src & _ & Hsrc & _ & [[Hm _]|(s'' & Hm & Hc)])];
      [done|by eapply moves_filled|].
    eapply commit_filled; [done| |by eapply moves_filled].
    pose proof Hfil3 as (_ & _ & Hall3). rewrite Forall_forall in Hall3.
    apply (Hall3 _ Hsrc).
  - intros Hrun. split; [by apply Hallf4|by apply Hforced4].
Qed.
End Trace.

(** ** The final sort and the layout *)

Lemma insertSorted_perm a l : insertSorted a l ≡ₚ a :: l.
Proof.
  induction l as [|b l IH]; simpl; [done|].
  destruct (sortsBefore a b); [done|]. rewrite IH. apply Permutation_swap.
Qed.

Lemma sortAdjusted_perm l : sortAdjusted l ≡ₚ l.
Proof.
  induction l as [|a l IH]; simpl; [done|].
  by rewrite insertSorted_perm, IH.
Qed.

Lemma sortsBefore_total a b : sortsBefore a b = false -> sortsBefore b a = true.
Proof.
  unfold sortsBefore.
  destruct (Z.eqb_spec (stack_size (item a)) (stack_size (item b))) as [->|Hne].
  - rewrite Z.eqb_refl. intros H%Z.leb_gt. apply Z.leb_le. lia.
  - destruct (Z.eqb_spec (stack_size (item b)) (stack_size (item a))); [congruence|].
    intros H%Z.ltb_ge. apply Z.ltb_lt. lia.
Qed.

Lemma sortsBefore_trans a b c :
  sortsBefore a b = true -> sortsBefore b c = true -> sortsBefore a c = true.
Proof.
  unfold sortsBefore.
  destruct (Z.eqb_spec (stack_size (item a)) (stack_size (item b))),
           (Z.eqb_spec (stack_size (item b)) (stack_size (item c))),
           (Z.eqb_spec (stack_size (item a)) (stack_size (item c)));
    rewrite ?Z.leb_le, ?Z.ltb_lt; lia.
Qed.

Lemma insertSorted_sorted a l : sortedGroup l -> sortedGroup (insertSorted a l).
Proof.
  unfold sortedGroup. induction 1 as [|b l Hs IH Hb]; simpl.
  - repeat constructor.
  - destruct (sortsBefore a b) eqn:E.
    + constructor; [by constructor|]. constructor; [done|].
      eapply Forall_impl; [done|]. intros c Hc. by eapply sortsBefore_trans.
    + constructor; [done|]. rewrite insertSorted_perm.
      constructor; [by apply sortsBefore_total|done].
Qed.

Lemma sortAdjusted_sorted l : sortedGroup (sortAdjusted l).
Proof.
  induction l as [|a l IH]; simpl; [constructor|]. by apply insertSorted_sorted.
Qed.

(** The stable sort leaves a sorted list as it is. *)
Lemma sortAdjusted_id l : sortedGroup l -> sortAdjusted l = l.
Proof.
  unfold sortedGroup. induction 1 as [|a l Hs IH Ha]; simpl; [done|].
  rewrite IH. destruct l as [|b l]; [done|]. simpl.
  apply Forall_cons in Ha as [-> _]. done.
Qed.

Lemma layout_unfold f :
  layout f =
  let nullsNeeded :=
    53 - Z.of_nat (length (unadjustedGroup f)) - Z.of_nat (length (adjustedGroup f)) in
  if nullsNeeded <? 0 then Throw RangeError
  else Ok (None :: (Some <$> unadjustedGroup f)
                ++ replicate (Z.to_nat nullsNeeded) None
                ++ (Some <$> adjustedGroup f)).
Proof. reflexivity. Qed.

Lemma groups_perm f : unadjustedGroup f ++ adjustedGroup f ≡ₚ finalSlots f.
Proof.
  unfold unadjustedGroup, adjustedGroup. rewrite sortAdjusted_perm.
  rewrite Permutation_app_comm.
  rewrite <- (filter_app_complement (fun it => isForced it = true) (finalSlots f)) at 3.
  f_equiv. apply reflexive_eq, list_filter_iff. intros it.
  destruct (isForced it); naive_solver.
Qed.

Lemma length_finalSlots f : length (finalSlots f) = length (occupied f).
Proof. unfold finalSlots. apply length_fmap. Qed.

Lemma groups_length f :
  (length (unadjustedGroup f) + length (adjustedGroup f))%nat = length (occupied f).
Proof. by rewrite <- length_app, groups_perm, length_finalSlots. Qed.

Lemma layout_Ok f :
  (length (occupied f) <= 53)%nat ->
  layout f = Ok (None :: (Some <$> unadjustedGroup f)
                     ++ replicate (padding f) None
                     ++ (Some <$> adjustedGroup f)).
Proof.
  intros Hlen. rewrite layout_unfold. cbv zeta.
  pose proof (groups_length f) as Hg.
  destruct (Z.ltb_spec (53 - Z.of_nat (length (unadjustedGroup f))
                        - Z.of_nat (length (adjustedGroup f))) 0); [lia|].
  by replace (Z.to_nat (53 - Z.of_nat (length (unadjustedGroup f))
                        - Z.of_nat (length (adjustedGroup f))))
    with (padding f) by (unfold padding; lia).
Qed.

Lemma occupied_layout (u a : list Slot) n :
  occupied (None :: (Some <$> u) ++ replicate n None ++ (Some <$> a)) = u ++ a.
Proof.
  rewrite occupied_cons_None, !occupied_app, !occupied_Some.
  by rewrite occupied_replicate_None.
Qed.

Lemma length_layout (u a : list Slot) n :
  length (None :: (Some <$> u) ++ replicate n None ++ (Some <$> a))
  = S (length u + n + length a).
Proof. simpl. rewrite !length_app, !length_fmap, length_replicate. lia. Qed.

(** The occupied slots of the laid-out container are those of the marked
    array, with [isAdjusted] set, in another order. *)
Lemma occupied_layout_perm f o :
  layout f = Ok o -> occupied o ≡ₚ finalSlots f.
Proof.
  rewrite layout_unfold. cbv zeta. case_match; [done|]. intros [= <-].
  by rewrite occupied_layout, groups_perm.
Qed.

Lemma finalSlots_markAdjusted s :
  finalSlots (markAdjusted s)
  = (fun it => set_isAdjusted (Some (adjustedIn s it))
                 (set_forceAdjusted (Some (adjustedIn s it)) it)) <$> occupied s.
Proof.
  unfold finalSlots. rewrite markAdjusted_mapSlots, occupied_mapSlots.
  rewrite <- list_fmap_compose. by apply list_fmap_ext.
Qed.

Lemma length_filter_perm {A} (P : A -> Prop) `{!forall x, Decision (P x)} (l k : list A) :
  l ≡ₚ k -> length (filter P l) = length (filter P k).
Proof. by intros ->. Qed.

Lemma countId_layout s o k :
  layout (markAdjusted s) = Ok o -> countId k o = countId k s.
Proof.
  intros H%occupied_layout_perm. unfold countId.
  rewrite (length_filter_perm _ _ _ H), finalSlots_markAdjusted.
  induction (occupied s) as [|a l IH]; [done|].
  rewrite fmap_cons, !filter_cons. simpl.
  destruct (decide (id (item a) = k)); simpl; by rewrite IH.
Qed.

Lemma profile_layout s o :
  layout (markAdjusted s) = Ok o -> profile o ≡ₚ profile s.
Proof.
  intros H%occupied_layout_perm. unfold profile.
  rewrite H, finalSlots_markAdjusted, <- list_fmap_compose.
  apply reflexive_eq, list_fmap_ext. by intros _ a _.
Qed.

(** ** Slots written into empty places *)

Lemma countId_insert_new (s : Container) i d k :
  s !! i = Some None ->
  countId k (<[i := Some d]> s)
  = (countId k s + if decide (id (item d) = k) then 1 else 0)%nat.
Proof.
  intros Hi. unfold countId.
  rewrite (occupied_insert _ _ _ _ Hi), (occupied_split _ _ _ Hi).
  simpl. rewrite !filter_app, filter_cons, !length_app.
  destruct (decide (id (item d) = k)); simpl; lia.
Qed.

Lemma countId_pos (s : Container) x :
  x ∈ item <$> occupied s -> (1 <= countId (id x) s)%nat.
Proof.
  intros (a & -> & Ha)%list_elem_of_fmap. unfold countId.
  assert (a ∈ filter (fun it => id (item it) = id (item a)) (occupied s)) as Hin
    by (by apply list_elem_of_filter).
  destruct (filter _ (occupied s)); [by apply elem_of_nil in Hin|simpl; lia].
Qed.

Lemma twinned_insert s0 (s : Container) i o :
  grows s (<[i := o]> s) ->
  (forall b, o = Some b -> s0 !! i = Some None ->
             (2 <= countId (id (item b)) (<[i := o]> s))%nat) ->
  (forall a b, s !! i = Some (Some a) -> o = Some b -> item a = item b) ->
  newcomersTwinned s0 s -> newcomersTwinned s0 (<[i := o]> s).
Proof.
  intros Hg Hnew Hold Htw j b Hj0 Hj.
  destruct (decide (i = j)) as [<-|Hne].
  - assert (i < length s)%nat as Hlt.
    { rewrite <- (length_insert s i o). by eapply lookup_lt_Some. }
    rewrite list_lookup_insert_eq in Hj by done. injection Hj as ->.
    by apply Hnew.
  - rewrite list_lookup_insert_ne in Hj by done.
    etrans; [by apply (Htw j b)|]. by apply grows_countId.
Qed.

Section Final.
Context (score : Container -> Z).

Lemma move_twinned cur s0 s s' :
  move score cur s s' -> newcomersTwinned s0 s -> newcomersTwinned s0 s'.
Proof.
  intros Hm Htw. pose proof (move_grows _ _ _ _ Hm) as Hg.
  destruct Hm as [s i it q Hi _ _ _ _|s i d _ Hi Hd _ _ _ _].
  - apply slotAt_Some in Hi. apply twinned_insert; [done| |naive_solver|done].
    intros b [= <-] H0. etrans; [by apply (Htw i it)|].
    by apply (grows_countId _ _ _ Hg).
  - apply twinned_insert; [done| |congruence|done].
    intros b [= <-] _. rewrite countId_insert_new by done.
    rewrite decide_True by done. pose proof (countId_pos _ _ Hd). lia.
Qed.

Lemma moves_twinned cur s0 s s' :
  rtc (move score cur) s s' -> newcomersTwinned s0 s -> newcomersTwinned s0 s'.
Proof. induction 1; eauto using move_twinned. Qed.

Lemma commit_twinned cur src s0 s s' :
  commit score cur src s s' -> item src ∈ item <$> occupied s ->
  newcomersTwinned s0 s -> newcomersTwinned s0 s'.
Proof.
  intros Hc Hsrc Htw. pose proof (commit_grows _ _ _ _ _ Hc) as Hg.
  destruct Hc as [s i _ Hi _].
  apply twinned_insert; [done| |congruence|done].
  intros b [= <-] _. rewrite countId_insert_new by done. simpl.
  rewrite decide_True by done. pose proof (countId_pos _ _ Hsrc). lia.
Qed.

Lemma twinned_start s0 : newcomersTwinned s0 s0.
Proof. intros i b H0 H1. congruence. Qed.

(** The array that reaches the layout. *)
Lemma optimize_final c :
  wellFormed c -> occupied c <> [] ->
  exists s5,
    optimize score c = layout (markAdjusted s5) /\
    filled s5 /\ grows (classify c) s5 /\ allIndexed s5 /\
    newcomersTwinned (classify c) s5.
Proof.
  intros Hwf Hne.
  destruct (optimize_trace score c Hwf Hne)
    as (s1 & fU & s2 & f16 & s3 & f64 & s4
        & E1 & E2 & E3 & E4 & Hopt & Hfil1 & Hfil2 & Hfil3 & Hfil4 & Hforced4).
  cbv zeta in *.
  set (cur := score (normalize c)) in *.
  set (s0 := classify c) in *.
  set (forced := indicesWhere isForced s0) in *.
  set (forcedItems := omap (slotAt s0) forced) in *.
  pose proof (classify_filled c Hwf) as Hfil0. fold s0 in Hfil0.
  assert (forall it, it ∈ forcedItems -> it ∈ occupied s0) as Hsub.
  { intros it (i & _ & Hi)%elem_of_forcedItems. apply elem_of_occupied. eauto. }
  destruct (strategy1_spec _ _ _ _ _ _ _ E1 Hfil0 Hsub) as (Hm1 & _).
  destruct (strategy2_spec _ _ _ _ _ _ E2 Hfil1) as (Hm2 & _ & _ & _).
  destruct (strategy3_spec _ _ _ _ _ _ E3 Hfil2) as (Hm3 & _ & _ & _).
  assert (rtc (move score cur) s0 s3) as Hm03
    by (etrans; [done|]; by etrans).
  destruct (strategy5_spec score cur s4 Hfil4) as (f5 & _ & Hm5 & _ & _ & _).
  exists (strategy5 score cur s4). split; [done|].
  assert (grows s0 s4 /\ allIndexed s4 /\ newcomersTwinned s0 s4)
    as (Hg4 & Hidx4 & Htw4).
  { pose proof (classify_allIndexed c) as Hidx0. fold s0 in Hidx0.
    destruct (strategy4_spec score cur _ forced s3 Hfil3
                (fun H => proj1 (Hforced4 H)) (fun H => proj2 (Hforced4 H)))
      as (s4' & E4' & Hcase).
    rewrite E4 in E4'. injection E4' as <-.
    destruct Hcase
      as [[_ ->]|(_ & _ & src & _ & Hsrc & _ & [[Hm _]|(s'' & Hm & Hc)])].
    - split_and!.
      + by eapply moves_grows.
      + by eapply moves_allIndexed.
      + eapply moves_twinned; [done|]. apply twinned_start.
    - assert (rtc (move score cur) s0 s4) as Hm04 by (by etrans).
      split_and!.
      + by eapply moves_grows.
      + by eapply moves_allIndexed.
      + eapply moves_twinned; [done|]. apply twinned_start.
    - assert (rtc (move score cur) s0 s'') as Hm04 by (by etrans).
      split_and!.
      + etrans; [by eapply moves_grows|]. by eapply commit_grows.
      + eapply commit_allIndexed; [done|]. by eapply moves_allIndexed.
      + eapply commit_twinned; [done| |].
        * apply (grows_items s3 s''); [by eapply moves_grows|].
          by apply list_elem_of_fmap_2.
        * eapply moves_twinned; [done|]. apply twinned_start. }
  split_and!.
  - by eapply moves_filled.
  - etrans; [done|]. by eapply moves_grows.
  - by eapply moves_allIndexed.
  - by eapply moves_twinned.
Qed.
End Final.

(** ** Results that hold for every scorer *)

Lemma slotFilled_flags it v w :
  slotFilled it -> slotFilled (set_isAdjusted v (set_forceAdjusted w it)).
Proof. done. Qed.

Lemma wellFormed_empty_filled c : wellFormed c -> occupied c = [] -> filled c.
Proof. intros (? & ? & _) He. split_and!; [done..|]. rewrite He. constructor. Qed.

Lemma filled_wellFormed c : filled c -> wellFormed c.
Proof.
  intros (? & ? & Hall). split_and!; [done..|].
  eapply Forall_impl; [done|]. apply slotFilled_wellFormed.
Qed.

Section Generic.
Context (score : Container -> Z).

Lemma layout_filled s5 :
  filled s5 ->
  exists o, layout (markAdjusted s5) = Ok o /\ filled o.
Proof.
  intros (Hlen & H0 & Hall).
  assert (length (occupied (markAdjusted s5)) <= 53)%nat as Hocc.
  { rewrite markAdjusted_mapSlots, occupied_mapSlots, length_fmap.
    pose proof (length_occupied_reserved s5 H0). lia. }
  eexists. split; [by apply layout_Ok|]. split_and!.
  - rewrite length_layout. unfold padding.
    pose proof (groups_length (markAdjusted s5)). lia.
  - done.
  - rewrite occupied_layout, groups_perm, finalSlots_markAdjusted.
    apply Forall_fmap. eapply Forall_impl; [done|].
    intros a Ha. by apply slotFilled_flags.
Qed.

Lemma optimize_filled c :
  wellFormed c -> exists o, optimize score c = Ok o /\ filled o.
Proof.
  intros Hwf. destruct (decide (occupied c = [])) as [He|Hne].
  - exists c. split; [by apply optimize_empty|by apply wellFormed_empty_filled].
  - destruct (optimize_final score c Hwf Hne) as (s5 & -> & Hfil & _).
    by apply layout_filled.
Qed.

Lemma optimize_countId c o k :
  wellFormed c -> optimize score c = Ok o -> (countId k c <= countId k o)%nat.
Proof.
  intros Hwf. destruct (decide (occupied c = [])) as [He|Hne].
  - rewrite optimize_empty by done. by intros [= <-].
  - destruct (optimize_final score c Hwf Hne) as (s5 & -> & _ & Hg & _).
    intros Ho. rewrite (countId_layout _ _ _ Ho), <- (classify_countId c k).
    by apply grows_countId.
Qed.
End Generic.

Ltac wellFormed_sample :=
  split_and!;
  [reflexivity | reflexivity
  | vm_compute occupied;
    repeat (constructor; [split; [unfold stackClass; simpl; lia | simpl; lia]|]);
    try constructor].

(** C5: the optimizer maps a well-formed container to a well-formed one:
    54 slots, the reserved slot 0 empty, and in every occupied slot a
    quantity that is a positive integer not exceeding the stack limit of
    its item. *)
Theorem optimizeForRedstone_wellFormed (c : Container) :
  wellFormed c ->
  exists o,
    optimizeForRedstone c = Ok o /\
    length o = 54%nat /\
    o !! 0%nat = Some None /\
    Forall (fun it => exists q,
                quantity it = Some q /\ 1 <= q <= stack_size (item it))
           (occupied o) /\
    wellFormed o.
Proof.
  intros Hwf.
  destruct (optimize_filled calculateSignalStrength c Hwf) as (o & Ho & Hfil).
  exists o. split; [done|].
  pose proof (filled_wellFormed o Hfil) as Hwf'.
  destruct Hfil as (Hlen & H0 & Hall). split_and!; [done..| |done].
  eapply Forall_impl; [done|]. by intros it [_ ?].
Qed.

Lemma optimizeForRedstone_wellFormed_witness :
  wellFormed Samples.oneUnstackable /\
  exists o,
    optimizeForRedstone Samples.oneUnstackable = Ok o /\
    length o = 54%nat /\
    o !! 0%nat = Some None /\
    Forall (fun it => exists q,
                quantity it = Some q /\ 1 <= q <= stack_size (item it))
           (occupied o) /\
    wellFormed o.
Proof.
  assert (wellFormed Samples.oneUnstackable) as H by wellFormed_sample.
  split; [exact H|]. exact (optimizeForRedstone_wellFormed _ H).
Defined.

(** C9: the optimizer returns a container, and throws nothing, on every
    well-formed input; a container with no occupied slot is returned as it
    is, and its signal strength is 0. *)
Theorem optimizeForRedstone_total (c : Container) :
  wellFormed c ->
  (exists o, optimizeForRedstone c = Ok o) /\
  (occupied c = [] ->
   optimizeForRedstone c = Ok c /\ calculateSignalStrength c = 0).
Proof.
  intros Hwf. split.
  - destruct (optimize_filled calculateSignalStrength c Hwf) as (o & Ho & _).
    by exists o.
  - intros He. split; [by apply optimize_empty|].
    unfold calculateSignalStrength. by rewrite He.
Qed.

Lemma optimizeForRedstone_total_witness :
  wellFormed Samples.emptyContainer /\
  (exists o, optimizeForRedstone Samples.emptyContainer = Ok o) /\
  (occupied Samples.emptyContainer = [] ->
   optimizeForRedstone Samples.emptyContainer = Ok Samples.emptyContainer /\
   calculateSignalStrength Samples.emptyContainer = 0).
Proof.
  assert (wellFormed Samples.emptyContainer) as H by wellFormed_sample.
  split; [exact H|]. exact (optimizeForRedstone_total _ H).
Defined.



(** ** The scorer and its specification *)

Lemma specFillSum_exact items :
  Forall scorable items ->
  (specFillSum items == inject_Z (fill64 items) / inject_Z 64)%Q.
Proof.
  induction 1 as [|it items Hit _ IH]; simpl.
  - reflexivity.
  - rewrite IH. destruct Hit as [Hc Hq]. rewrite stackLimit_class by done.
    rewrite inject_Z_plus, inject_Z_mult.
    destruct Hc as [->|[->| ->]].
    + change (64 / 1) with 64. field.
    + change (64 / 16) with 4. field.
    + change (64 / 64) with 1. field.
Qed.

Lemma specSignalStrength_exact slots :
  Forall scorable (occupied slots) ->
  specSignalStrength slots = exactSignalStrength slots.
Proof.
  intros Hall. unfold specSignalStrength, exactSignalStrength.
  destruct (occupied slots) as [|a l] eqn:E; [done|].
  rewrite Z.min_l by (simpl; lia).
  rewrite (Qfloor_comp _ (inject_Z (14 * fill64 (a :: l) + 1 * 3456) / inject_Z 3456)).
  - rewrite <- Zdiv_Qdiv. unfold signalOfFill.
    change (invSize * 64) with 3456. rewrite Z.div_add by lia. simpl length. done.
  - rewrite specFillSum_exact by done.
    rewrite inject_Z_plus, !inject_Z_mult. change (inject_Z 1) with 1%Q.
    rewrite (Qmake_Qdiv 14 54). field.
Qed.

Lemma fill64_unstackables items :
  Forall unstackableUnit items -> fill64 items = 64 * Z.of_nat (length items).
Proof.
  induction 1 as [|it items [Hs Hq] _ IH]; [done|].
  change (fill64 (it :: items))
    with (quantity_or_1 it * (64 / stackLimit it) + fill64 items).
  rewrite length_cons, Nat2Z.inj_succ.
  unfold stackLimit. rewrite Hs, Hq, IH.
  change (64 / Z.min 64 (if 1 =? 0 then 64 else 1)) with 64. lia.
Qed.

Lemma unstackableUnit_scorable it : unstackableUnit it -> scorable it.
Proof. intros [Hs Hq]. split; [by left|]. rewrite Hs, Hq. lia. Qed.

(** C4: on slots with stack limits 1, 16 or 64 and quantities within them,
    at most 54 occupied, the scorer returns the floor of
    [(14/54) * fillSum + min(1, itemCount)]; it returns 0 when no slot is
    occupied; and on [n] unstackable items of quantity 1 it returns the
    entries of the boundary table: 0 for 0; 1 for 1, 2, 3; 2 for 4; 13 for
    50; 14 for 51, 52, 53; 15 for 54. *)
Theorem calculateSignalStrength_spec (slots : Container) :
  Forall scorable (occupied slots) ->
  (length (occupied slots) <= 54)%nat ->
  calculateSignalStrength slots = specSignalStrength slots /\
  (occupied slots = [] -> calculateSignalStrength slots = 0) /\
  (forall n e,
      Forall unstackableUnit (occupied slots) ->
      length (occupied slots) = n ->
      (n, e) ∈ boundaryTable ->
      calculateSignalStrength slots = e).
Proof.
  intros Hall Hlen. split_and!.
  - rewrite calculateSignalStrength_exact, specSignalStrength_exact; done.
  - intros He. unfold calculateSignalStrength. by rewrite He.
  - intros n e Hunit Hn Hin.
    rewrite calculateSignalStrength_exact by done.
    unfold exactSignalStrength. rewrite (fill64_unstackables _ Hunit), Hn.
    unfold boundaryTable in Hin.
    repeat (apply elem_of_cons in Hin as [[= -> ->]|Hin]; [reflexivity|]).
    by apply elem_of_nil in Hin.
Qed.

Lemma calculateSignalStrength_spec_witness :
  Forall scorable (occupied (replicate 4 Samples.unstackableItem)) /\
  (length (occupied (replicate 4 Samples.unstackableItem)) <= 54)%nat /\
  calculateSignalStrength (replicate 4 Samples.unstackableItem)
  = specSignalStrength (replicate 4 Samples.unstackableItem) /\
  (occupied (replicate 4 Samples.unstackableItem) = [] ->
   calculateSignalStrength (replicate 4 Samples.unstackableItem) = 0) /\
  (forall n e,
      Forall unstackableUnit (occupied (replicate 4 Samples.unstackableItem)) ->
      length (occupied (replicate 4 Samples.unstackableItem)) = n ->
      (n, e) ∈ boundaryTable ->
      calculateSignalStrength (replicate 4 Samples.unstackableItem) = e).
Proof.
  assert (Forall scorable (occupied (replicate 4 Samples.unstackableItem))) as H1.
  { vm_compute occupied.
    repeat (constructor;
            [split; [unfold stackClass; simpl; lia|vm_compute; split; discriminate]|]);
      try constructor. }
  assert (length (occupied (replicate 4 Samples.unstackableItem)) <= 54)%nat
    as H2 by (vm_compute; lia).
  split; [exact H1|]. split; [exact H2|].
  exact (calculateSignalStrength_spec _ H1 H2).
Defined.

(** ** The classification of the candidates *)

Lemma filter_length_pos {A} (P : A -> Prop) `{!forall x, Decision (P x)} (l : list A) :
  (1 <= length (filter P l))%nat <-> exists x, x ∈ l /\ P x.
Proof.
  split.
  - destruct (filter P l) as [|x k] eqn:E; simpl; [lia|]. intros _.
    assert (x ∈ filter P l) as Hx by (rewrite E; left).
    apply list_elem_of_filter in Hx as [? ?]. eauto.
  - intros (x & Hx & HP).
    assert (x ∈ filter P l) as Hin by (by apply list_elem_of_filter).
    destruct (filter P l); [by apply elem_of_nil in Hin|simpl; lia].
Qed.

(** A second slot with the identifier of the slot at [i]. *)
Lemma countId_other (s : Container) i it :
  s !! i = Some (Some it) ->
  (1 < countId (id (item it)) s)%nat <->
  exists j it', j <> i /\ s !! j = Some (Some it') /\ id (item it') = id (item it).
Proof.
  intros Hi. unfold countId. rewrite (occupied_split _ _ _ Hi). simpl.
  rewrite !filter_app, filter_cons_True by done. rewrite !length_app. simpl.
  set (P := fun it' : Slot => id (item it') = id (item it)).
  split.
  - intros Hlt.
    assert ((1 <= length (filter P (occupied (take i s))))%nat
            \/ (1 <= length (filter P (occupied (drop (S i) s))))%nat)
      as [H|H] by lia;
      apply filter_length_pos in H as (x & (j & Hj)%elem_of_occupied & Hx).
    + apply lookup_take_Some in Hj as [Hj Hlt']. exists j, x.
      split_and!; [lia|done..].
    + rewrite lookup_drop in Hj. exists (S i + j)%nat, x.
      split_and!; [lia|done..].
  - intros (j & x & Hne & Hj & Hx).
    destruct (decide (j < i)%nat) as [Hlt|Hge].
    + assert ((1 <= length (filter P (occupied (take i s))))%nat); [|lia].
      apply filter_length_pos. exists x. split; [|done].
      apply elem_of_occupied. exists j. by rewrite lookup_take_lt.
    + assert ((1 <= length (filter P (occupied (drop (S i) s))))%nat); [|lia].
      apply filter_length_pos. exists x. split; [|done].
      apply elem_of_occupied. exists (j - S i)%nat. rewrite lookup_drop.
      by replace (S i + (j - S i))%nat with j by lia.
Qed.

Lemma marked_lookup c i it :
  marked c !! i = Some (Some it) ->
  exists a, normalize c !! i = Some (Some a) /\
            it = set_forceAdjusted (Some (adjustedIn (normalize c) a)) a.
Proof. unfold marked. rewrite markAdjusted_mapSlots. apply mapSlots_Some. Qed.

Lemma marked_countId c k : countId k (marked c) = countId k (normalize c).
Proof. unfold marked. rewrite markAdjusted_mapSlots. by apply countId_mapSlots. Qed.

Lemma marked_rule c i it :
  marked c !! i = Some (Some it) ->
  isForced it = true <-> qualifies (marked c) i it.
Proof.
  intros Hi. destruct (marked_lookup _ _ _ Hi) as (a & Ha & ->).
  unfold qualifies, isForced, adjustedIn. simpl.
  rewrite <- (countId_other (marked c) i _ Hi). simpl.
  rewrite marked_countId, orb_true_iff, Z.ltb_lt.
  change (quantity_gt (set_forceAdjusted _ a) 1) with (quantity_gt a 1).
  split; (intros [?|?]; [by left|right; lia]).
Qed.

Lemma usesFallback_true c :
  usesFallback c = true <->
  ~ exists i it, marked c !! i = Some (Some it) /\ quantity_gt it 1 = true.
Proof.
  unfold usesFallback, hasQuantityAdjustments. rewrite negb_true_iff. split.
  - intros He (i & it & Hi & Hq).
    assert (it ∈ occupied (marked c)) as Hin by (apply elem_of_occupied; eauto).
    pose proof (existsb_false_elem_of _ _ _ He Hin). simpl in *. congruence.
  - intros Hno. destruct (existsb _ _) eqn:E; [|done]. exfalso. apply Hno.
    apply existsb_elem_of in E as (it & (i & Hi)%elem_of_occupied & Hq). eauto.
Qed.

(** C7, as amended: the marking loop makes an occupied slot a candidate
    exactly when its quantity exceeds 1 or another occupied slot holds its
    identifier; the fallback occurs exactly when no occupied slot has a
    quantity above 1, and then every occupied slot is a candidate;
    otherwise the candidates are those of the marking loop. *)
Theorem classification_rule (c : Container) :
  (forall i it, marked c !! i = Some (Some it) ->
                (isForced it = true <-> qualifies (marked c) i it)) /\
  (usesFallback c = true <->
   ~ exists i it, marked c !! i = Some (Some it) /\ quantity_gt it 1 = true) /\
  (usesFallback c = true -> allForced (classify c)) /\
  (usesFallback c = false -> classify c = marked c).
Proof.
  split_and!.
  - apply marked_rule.
  - apply usesFallback_true.
  - unfold usesFallback, classify, marked. intros H%negb_true_iff. rewrite H.
    unfold allForced. rewrite markAll_mapSlots, occupied_mapSlots.
    apply Forall_fmap, Forall_forall. by intros a _.
  - unfold usesFallback, classify, marked. intros H%negb_false_iff. by rewrite H.
Qed.

(** C7, as stated, fails on two slots of one identifier at quantity 1 next
    to a third slot: the two qualify under the rule and the fallback
    occurs all the same. *)
Lemma classification_rule_counterexample :
  ~ claimedClassification Classification.twins.
Proof.
  intros [_ [H _]]. apply H; [by vm_compute|].
  eexists 1%nat, _. split; [by vm_compute|].
  right. eexists 2%nat, _. split; [lia|]. split; by vm_compute.
Qed.

(** ** The item Strategy 4 duplicates *)

(** C8 at the container of a common 16-stackable followed by a common
    64-stackable, both at quantity 1: Strategies 2 and 3 fill both stacks
    without reaching the threshold, the guard of Strategy 4 holds and all
    candidates are at their limits, and the [reduce] chooses the
    16-stackable although a candidate has stack size 64. *)
Theorem gapFilling_choice_mixed :
  let c := GapFilling.mixed in
  let cur := calculateSignalStrength (normalize c) in
  let hasQ := hasQuantityAdjustments (markAdjusted (normalize c)) in
  let s0 := classify c in
  let forced := indicesWhere isForced s0 in
  let forcedItems := omap (slotAt s0) forced in
  exists s1 fU s2 f16 s3 f64 chosen,
    strategy1 calculateSignalStrength (hasStackSize 1 forcedItems) hasQ
      forcedItems cur s0 = (s1, fU) /\
    strategy2 calculateSignalStrength (hasStackSize 16 forcedItems) cur s1
    = (s2, f16) /\
    strategy3 calculateSignalStrength (hasStackSize 64 forcedItems) cur s2
    = (s3, f64) /\
    gapFillingGuard hasQ (hasStackSize 1 forcedItems)
      (hasStackSize 16 forcedItems) (hasStackSize 64 forcedItems)
      fU f16 f64 = true /\
    allMaxed s3 = true /\
    chooseItemToDuplicate (omap (slotAt s3) forced) = Ok chosen /\
    stack_size (item chosen) = 16 /\
    (exists other, other ∈ omap (slotAt s3) forced /\
                   stack_size (item other) = 64) /\
    ~ preferredToDuplicate (omap (slotAt s3) forced) chosen.
Proof.
  cbv zeta. do 7 eexists.
  split; [by vm_compute|]. split; [by vm_compute|]. split; [by vm_compute|].
  split; [by vm_compute|]. split; [by vm_compute|]. split; [by vm_compute|].
  split; [by vm_compute|].
  match goal with
  | |- (exists other, other ∈ ?l /\ _) /\ _ =>
      assert (exists other, other ∈ l /\ stack_size (item other) = 64)
        as (other & Hin & Hs)
  end.
  { eexists. split; [vm_compute; right; left|reflexivity]. }
  split; [by exists other|].
  intros [_ Hpref]. destruct (Hpref other Hin) as [Hlt|[Heq _]].
  - rewrite Hs in Hlt. vm_compute in Hlt. discriminate.
  - rewrite Hs in Heq. vm_compute in Heq. discriminate.
Qed.

(** ** The partition of the output *)








Section Partition.
Context (score : Container -> Z).


End Partition.



(** ** The signal as a function of the fill *)

Lemma signalOfFill_mono f g : f <= g -> signalOfFill f <= signalOfFill g.
Proof.
  intros H. unfold signalOfFill. apply Z.add_le_mono_r.
  apply Z.div_le_mono; [done|lia].
Qed.

Lemma signalOfFill_step f d :
  0 <= d <= 64 -> signalOfFill (f + d) <= signalOfFill f + 1.
Proof.
  intros Hd. unfold signalOfFill. change (invSize * 64) with 3456.
  assert (14 * (f + d) / 3456 <= (14 * f + 1 * 3456) / 3456)
    by (apply Z.div_le_mono; lia).
  rewrite Z.div_add in H by lia. lia.
Qed.

(** Between a number of full stacks and four 64ths more the signal does
    not change. *)
Lemma signalOfFill_full_stacks (M : Z) :
  In M (seqZ 0 55) -> (signalOfFill (64 * M + 4) =? signalOfFill (64 * M)) = true.
Proof. revert M. apply forallb_forall. vm_compute. reflexivity. Qed.

Lemma signalOfFill_above_full M d :
  0 <= M <= 54 -> 0 <= d <= 4 ->
  signalOfFill (64 * M + d) = signalOfFill (64 * M).
Proof.
  intros HM Hd. apply Z.le_antisymm.
  - etrans; [apply (signalOfFill_mono _ (64 * M + 4)); lia|].
    apply Z.eq_le_incl, Z.eqb_eq, signalOfFill_full_stacks.
    apply list_elem_of_In, elem_of_seqZ. lia.
  - apply signalOfFill_mono. lia.
Qed.

Lemma exactSignalStrength_fill s :
  occupied s <> [] -> exactSignalStrength s = signalOfFill (fillOf s).
Proof.
  intros Hne. unfold exactSignalStrength, fillOf.
  destruct (occupied s); [done|]. reflexivity.
Qed.

Lemma filled_scorable s :
  filled s -> Forall scorable (occupied s) /\ (length (occupied s) <= 53)%nat.
Proof.
  intros (Hlen & H0 & Hall). split.
  - eapply Forall_impl; [done|]. apply slotFilled_scorable.
  - pose proof (length_occupied_reserved s H0). lia.
Qed.

Lemma grows_occupied_length s s' :
  grows s s' -> (length (occupied s) <= length (occupied s'))%nat.
Proof.
  unfold grows. induction 1 as [|o o' s s' Ho _ IH]; [done|].
  rewrite !occupied_cons, !length_app. destruct o as [a|].
  - destruct Ho as (b & -> & _). simpl. lia.
  - simpl. lia.
Qed.

Lemma grows_nonempty s s' : grows s s' -> occupied s <> [] -> occupied s' <> [].
Proof.
  intros Hg%grows_occupied_length Hne He. rewrite He in Hg.
  destruct (occupied s); [done|simpl in Hg; lia].
Qed.

(** ** Full stacks and single units *)

Lemma occupied_skeleton s : occupied (skeleton s) = erase <$> occupied s.
Proof. apply occupied_mapSlots. Qed.

Lemma skeleton_items s s' :
  skeleton s = skeleton s' ->
  Forall2 (fun a b => item a = item b) (occupied s) (occupied s').
Proof.
  intros H. pose proof (occupied_skeleton s) as H1. rewrite H, occupied_skeleton in H1.
  revert H1. generalize (occupied s') (occupied s). clear.
  intros l3 l1. revert l3.
  induction l1 as [|a l1 IH]; intros [|b l3]; try done; try (by constructor).
  rewrite !fmap_cons. intros He.
  assert (erase b = erase a) as Hba by congruence.
  assert (erase <$> l3 = erase <$> l1) as Hrest by congruence.
  constructor; [symmetry; by apply erase_item|by apply IH].
Qed.

Lemma fill64_everyMaxed l :
  Forall (fun it => stackClass (stack_size (item it))) l ->
  Forall (fun it => quantity it = Some (stack_size (item it))) l ->
  fill64 l = 64 * Z.of_nat (length l).
Proof.
  induction 1 as [|it l Hc _ IH]; [done|]. intros [Hq Hl]%Forall_cons.
  change (fill64 (it :: l))
    with (quantity_or_1 it * (64 / stackLimit it) + fill64 l).
  rewrite length_cons, Nat2Z.inj_succ, IH by done.
  rewrite stackLimit_class by done.
  rewrite (quantity_or_1_Some _ _ Hq) by (destruct Hc as [->|[->| ->]]; lia).
  destruct Hc as [->|[->| ->]];
    [change (64 / 1) with 64|change (64 / 16) with 4|change (64 / 64) with 1];
    lia.
Qed.

(** From single units to full stacks of the same items the fill grows by
    60 or 63 64ths for every stackable item. *)
Lemma fill64_units_to_stacks l1 l3 :
  Forall2 (fun a b => item a = item b) l1 l3 ->
  Forall (fun it => stackClass (stack_size (item it))) l1 ->
  Forall (fun it => quantity it = Some 1) l1 ->
  Forall (fun it => quantity it = Some (stack_size (item it))) l3 ->
  fill64 l1 <= fill64 l3 /\
  ((exists a, a ∈ l1 /\ stack_size (item a) <> 1) -> fill64 l1 + 60 <= fill64 l3).
Proof.
  induction 1 as [|a b l1 l3 Hab _ IH]; intros Hc H1 H3.
  { split; [done|]. intros (a & Ha & _). by apply elem_of_nil in Ha. }
  apply Forall_cons in Hc as [Hca Hc]. apply Forall_cons in H1 as [H1a H1].
  apply Forall_cons in H3 as [H3b H3]. destruct (IH Hc H1 H3) as [IH1 IH2].
  change (fill64 (a :: l1))
    with (quantity_or_1 a * (64 / stackLimit a) + fill64 l1).
  change (fill64 (b :: l3))
    with (quantity_or_1 b * (64 / stackLimit b) + fill64 l3).
  assert (stackLimit b = stackLimit a) as ->
    by (unfold stackLimit; by rewrite Hab).
  rewrite stackLimit_class by done.
  rewrite (quantity_or_1_Some _ _ H1a) by lia. rewrite <- Hab in H3b.
  rewrite (quantity_or_1_Some _ _ H3b) by (destruct Hca as [->|[->| ->]]; lia).
  split.
  - destruct Hca as [->|[->| ->]];
      [change (64 / 1) with 64|change (64 / 16) with 4|change (64 / 64) with 1];
      lia.
  - intros (x & [->|Hx]%elem_of_cons & Hne).
    + destruct Hca as [Hs|[Hs|Hs]]; rewrite Hs in *;
        [done|change (64 / 16) with 4|change (64 / 64) with 1]; lia.
    + assert (fill64 l1 + 60 <= fill64 l3) by (apply IH2; eauto).
      destruct Hca as [->|[->| ->]];
        [change (64 / 1) with 64|change (64 / 16) with 4|change (64 / 64) with 1];
        lia.
Qed.

Lemma filled_insert (s : Container) i d :
  filled s -> (1 <= i)%nat -> slotFilled d -> filled (<[i := Some d]> s).
Proof.
  intros (Hlen & H0 & Hall) Hi Hd. split_and!.
  - by rewrite length_insert.
  - rewrite list_lookup_insert_ne; [done|lia].
  - destruct (s !! i) as [o|] eqn:E.
    + eapply Forall_occupied_insert; [done..|]. by intros ? [= <-].
    + rewrite list_insert_ge; [done|]. by apply lookup_ge_None.
Qed.

Lemma filled_occupied_index (s : Container) i it :
  filled s -> s !! i = Some (Some it) -> (1 <= i)%nat.
Proof. intros (_ & H0 & _) Hi. destruct i; [congruence|lia]. Qed.

(** ** The run keeps the signal *)

Lemma optimize_traced score c :
  wellFormed c -> occupied c <> [] ->
  exists s1 fU s2 f16 s3 f64 s4,
    traced score c s1 fU s2 f16 s3 f64 s4 /\
    optimize score c
    = layout (markAdjusted (strategy5 score (score (normalize c)) s4)).
Proof.
  intros Hwf Hne.
  destruct (optimize_trace score c Hwf Hne)
    as (s1 & fU & s2 & f16 & s3 & f64 & s4 & E1 & E2 & E3 & E4 & Hopt & _).
  exists s1, fU, s2, f16, s3, f64, s4. split; [|done]. by split_and!.
Qed.

Lemma elem_of_forcedItemsOf c it :
  it ∈ forcedItemsOf c <->
  exists i, classify c !! i = Some (Some it) /\ isForced it = true.
Proof.
  unfold forcedItemsOf. rewrite elem_of_forcedItems. split.
  - intros (i & Hi & Hs). apply elem_of_indicesWhere in Hi as (a & Ha & Hf).
    exists i. split; [done|]. congruence.
  - intros (i & Hi & Hf). exists i. split; [|done].
    apply elem_of_indicesWhere. eauto.
Qed.

Section Exact.
Context (score : Container -> Z).
Context (Hscore : forall s,
            Forall scorable (occupied s) -> (length (occupied s) <= 54)%nat ->
            score s = exactSignalStrength s).

Lemma score_filled s :
  filled s -> occupied s <> [] -> score s = signalOfFill (fillOf s).
Proof.
  intros [Hs Hl]%filled_scorable Hne.
  rewrite Hscore by (done || lia). by apply exactSignalStrength_fill.
Qed.

Lemma score_profile s s' :
  Forall scorable (occupied s) -> (length (occupied s) <= 54)%nat ->
  profile s ≡ₚ profile s' -> score s = score s'.
Proof.
  intros Hs Hl Hp.
  assert (Forall scorable (occupied s') /\ length (occupied s') = length (occupied s))
    as [Hs' Hl'].
  { split.
    - assert (Forall (fun p : Z * Z => stackClass p.2 /\ 1 <= p.1 <= p.2) (profile s))
        as H by (unfold profile; by apply Forall_fmap).
      rewrite Hp in H. unfold profile in H. by apply Forall_fmap in H.
    - by rewrite <- !length_profile, Hp. }
  rewrite !Hscore by (done || lia). unfold exactSignalStrength.
  rewrite Hl'. rewrite !fill64_profile. fold (profile s) (profile s').
  assert (forall l k : list (Z * Z), l ≡ₚ k ->
            foldr (fun (p : Z * Z) acc =>
                     p.1 * (64 / Z.min 64 (if p.2 =? 0 then 64 else p.2)) + acc) 0 l
            = foldr (fun (p : Z * Z) acc =>
                     p.1 * (64 / Z.min 64 (if p.2 =? 0 then 64 else p.2)) + acc) 0 k)
    as Hperm by (induction 1; simpl; lia).
  by rewrite (Hperm _ _ Hp).
Qed.

Lemma move_atLevel cur s s' :
  move score cur s s' -> atLevel score cur s -> atLevel score cur s'.
Proof.
  intros Hm (Hfil & Hne & Hcur).
  pose proof (move_filled _ _ _ _ Hm Hfil) as Hfil'.
  pose proof (move_grows _ _ _ _ Hm) as Hg.
  pose proof (grows_nonempty _ _ Hg Hne) as Hne'.
  split_and!; [done..|].
  assert (rises score cur s' = false) as Hr by (by destruct Hm).
  unfold rises in Hr. apply Z.ltb_ge in Hr.
  rewrite score_filled in * by done.
  pose proof (grows_fill64 _ _ Hg (proj1 (filled_scorable _ Hfil'))).
  pose proof (signalOfFill_mono _ _ H). lia.
Qed.

Lemma moves_atLevel cur s s' :
  rtc (move score cur) s s' -> atLevel score cur s -> atLevel score cur s'.
Proof. induction 1; eauto using move_atLevel. Qed.

Lemma move_everyMaxed cur s s' :
  move score cur s s' -> everyMaxed s -> everyMaxed s'.
Proof.
  unfold everyMaxed.
  destruct 1 as [s i it q Hi Hq _ Hlt _|s i d _ Hi _ _ _ Hq _]; intros Hall.
  - apply slotAt_Some in Hi.
    pose proof (Forall_occupied_lookup _ _ _ _ Hall Hi) as Hmax. simpl in Hmax.
    rewrite Hq in Hmax. injection Hmax as ->. lia.
  - eapply Forall_occupied_insert; [done..|]. by intros ? [= <-].
Qed.

Lemma moves_everyMaxed cur s s' :
  rtc (move score cur) s s' -> everyMaxed s -> everyMaxed s'.
Proof. induction 1; eauto using move_everyMaxed. Qed.

Lemma everyMaxed_fill s :
  filled s -> everyMaxed s -> fillOf s = 64 * Z.of_nat (length (occupied s)).
Proof.
  intros (_ & _ & Hall) Hmax. apply fill64_everyMaxed; [|done].
  eapply Forall_impl; [exact Hall|]. intros it Hf. apply Hf.
Qed.

Lemma allMaxed_everyMaxed s :
  filled s -> allForced s -> allMaxed s = true -> everyMaxed s.
Proof.
  intros Hfil Hforced Hmax. apply Forall_forall. intros it Hit.
  apply (allMaxed_true s); [done..|].
  unfold allForced in Hforced. rewrite Forall_forall in Hforced. by apply Hforced.
Qed.

(** The duplicate of a stackable item that stays at quantity 1 after full
    stacks keeps the signal. *)
Lemma commit_atLevel cur src s s' :
  commit score cur src s s' ->
  atLevel score cur s -> everyMaxed s ->
  stack_size (item src) = 16 \/ stack_size (item src) = 64 ->
  atLevel score cur s'.
Proof.
  intros Hc (Hfil & Hne & Hcur) Hmax Hst.
  assert (filled s') as Hfil'.
  { eapply commit_filled; [done| |done]. destruct Hst as [->| ->]; [right; by left|right; by right]. }
  pose proof (grows_nonempty _ _ (commit_grows _ _ _ _ _ Hc) Hne) as Hne'.
  split_and!; [done..|].
  rewrite score_filled in * by done.
  destruct Hc as [s i Hi1 Hi _].
  rewrite (fillOf_insert _ _ _ _ Hi).
  change (share None) with 0. rewrite share_Some.
  rewrite (everyMaxed_fill _ Hfil Hmax) in *.
  pose proof (filled_scorable _ Hfil) as [_ Hlen].
  replace (64 * Z.of_nat (length (occupied s)) - 0
           + quantity_or_1 (set_quantity (Some 1) (duplicateStackable src))
             * (64 / stackLimit (set_quantity (Some 1) (duplicateStackable src))))
    with (64 * Z.of_nat (length (occupied s)) + 64 / stack_size (item src)).
  - rewrite signalOfFill_above_full; [done|lia|].
    destruct Hst as [->| ->]; [change (64 / 16) with 4|change (64 / 64) with 1]; lia.
  - unfold stackLimit. simpl.
    change (quantity_or_1 (set_quantity (Some 1) (duplicateStackable src))) with 1.
    rewrite Z.sub_0_r. f_equal. by destruct Hst as [->| ->].
Qed.
End Exact.

(** ** The arrays of a run *)

Lemma gapFillingGuard_true hasQ hU h16 h64 fU f16 f64 :
  gapFillingGuard hasQ hU h16 h64 fU f16 f64 = true ->
  hasQ = false /\
  ((fU = false /\ hU = true) \/ (f16 = false /\ h16 = true)
   \/ (f64 = false /\ h64 = true)).
Proof.
  unfold gapFillingGuard.
  destruct hasQ, hU, h16, h64, fU, f16, f64; simpl; intros H;
    try discriminate H; (split; [done|]); tauto.
Qed.

Lemma grows_noEmpty s s' : grows s s' -> noEmpty s -> noEmpty s'.
Proof.
  intros Hg Hn i Hi. eapply grows_occupied_not_empty; [done|]. by apply Hn.
Qed.

Lemma forcedItemsOf_occupied c it :
  it ∈ forcedItemsOf c -> it ∈ occupied (classify c).
Proof.
  intros (i & Hi & _)%elem_of_forcedItemsOf. apply elem_of_occupied. eauto.
Qed.

Lemma traced_facts score c s1 fU s2 f16 s3 f64 s4 :
  wellFormed c -> occupied c <> [] ->
  traced score c s1 fU s2 f16 s3 f64 s4 ->
  optimize score c
  = layout (markAdjusted (strategy5 score (score (normalize c)) s4)) /\
  filled s1 /\ filled s2 /\ filled s3 /\ filled s4 /\
  (gapFillingGuard (hasQuantityAdjustments (markAdjusted (normalize c)))
     (hasStackSize 1 (forcedItemsOf c)) (hasStackSize 16 (forcedItemsOf c))
     (hasStackSize 64 (forcedItemsOf c)) fU f16 f64 = true ->
   allForced s3 /\
   exists i it, i ∈ indicesWhere isForced (classify c) /\
                s3 !! i = Some (Some it)).
Proof.
  intros Hwf Hne (E1 & E2 & E3 & E4).
  destruct (optimize_trace score c Hwf Hne)
    as (s1' & fU' & s2' & f16' & s3' & f64' & s4'
        & E1' & E2' & E3' & E4' & Hopt & F1 & F2 & F3 & F4 & Hg).
  cbv zeta in *.
  rewrite E1 in E1'. injection E1' as <- <-.
  rewrite E2 in E2'. injection E2' as <- <-.
  rewrite E3 in E3'. injection E3' as <- <-.
  rewrite E4 in E4'. injection E4' as <-.
  by split_and!.
Qed.

Section Run.
Context (score : Container -> Z).
Context (Hscore : forall s,
            Forall scorable (occupied s) -> (length (occupied s) <= 54)%nat ->
            score s = exactSignalStrength s).

Lemma classify_atLevel c :
  wellFormed c -> occupied c <> [] ->
  atLevel score (score (normalize c)) (classify c).
Proof.
  intros Hwf Hne. pose proof (classify_filled c Hwf) as Hfil.
  pose proof (filled_scorable _ Hfil) as [Hs Hl].
  split_and!; [done| |].
  - intros He. apply Hne.
    apply (f_equal length) in He. rewrite <- length_profile in He.
    rewrite classify_profile, length_profile in He.
    by apply nil_length_inv.
  - apply (score_profile score Hscore); [done|lia|].
    by rewrite classify_profile, profile_normalize.
Qed.

Lemma rises_unstackable cur s i target :
  filled s -> (1 <= i)%nat -> s !! i = Some None ->
  stack_size (item target) = 1 ->
  rises score cur (<[i := Some (duplicateUnstackable target)]> s) = true ->
  cur < signalOfFill (fillOf s + 64).
Proof.
  intros Hfil Hi1 Hi Hst Hr. unfold rises in Hr. apply Z.ltb_lt in Hr.
  assert (slotFilled (duplicateUnstackable target)) as Hd.
  { split; [by left|]. exists 1. simpl. split; [done|lia]. }
  rewrite (score_filled score Hscore) in Hr; [|by apply filled_insert|].
  - rewrite (fillOf_insert _ _ _ _ Hi) in Hr.
    change (share None) with 0 in Hr. rewrite share_Some in Hr.
    unfold stackLimit in Hr. simpl in Hr. rewrite Hst in Hr.
    change (quantity_or_1 (duplicateUnstackable target)) with 1 in Hr.
    change (1 * (64 / Z.min 64 (if 1 =? 0 then 64 else 1))) with 64 in Hr.
    by rewrite Z.sub_0_r in Hr.
  - intros He.
    assert (duplicateUnstackable target
            ∈ occupied (<[i := Some (duplicateUnstackable target)]> s)) as Hin.
    { apply elem_of_occupied. exists i. apply list_lookup_insert_eq.
      by eapply lookup_lt_Some. }
    rewrite He in Hin. by apply elem_of_nil in Hin.
Qed.

(** After Strategy 1 in the fallback every slot holds quantity 1. *)
Lemma strategy1_everyOne c s1 fU :
  wellFormed c ->
  hasQuantityAdjustments (markAdjusted (normalize c)) = false ->
  strategy1 score (hasStackSize 1 (forcedItemsOf c)) false (forcedItemsOf c)
    (score (normalize c)) (classify c) = (s1, fU) ->
  everyOne s1.
Proof.
  intros Hwf Hq E1.
  destruct (strategy1_spec score _ _ _ _ _ _ E1 (classify_filled c Hwf)
              (forcedItemsOf_occupied c))
    as (Hm & Hold & Hnew & _).
  destruct (classify_fallback c Hwf Hq) as [_ Hone].
  apply Forall_forall. intros it (i & Hi)%elem_of_occupied.
  pose proof (grows_length _ _ (moves_grows _ _ _ _ Hm)) as Hlen.
  destruct (classify c !! i) as [[a|]|] eqn:E0.
  - rewrite (Hold _ _ E0) in Hi. injection Hi as <-.
    by apply (Forall_occupied_lookup _ _ _ _ Hone E0).
  - by destruct (Hnew _ _ E0 Hi).
  - apply lookup_ge_None in E0. apply lookup_lt_Some in Hi. lia.
Qed.

(** A full array of single units turned into full stacks is past the
    threshold that one more unstackable crosses. *)
Lemma units_to_stacks_level cur s1 s3 :
  filled s1 -> everyOne s1 -> atLevel score cur s3 -> everyMaxed s3 ->
  skeleton s3 = skeleton s1 ->
  (exists b, b ∈ occupied s1 /\ stack_size (item b) <> 1) ->
  signalOfFill (fillOf s1 + 64) <= cur.
Proof.
  intros Hfil1 Hone (Hfil3 & Hne3 & Hcur) Hmax Hsk Hb.
  rewrite (score_filled score Hscore) in Hcur by done.
  rewrite (everyMaxed_fill _ Hfil3 Hmax) in Hcur.
  pose proof (filled_scorable _ Hfil3) as [_ Hlen].
  assert (fillOf s1 + 60 <= fillOf s3) as Hle.
  { eapply (fill64_units_to_stacks (occupied s1) (occupied s3)); [| | | |done].
    - by apply skeleton_items.
    - destruct Hfil1 as (_ & _ & Hall).
      eapply Forall_impl; [exact Hall|]. intros it Hf. apply Hf.
    - done.
    - done. }
  rewrite (everyMaxed_fill _ Hfil3 Hmax) in Hle.
  rewrite <- Hcur.
  rewrite <- (signalOfFill_above_full (Z.of_nat (length (occupied s3))) 4)
    by lia.
  apply signalOfFill_mono. lia.
Qed.

Theorem traced_levels c s1 fU s2 f16 s3 f64 s4 :
  wellFormed c -> occupied c <> [] ->
  traced score c s1 fU s2 f16 s3 f64 s4 ->
  atLevel score (score (normalize c)) (classify c) /\
  atLevel score (score (normalize c)) s1 /\
  atLevel score (score (normalize c)) s2 /\
  atLevel score (score (normalize c)) s3 /\
  atLevel score (score (normalize c)) s4 /\
  atLevel score (score (normalize c))
    (strategy5 score (score (normalize c)) s4).
Proof.
  intros Hwf Hne Htr.
  destruct (traced_facts score c _ _ _ _ _ _ _ Hwf Hne Htr)
    as (_ & F1 & F2 & F3 & F4 & Hguard).
  destruct Htr as (E1 & E2 & E3 & E4).
  fold (forcedItemsOf c) in *.
  set (cur := score (normalize c)) in *.
  set (hasQ := hasQuantityAdjustments (markAdjusted (normalize c))) in *.
  pose proof (classify_atLevel c Hwf Hne) as L0. fold cur in L0.
  pose proof (classify_filled c Hwf) as F0.
  destruct (strategy1_spec score _ _ _ _ _ _ E1 F0 (forcedItemsOf_occupied c))
    as (M1 & Hold1 & Hnew1 & HfU & HnfU).
  destruct (strategy2_spec score _ _ _ _ _ E2 F1) as (M2 & K2 & _).
  destruct (strategy3_spec score _ _ _ _ _ E3 F2) as (M3 & K3 & _).
  pose proof (moves_atLevel score Hscore _ _ _ M1 L0) as L1.
  pose proof (moves_atLevel score Hscore _ _ _ M2 L1) as L2.
  pose proof (moves_atLevel score Hscore _ _ _ M3 L2) as L3.
  assert (atLevel score cur s4) as L4.
  { destruct (strategy4_spec score cur _ (indicesWhere isForced (classify c)) s3 F3
                (fun H => proj1 (Hguard H)) (fun H => proj2 (Hguard H)))
      as (s4' & E4' & Hcases).
    rewrite E4 in E4'. injection E4' as <-.
    destruct Hcases as [[_ ->]|(Hrun & Hmax & src & Hsrc & Hin & Hfull & Hout)];
      [done|].
    destruct Hout as [[M4 _]|(s'' & M4 & Hc)];
      [by apply (moves_atLevel score Hscore _ _ _ M4)|].
    destruct (Hguard Hrun) as [Hforced _].
    pose proof (allMaxed_everyMaxed _ F3 Hforced Hmax) as Hmax3.
    pose proof (moves_everyMaxed score _ _ _ M4 Hmax3) as Hmax4.
    pose proof (moves_atLevel score Hscore _ _ _ M4 L3) as L4.
    apply (commit_atLevel score Hscore cur src s''); [done..|].
    assert (stackClass (stack_size (item src))) as Hclass.
    { destruct F3 as (_ & _ & Hall). rewrite Forall_forall in Hall.
      by destruct (Hall _ Hin). }
    destruct Hclass as [Hone|Hst]; [exfalso|done].
    apply gapFillingGuard_true in Hrun as [HQ Hwhich].
    (* the source of the duplicate is an unstackable candidate *)
    apply chooseItemToDuplicate_elem, elem_of_forcedItems in Hsrc
      as (j & Hj & Hj3).
    apply elem_of_indicesWhere in Hj as (a & Ha & Hfa).
    assert (grows (classify c) s3) as G03.
    { etrans; [by eapply moves_grows|].
      etrans; by eapply moves_grows. }
    destruct (grows_lookup _ _ _ _ G03 Ha) as (b & Hb & Hab & _).
    assert (b = src) as -> by congruence.
    assert (hasStackSize 1 (forcedItemsOf c) = true) as HU.
    { apply hasStackSize_true. exists a. split.
      - apply elem_of_forcedItemsOf. eauto.
      - by rewrite (erase_item _ _ Hab). }
    destruct fU.
    - destruct (HfU eq_refl) as (_ & i & target & Hi1 & Hi & Htarget & Hr).
      pose proof (rises_unstackable cur s1 i target F1 Hi1 Hi Htarget Hr) as Hup.
      assert (everyOne s1) as Hone1.
      { apply (strategy1_everyOne c s1 true Hwf HQ).
        fold cur. by rewrite <- HQ. }
      assert (signalOfFill (fillOf s1 + 64) <= cur); [|lia].
      apply (units_to_stacks_level cur s1 s3); [done..|congruence|].
      destruct Hwhich as [[? _]|[[_ Hh]|[_ Hh]]]; [done| |];
        apply hasStackSize_true in Hh as (x & Hx & Hsx);
        apply forcedItemsOf_occupied, elem_of_occupied in Hx as (k & Hk);
        exists x; (split; [apply elem_of_occupied; eauto|lia]).
    - pose proof (HnfU eq_refl HU HQ) as Hno.
      assert (grows s1 s'') as G1.
      { etrans; [by eapply moves_grows|].
        etrans; by eapply moves_grows. }
      pose proof (grows_noEmpty _ _ G1 Hno) as Hno4.
      destruct Hc as [s'' i Hi1 Hi _]. by apply (Hno4 i). }
  split_and!; [done..|].
  destruct (strategy5_spec score cur s4 F4) as (f & _ & M5 & _).
  by apply (moves_atLevel score Hscore _ _ _ M5).
Qed.

(** The result of a run has the signal of the input. *)
Lemma optimize_signal c :
  wellFormed c -> exists o, optimize score c = Ok o /\ score o = score c.
Proof.
  intros Hwf.
  assert (Forall scorable (occupied c) /\ (length (occupied c) <= 53)%nat)
    as [Hsc Hlc].
  { destruct Hwf as (Hlen & H0 & Hall). split.
    - eapply Forall_impl; [exact Hall|]. apply slotWellFormed_scorable.
    - pose proof (length_occupied_reserved c H0). lia. }
  destruct (decide (occupied c = [])) as [He|Hne].
  { exists c. split; [by apply optimize_empty|done]. }
  destruct (optimize_traced score c Hwf Hne)
    as (s1 & fU & s2 & f16 & s3 & f64 & s4 & Htr & Hopt).
  destruct (traced_levels c _ _ _ _ _ _ _ Hwf Hne Htr)
    as (_ & _ & _ & _ & _ & (F5 & Hne5 & L5)).
  set (s5 := strategy5 score (score (normalize c)) s4) in *.
  pose proof (filled_scorable _ F5) as [Hs5 Hl5].
  assert (exists o, layout (markAdjusted s5) = Ok o) as [o Ho].
  { rewrite layout_Ok; [eauto|].
    rewrite markAdjusted_mapSlots, occupied_mapSlots, length_fmap. lia. }
  exists o. split; [congruence|].
  transitivity (score s5).
  - symmetry. apply (score_profile score Hscore); [done|lia|].
    symmetry. by apply profile_layout.
  - rewrite L5. symmetry. apply (score_profile score Hscore); [done|lia|].
    by rewrite profile_normalize.
Qed.
End Run.

(** ** The threshold of the working array *)

Lemma grows_fill_at s s' i o o' :
  grows s s' -> Forall scorable (occupied s') ->
  s !! i = Some o -> s' !! i = Some o' ->
  fillOf s - share o + share o' <= fillOf s'.
Proof.
  intros Hg Hs Hi Hi'.
  rewrite <- (fillOf_insert s i o o' Hi).
  apply grows_fill64; [|done].
  rewrite <- (list_insert_id s' i o' Hi').
  apply Forall2_insert; [done|]. reflexivity.
Qed.

Lemma grows_None s s' i :
  grows s s' -> s' !! i = Some None -> s !! i = Some None.
Proof.
  intros Hg Hi'.
  destruct (s !! i) as [[a|]|] eqn:Hi; [|done|].
  - destruct (grows_lookup _ _ _ _ Hg Hi) as (b & Hb & _). congruence.
  - apply lookup_ge_None in Hi. apply lookup_lt_Some in Hi'.
    rewrite (grows_length _ _ Hg) in Hi. lia.
Qed.

Lemma skeleton_lookup_back s s' i b :
  skeleton s' = skeleton s -> s' !! i = Some (Some b) ->
  exists a, s !! i = Some (Some a) /\ erase a = erase b.
Proof.
  intros Hsk Hi.
  assert (skeleton s' !! i = Some (Some (erase b))) as H
    by (unfold skeleton; rewrite list_lookup_fmap, Hi; done).
  rewrite Hsk in H. unfold skeleton in H. rewrite list_lookup_fmap in H.
  destruct (s !! i) as [[a|]|]; simpl in H; try done.
  exists a. split; [done|]. congruence.
Qed.

Lemma countId_skeleton k s : countId k (skeleton s) = countId k s.
Proof. by apply countId_mapSlots. Qed.

Lemma sameItems_refl s : sameItems s s.
Proof. by intros x. Qed.

Lemma sameItems_trans s1 s2 s3 :
  sameItems s1 s2 -> sameItems s2 s3 -> sameItems s1 s3.
Proof. intros H1 H2 x Hx. by apply H1, H2. Qed.

Lemma item_insert (s : Container) i d x :
  s !! i = Some None ->
  x ∈ item <$> occupied (<[i := Some d]> s) ->
  x = item d \/ x ∈ item <$> occupied s.
Proof.
  intros Hi (b & -> & (j & Hj)%elem_of_occupied)%list_elem_of_fmap.
  destruct (decide (j = i)) as [->|Hne].
  - rewrite list_lookup_insert_eq in Hj by (by eapply lookup_lt_Some).
    left. congruence.
  - rewrite list_lookup_insert_ne in Hj by done. right.
    apply list_elem_of_fmap. exists b. split; [done|].
    apply elem_of_occupied. eauto.
Qed.

Section Saturation.
Context (score : Container -> Z).
Context (Hscore : forall s,
            Forall scorable (occupied s) -> (length (occupied s) <= 54)%nat ->
            score s = exactSignalStrength s).

Lemma move_sameItems cur s s' : move score cur s s' -> sameItems s s'.
Proof.
  destruct 1 as [s i it q Hi Hq _ _ _|s i d _ Hi Hd _ _ _ _]; intros x Hx.
  - apply slotAt_Some in Hi.
    apply list_elem_of_fmap in Hx as (b & -> & (j & Hj)%elem_of_occupied).
    destruct (decide (j = i)) as [->|Hne].
    + rewrite list_lookup_insert_eq in Hj by (by eapply lookup_lt_Some).
      injection Hj as <-. apply list_elem_of_fmap. exists it. split; [done|].
      apply elem_of_occupied. eauto.
    + rewrite list_lookup_insert_ne in Hj by done.
      apply list_elem_of_fmap. exists b. split; [done|].
      apply elem_of_occupied. eauto.
  - by destruct (item_insert _ _ _ _ Hi Hx) as [->|?].
Qed.

Lemma moves_sameItems cur s s' : rtc (move score cur) s s' -> sameItems s s'.
Proof.
  induction 1; [apply sameItems_refl|].
  eapply sameItems_trans; [by eapply move_sameItems|done].
Qed.

Lemma commit_sameItems cur src s s' :
  commit score cur src s s' -> item src ∈ item <$> occupied s -> sameItems s s'.
Proof.
  destruct 1 as [s i _ Hi _]. intros Hsrc x Hx.
  by destruct (item_insert _ _ _ _ Hi Hx) as [->|?].
Qed.

(** *** What a trial write reads *)

Lemma rises_increment cur s i it q :
  filled s -> s !! i = Some (Some it) -> quantity it = Some q ->
  q < stack_size (item it) ->
  rises score cur (<[i := Some (incrementQuantity it)]> s)
  = (cur <? signalOfFill (fillOf s + 64 / stack_size (item it))).
Proof.
  intros Hfil Hi Hq Hlt. unfold rises.
  pose proof (filled_occupied_index _ _ _ Hfil Hi) as Hi1.
  assert (slotFilled it) as [Hc (q' & Hq' & Hr)].
  { destruct Hfil as (_ & _ & Hall).
    by apply (Forall_occupied_lookup _ _ _ _ Hall Hi). }
  assert (q' = q) as -> by congruence.
  assert (slotFilled (incrementQuantity it)) as Hinc.
  { split; [done|]. exists (Z.succ q). unfold incrementQuantity.
    rewrite Hq. simpl. split; [done|lia]. }
  rewrite (score_filled score Hscore); [|by apply filled_insert|].
  - rewrite (fillOf_insert _ _ _ _ Hi), !share_Some.
    assert (stackLimit (incrementQuantity it) = stackLimit it) as -> by done.
    rewrite stackLimit_class by done.
    rewrite (quantity_or_1_Some it q) by (done || lia).
    rewrite (quantity_or_1_Some (incrementQuantity it) (Z.succ q));
      [|by unfold incrementQuantity; rewrite Hq|lia].
    do 2 f_equal. lia.
  - intros He.
    assert (incrementQuantity it
            ∈ occupied (<[i := Some (incrementQuantity it)]> s)) as Hin.
    { apply elem_of_occupied. exists i. apply list_lookup_insert_eq.
      by eapply lookup_lt_Some. }
    rewrite He in Hin. by apply elem_of_nil in Hin.
Qed.

Lemma rises_full cur s i d :
  filled s -> (1 <= i)%nat -> s !! i = Some None ->
  stackClass (stack_size (item d)) ->
  quantity d = Some (stack_size (item d)) ->
  rises score cur (<[i := Some d]> s)
  = (cur <? signalOfFill (fillOf s + 64)).
Proof.
  intros Hfil Hi1 Hi Hc Hq. unfold rises.
  assert (slotFilled d) as Hd.
  { split; [done|]. exists (stack_size (item d)). split; [done|].
    destruct Hc as [->|[->| ->]]; lia. }
  rewrite (score_filled score Hscore); [|by apply filled_insert|].
  - rewrite (fillOf_insert _ _ _ _ Hi), share_Some.
    change (share None) with 0.
    rewrite stackLimit_class by done.
    rewrite (quantity_or_1_Some d _ Hq) by (destruct Hc as [->|[->| ->]]; lia).
    assert (stack_size (item d) * (64 / stack_size (item d)) = 64) as ->
      by (destruct Hc as [->|[->| ->]]; reflexivity).
    by rewrite Z.sub_0_r.
  - intros He.
    assert (d ∈ occupied (<[i := Some d]> s)) as Hin.
    { apply elem_of_occupied. exists i. apply list_lookup_insert_eq.
      by eapply lookup_lt_Some. }
    rewrite He in Hin. by apply elem_of_nil in Hin.
Qed.

(** *** Saturation of a stack class *)

Lemma saturated_flagged cur L s :
  filled s ->
  (exists i it q,
     s !! i = Some (Some it) /\ stack_size (item it) = L /\
     quantity it = Some q /\ q < L /\
     rises score cur (<[i := Some (incrementQuantity it)]> s) = true) ->
  saturated cur L s.
Proof.
  intros Hfil (i & it & q & Hi & HL & Hq & Hlt & Hr) j b qb _ _ _ _ _.
  rewrite (rises_increment cur s i it q) in Hr by (done || lia).
  apply Z.ltb_lt in Hr. by rewrite HL in Hr.
Qed.

Lemma saturated_full cur L s :
  (forall i it q,
     s !! i = Some (Some it) -> isForced it = true ->
     stack_size (item it) = L -> quantity it = Some q -> L <= q) ->
  saturated cur L s.
Proof.
  intros Hall j b qb Hj Hf HL Hq Hlt.
  pose proof (Hall _ _ _ Hj Hf HL Hq). lia.
Qed.

Lemma saturated_grows cur L s s' :
  grows s s' -> filled s' -> 0 < L ->
  (forall i b q,
     s' !! i = Some (Some b) -> isForced b = true ->
     stack_size (item b) = L -> quantity b = Some q -> q < L ->
     exists a qa, s !! i = Some (Some a) /\ isForced a = true /\
                  stack_size (item a) = L /\ quantity a = Some qa /\ qa < L) ->
  saturated cur L s -> saturated cur L s'.
Proof.
  intros Hg Hfil HL Hback Hsat i b q Hi Hf Hst Hq Hlt.
  destruct (Hback _ _ _ Hi Hf Hst Hq Hlt) as (a & qa & Ha & Hfa & Hsa & Hqa & Hlta).
  pose proof (Hsat _ _ _ Ha Hfa Hsa Hqa Hlta) as Hup.
  pose proof (grows_fill64 _ _ Hg (proj1 (filled_scorable _ Hfil))) as Hle.
  assert (signalOfFill (fillOf s + 64 / L) <= signalOfFill (fillOf s' + 64 / L))
    by (apply signalOfFill_mono; lia).
  lia.
Qed.

Lemma move_saturated cur L s s' :
  move score cur s s' -> filled s -> 0 < L ->
  saturated cur L s -> saturated cur L s'.
Proof.
  intros Hm Hfil HL. apply saturated_grows; [by eapply move_grows| |done|].
  { by eapply move_filled. }
  destruct Hm as [s i it q Hi Hq Hfi Hlt _|s i d _ Hi _ _ _ Hq _];
    intros j b qb Hj Hf Hst Hqb Hltb.
  - apply slotAt_Some in Hi. destruct (decide (j = i)) as [->|Hne].
    + rewrite list_lookup_insert_eq in Hj by (by eapply lookup_lt_Some).
      injection Hj as <-. exists it, q. split_and!; [done..| |].
      * done.
      * unfold incrementQuantity in Hqb. rewrite Hq in Hqb. simpl in Hqb.
        injection Hqb as <-. lia.
    + rewrite list_lookup_insert_ne in Hj by done. by exists b, qb.
  - destruct (decide (j = i)) as [->|Hne].
    + rewrite list_lookup_insert_eq in Hj by (by eapply lookup_lt_Some).
      injection Hj as <-. rewrite Hq in Hqb. injection Hqb as <-. lia.
    + rewrite list_lookup_insert_ne in Hj by done. by exists b, qb.
Qed.

Lemma moves_saturated cur L s s' :
  rtc (move score cur) s s' -> filled s -> 0 < L ->
  saturated cur L s -> saturated cur L s'.
Proof.
  induction 1 as [|s s1 s' Hm _ IH]; [done|]. intros Hfil HL Hsat.
  apply IH; [by eapply move_filled|done|by eapply move_saturated].
Qed.

Lemma commit_saturated cur L src s s' :
  commit score cur src s s' -> filled s' -> 0 < L ->
  stack_size (item src) <> L ->
  saturated cur L s -> saturated cur L s'.
Proof.
  intros Hc Hfil HL Hne.
  apply saturated_grows; [by eapply commit_grows|done..|].
  destruct Hc as [s i _ Hi _]. intros j b qb Hj Hf Hst Hqb Hltb.
  destruct (decide (j = i)) as [->|Hji].
  - rewrite list_lookup_insert_eq in Hj by (by eapply lookup_lt_Some).
    injection Hj as <-. done.
  - rewrite list_lookup_insert_ne in Hj by done. by exists b, qb.
Qed.

(** *** One more unstackable *)

Lemma saturatedUnstackable_grows cur s s' :
  grows s s' -> sameItems s s' -> filled s' ->
  saturatedUnstackable cur s -> saturatedUnstackable cur s'.
Proof.
  intros Hg Hitems Hfil Hsat (it & Hit & Hone) (i & Hi1 & Hi).
  assert (cur < signalOfFill (fillOf s + 64)) as Hup.
  { apply Hsat.
    - assert (item it ∈ item <$> occupied s) as (a & Ha & Hin)%list_elem_of_fmap.
      { apply Hitems, list_elem_of_fmap. eauto. }
      exists a. split; [done|]. by rewrite <- Ha.
    - exists i. split; [done|]. by eapply grows_None. }
  pose proof (grows_fill64 _ _ Hg (proj1 (filled_scorable _ Hfil))) as Hle.
  assert (signalOfFill (fillOf s + 64) <= signalOfFill (fillOf s' + 64))
    by (apply signalOfFill_mono; lia).
  lia.
Qed.

(** *** Slots that are not candidates stay as they are *)

Lemma move_unforced cur s s' i b :
  move score cur s s' -> s' !! i = Some (Some b) -> isForced b = false ->
  s !! i = Some (Some b).
Proof.
  destruct 1 as [s j it q Hj Hq Hf _ _|s j d _ Hj _ Hf _ _ _]; intros Hi Hb.
  - apply slotAt_Some in Hj. destruct (decide (i = j)) as [->|Hne].
    + rewrite list_lookup_insert_eq in Hi by (by eapply lookup_lt_Some).
      injection Hi as <-. unfold isForced, incrementQuantity in *. simpl in Hb.
      congruence.
    + by rewrite list_lookup_insert_ne in Hi.
  - destruct (decide (i = j)) as [->|Hne].
    + rewrite list_lookup_insert_eq in Hi by (by eapply lookup_lt_Some).
      congruence.
    + by rewrite list_lookup_insert_ne in Hi.
Qed.

Lemma moves_unforced cur s s' i b :
  rtc (move score cur) s s' -> s' !! i = Some (Some b) -> isForced b = false ->
  s !! i = Some (Some b).
Proof.
  induction 1 as [|s s1 s' Hm _ IH]; [done|]. intros Hi Hb.
  eapply move_unforced; [done| |done]. by apply IH.
Qed.

Lemma grows_hasQuantityAdjustments s s' :
  grows s s' -> filled s' ->
  hasQuantityAdjustments s = true -> hasQuantityAdjustments s' = true.
Proof.
  intros Hg (_ & _ & Hall). unfold hasQuantityAdjustments.
  rewrite !existsb_elem_of.
  intros (a & (i & Hi)%elem_of_occupied & Hq).
  destruct (grows_lookup _ _ _ _ Hg Hi) as (b & Hb & _ & Hle).
  exists b. split; [apply elem_of_occupied; eauto|].
  pose proof (Forall_occupied_lookup _ _ _ _ Hall Hb) as [_ (q & Hqb & Hr)].
  unfold quantity_gt in *. rewrite Hqb.
  rewrite (quantity_or_1_Some b q) in Hle by (done || lia).
  destruct (quantity a) as [qa|] eqn:Hqa; [|done]. apply Z.ltb_lt in Hq.
  rewrite (quantity_or_1_Some a qa) in Hle by (done || lia).
  apply Z.ltb_lt. lia.
Qed.
End Saturation.

(** ** The array a run ends with *)

Lemma strategy1_skipped score hasU hasQ (l : list Slot) cur s :
  hasU = false \/ hasQ = true ->
  strategy1 score hasU hasQ l cur s = (s, false).
Proof.
  unfold strategy1. intros [-> | ->]; [done|]. by rewrite andb_false_r.
Qed.

Lemma commit_allForced score cur src s s' :
  commit score cur src s s' -> allForced s -> allForced s'.
Proof.
  destruct 1 as [s i _ Hi _]. intros Hall.
  eapply Forall_occupied_insert; [done..|]. by intros ? [= <-].
Qed.

Lemma adjustedIn_skeleton s s' a b :
  skeleton s' = skeleton s -> item a = item b -> quantity a = quantity b ->
  adjustedIn s' a = adjustedIn s b.
Proof.
  intros Hsk Hi Hq. unfold adjustedIn, quantity_gt. rewrite Hi, Hq.
  by rewrite <- (countId_skeleton _ s'), Hsk, countId_skeleton.
Qed.

Lemma hasQuantityAdjustments_mapSlots f s :
  (forall a, quantity (f a) = quantity a) ->
  hasQuantityAdjustments (mapSlots f s) = hasQuantityAdjustments s.
Proof.
  intros Hf. unfold hasQuantityAdjustments. rewrite occupied_mapSlots.
  induction (occupied s) as [|a l IH]; [done|]. rewrite fmap_cons. simpl.
  rewrite IH. unfold quantity_gt. by rewrite Hf.
Qed.

Lemma hasQuantityAdjustments_classify c :
  hasQuantityAdjustments (classify c)
  = hasQuantityAdjustments (markAdjusted (normalize c)).
Proof.
  unfold classify.
  destruct (hasQuantityAdjustments (markAdjusted (normalize c))) eqn:HQ; [done|].
  rewrite markAll_mapSlots, hasQuantityAdjustments_mapSlots; done.
Qed.

Section Settled.
Context (score : Container -> Z).
Context (Hscore : forall s,
            Forall scorable (occupied s) -> (length (occupied s) <= 54)%nat ->
            score s = exactSignalStrength s).

(** After Strategy 4 has kept a duplicate at quantity 1, a candidate that
    Strategy 5 leaves below its limit is that duplicate. *)
Lemma commit_only_open cur src s s4 s5 k t q :
  commit score cur src s s4 -> everyMaxed s ->
  grows s4 s5 -> skeleton s5 = skeleton s4 -> filled s5 ->
  s5 !! k = Some (Some t) -> quantity t = Some q -> q < stack_size (item t) ->
  item t = item src.
Proof.
  intros Hc Hmax Hg Hsk Hfil Hk Hq Hlt.
  destruct (skeleton_lookup_back _ _ _ _ Hsk Hk) as (t4 & Hk4 & He).
  destruct (grows_lookup _ _ _ _ Hg Hk4) as (b & Hb & _ & Hle).
  assert (b = t) as -> by congruence.
  destruct Hc as [s i _ Hi _].
  destruct (decide (k = i)) as [->|Hne].
  - rewrite list_lookup_insert_eq in Hk4 by (by eapply lookup_lt_Some).
    injection Hk4 as <-. by rewrite <- (erase_item _ _ He).
  - exfalso. rewrite list_lookup_insert_ne in Hk4 by done.
    pose proof (Forall_occupied_lookup _ _ _ _ Hmax Hk4) as Hfull.
    simpl in Hfull.
    destruct Hfil as (_ & _ & Hall).
    pose proof (Forall_occupied_lookup _ _ _ _ Hall Hk) as [Hc (q' & Hq' & Hr)].
    assert (q' = q) as -> by congruence.
    rewrite (quantity_or_1_Some t q) in Hle by (done || lia).
    rewrite (erase_item _ _ He) in Hfull.
    rewrite (quantity_or_1_Some t4 _ Hfull) in Hle
      by (destruct Hc as [->|[->| ->]]; lia).
    lia.
Qed.

(** A candidate of a stackable class after Strategy 1 is a candidate of
    the classification. *)
Lemma strategy1_candidates c s1 fU L i b :
  wellFormed c ->
  strategy1 score (hasStackSize 1 (forcedItemsOf c))
    (hasQuantityAdjustments (markAdjusted (normalize c))) (forcedItemsOf c)
    (score (normalize c)) (classify c) = (s1, fU) ->
  L <> 1 ->
  s1 !! i = Some (Some b) -> isForced b = true -> stack_size (item b) = L ->
  hasStackSize L (forcedItemsOf c) = true.
Proof.
  intros Hwf E1 HL Hi Hf Hst.
  destruct (strategy1_spec score _ _ _ _ _ _ E1 (classify_filled c Hwf)
              (forcedItemsOf_occupied c))
    as (Hm & Hold & Hnew & _).
  pose proof (grows_length _ _ (moves_grows _ _ _ _ Hm)) as Hlen.
  destruct (classify c !! i) as [[a|]|] eqn:E0.
  - rewrite (Hold _ _ E0) in Hi. injection Hi as <-.
    apply hasStackSize_true. exists a. split; [|done].
    apply elem_of_forcedItemsOf. eauto.
  - destruct (Hnew _ _ E0 Hi) as [_ ?]. congruence.
  - apply lookup_ge_None in E0. apply lookup_lt_Some in Hi. lia.
Qed.


Theorem traced_settled c s1 fU s2 f16 s3 f64 s4 :
  wellFormed c -> occupied c <> [] ->
  traced score c s1 fU s2 f16 s3 f64 s4 ->
  settled score (score (normalize c))
    (strategy5 score (score (normalize c)) s4).
Proof.
  intros Hwf Hne Htr.
  destruct (traced_levels score Hscore c _ _ _ _ _ _ _ Hwf Hne Htr)
    as (L0 & L1 & L2 & L3 & L4 & L5).
  destruct (traced_facts score c _ _ _ _ _ _ _ Hwf Hne Htr)
    as (_ & F1 & F2 & F3 & F4 & Hguard).
  destruct Htr as (E1 & E2 & E3 & E4).
  fold (forcedItemsOf c) in *.
  set (cur := score (normalize c)) in *.
  set (hasQ := hasQuantityAdjustments (markAdjusted (normalize c))) in *.
  pose proof (classify_filled c Hwf) as F0.
  pose proof (strategy1_candidates c s1 fU) as Hcand.
  fold cur hasQ in Hcand.
  destruct (strategy1_spec score _ _ _ _ _ _ E1 F0 (forcedItemsOf_occupied c))
    as (M1 & Hold1 & Hnew1 & HfU & HnfU).
  destruct (strategy2_spec score _ _ _ _ _ E2 F1) as (M2 & K2 & Hf16 & Hn16).
  destruct (strategy3_spec score _ _ _ _ _ E3 F2) as (M3 & K3 & Hf64 & Hn64).
  destruct (strategy4_spec score cur _ (indicesWhere isForced (classify c)) s3 F3
              (fun H => proj1 (Hguard H)) (fun H => proj2 (Hguard H)))
    as (s4' & E4' & Hcases).
  rewrite E4 in E4'. injection E4' as <-.
  destruct (strategy5_spec score cur s4 F4) as (f5 & _ & M5 & K5 & Hf5 & Hn5).
  set (s5 := strategy5 score cur s4) in *.
  pose proof L5 as (F5 & _ & _).
  (* the stack classes after Strategies 2 and 3 *)
  assert (saturated cur 16 s2) as S16_2.
  { destruct f16.
    - apply (saturated_flagged score Hscore); [done|].
      destruct (Hf16 eq_refl) as (i & it & q & Hi & _ & Hst & Hq & Hlt & Hr).
      by exists i, it, q.
    - destruct (hasStackSize 16 (forcedItemsOf c)) eqn:H16.
      + apply saturated_full. by apply Hn16.
      + intros i b q Hi Hf Hst Hq Hlt. exfalso.
        destruct (skeleton_lookup_back _ _ _ _ K2 Hi) as (a & Ha & He).
        assert (hasStackSize 16 (forcedItemsOf c) = true); [|congruence].
        apply (Hcand 16 i a Hwf E1); [done|done| |].
        * by rewrite (erase_isForced _ _ He).
        * by rewrite (erase_item _ _ He). }
  assert (saturated cur 16 s3) as S16_3
    by (by apply (moves_saturated score cur 16 s2 s3 M3 F2)).
  assert (saturated cur 64 s3) as S64_3.
  { destruct f64.
    - apply (saturated_flagged score Hscore); [done|].
      destruct (Hf64 eq_refl) as (i & it & q & Hi & _ & Hst & Hq & Hlt & Hr).
      by exists i, it, q.
    - destruct (hasStackSize 64 (forcedItemsOf c)) eqn:H64.
      + apply saturated_full. by apply Hn64.
      + intros i b q Hi Hf Hst Hq Hlt. exfalso.
        destruct (skeleton_lookup_back _ _ _ _ K3 Hi) as (a2 & Ha2 & He2).
        destruct (skeleton_lookup_back _ _ _ _ K2 Ha2) as (a & Ha & He).
        assert (hasStackSize 64 (forcedItemsOf c) = true); [|congruence].
        apply (Hcand 64 i a Hwf E1); [done|done| |].
        * by rewrite (erase_isForced _ _ He), (erase_isForced _ _ He2).
        * by rewrite (erase_item _ _ He), (erase_item _ _ He2). }
  (* the stack classes at the end *)
  assert (saturated cur 16 s5 /\ saturated cur 64 s5) as [S16 S64].
  { destruct Hcases as [[_ ->]|(Hrun & Hmax & src & Hsrc & Hin & Hfull & Hout)].
    { split; by apply (moves_saturated score cur _ s3 s5 M5 F3). }
    destruct Hout as [[M4 _]|(s'' & M4 & Hc)].
    { split; apply (moves_saturated score cur _ s4 s5 M5 F4); [done| |done|];
        by apply (moves_saturated score cur _ s3 s4 M4 F3). }
    destruct (Hguard Hrun) as [Hforced _].
    pose proof (allMaxed_everyMaxed s3 F3 Hforced Hmax) as Hmax3.
    pose proof (moves_everyMaxed score _ _ _ M4 Hmax3) as Hmax4.
    pose proof (moves_filled _ _ _ _ M4 F3) as F4'.
    assert (forall L, 0 < L -> saturated cur L s3 -> saturated cur L s5) as Hgo.
    { intros L HL HS3.
      destruct (decide (stack_size (item src) = L)) as [Hsame|Hdiff].
      - destruct f5.
        + destruct (Hf5 eq_refl) as (k & t & qt & Hk & Hft & Hqt & Hltt & Hr).
          rewrite (rises_increment score Hscore cur s5 k t qt) in Hr by done.
          apply Z.ltb_lt in Hr.
          rewrite (commit_only_open cur src s'' s4 s5 k t qt) in Hr;
            [|done|done|by eapply moves_grows|done..].
          rewrite Hsame in Hr. by intros j b qb _ _ _ _ _.
        + apply saturated_full. intros i it q Hi Hf Hst Hq.
          rewrite <- Hst. by eapply Hn5.
      - apply (moves_saturated score cur L s4 s5 M5 F4 HL).
        apply (commit_saturated score cur L src s'' s4 Hc F4 HL Hdiff).
        by apply (moves_saturated score cur L s3 s'' M4 F3 HL). }
    split; by apply Hgo. }
  (* the arrays grow and hold the same items *)
  assert (grows s3 s5 /\ sameItems s3 s5 /\ allIndexed s3 /\
          (allIndexed s3 -> allIndexed s5) /\
          (allForced s3 -> allForced s5)) as (G35 & I35 & X3 & X35 & A35).
  { assert (allIndexed s3) as X3.
    { apply (moves_allIndexed _ _ _ _ M3), (moves_allIndexed _ _ _ _ M2),
        (moves_allIndexed _ _ _ _ M1), classify_allIndexed. }
    destruct Hcases as [[_ ->]|(Hrun & Hmax & src & Hsrc & Hin & Hfull & Hout)].
    { split_and!; [by eapply moves_grows|by eapply moves_sameItems|done
                   |by apply (moves_allIndexed _ _ _ _ M5)
                   |by apply (moves_allForced _ _ _ _ M5)]. }
    destruct Hout as [[M4 _]|(s'' & M4 & Hc)].
    { split_and!.
      - etrans; by eapply moves_grows.
      - eapply sameItems_trans; by eapply moves_sameItems.
      - done.
      - intros H. by apply (moves_allIndexed _ _ _ _ M5), (moves_allIndexed _ _ _ _ M4).
      - intros H. by apply (moves_allForced _ _ _ _ M5), (moves_allForced _ _ _ _ M4). }
    split_and!.
    - etrans; [by eapply moves_grows|]. etrans; [by eapply commit_grows|].
      by eapply moves_grows.
    - eapply sameItems_trans; [by eapply moves_sameItems|].
      eapply sameItems_trans; [|by eapply moves_sameItems].
      eapply commit_sameItems; [done|].
      eapply grows_items; [by eapply moves_grows|].
      apply list_elem_of_fmap. eauto.
    - done.
    - intros H. apply (moves_allIndexed _ _ _ _ M5).
      apply (commit_allIndexed score cur src s'' s4 Hc).
      by apply (moves_allIndexed _ _ _ _ M4).
    - intros H. apply (moves_allForced _ _ _ _ M5).
      apply (commit_allForced score cur src s'' s4 Hc).
      by apply (moves_allForced _ _ _ _ M4). }
  assert (grows (classify c) s5) as G05.
  { etrans; [by eapply moves_grows|]. etrans; [by eapply moves_grows|].
    etrans; [by eapply moves_grows|done]. }
  assert (hasQuantityAdjustments (classify c) = hasQ) as HQ0.
  { apply hasQuantityAdjustments_classify. }
  (* the fallback: every slot is a candidate *)
  assert (hasQ = false -> allForced s5 /\ saturatedUnstackable cur s5)
    as Hfallback.
  { intros HQ. destruct (classify_fallback c Hwf HQ) as [A0 _]. split.
    - apply A35, (moves_allForced _ _ _ _ M3), (moves_allForced _ _ _ _ M2),
        (moves_allForced _ _ _ _ M1), A0.
    - apply (saturatedUnstackable_grows cur s1 s5).
      + etrans; [by eapply moves_grows|]. etrans; [by eapply moves_grows|done].
      + eapply sameItems_trans; [by eapply moves_sameItems|].
        eapply sameItems_trans; [by eapply moves_sameItems|done].
      + done.
      + destruct (hasStackSize 1 (forcedItemsOf c)) eqn:HU.
        * destruct fU.
          -- destruct (HfU eq_refl) as (_ & i & target & Hi1 & Hi & Ht & Hr).
             intros _ _.
             by apply (rises_unstackable score Hscore cur s1 i target).
          -- pose proof (HnfU eq_refl eq_refl HQ) as Hno.
             intros _ (i & Hi1 & Hi). by destruct (Hno i Hi1).
        * rewrite strategy1_skipped in E1 by (by left).
          injection E1 as <- <-.
          intros (it & (i & Hi)%elem_of_occupied & Hone) _. exfalso.
          assert (hasStackSize 1 (forcedItemsOf c) = true); [|congruence].
          apply hasStackSize_true. exists it. split; [|done].
          apply elem_of_forcedItemsOf. exists i. split; [done|].
          unfold allForced in A0.
          by apply (Forall_occupied_lookup _ _ _ _ A0 Hi). }
  (* the slots that are not candidates *)
  assert (hasQ = true ->
          forall i b, s5 !! i = Some (Some b) -> isForced b = false ->
                      adjustedIn s5 b = false) as Hkept.
  { intros HQ i b Hi Hb.
    rewrite strategy1_skipped in E1 by (by right). injection E1 as <- <-.
    assert (s4 = s3) as ->.
    { destruct Hcases as [[_ ->]|(Hrun & _)]; [done|].
      apply gapFillingGuard_true in Hrun as [? _]. congruence. }
    assert (rtc (move score cur) (classify c) s5) as M05.
    { exact (rtc_trans _ _ _ M2 (rtc_trans _ _ _ M3 M5)). }
    pose proof (moves_unforced score cur _ _ _ _ M05 Hi Hb) as Hi0.
    assert (skeleton s5 = skeleton (classify c)) as K05 by congruence.
    rewrite (adjustedIn_skeleton (classify c) s5 b b K05) by done.
    unfold classify in Hi0 |- *. fold hasQ in Hi0 |- *. rewrite HQ in Hi0 |- *.
    rewrite markAdjusted_mapSlots in Hi0.
    apply mapSlots_Some in Hi0 as (a & Ha & ->).
    unfold isForced in Hb. simpl in Hb.
    rewrite <- Hb. unfold adjustedIn.
    assert (forall k, countId k (markAdjusted (normalize c))
                    = countId k (normalize c)) as ->; [|done].
    intros k. rewrite markAdjusted_mapSlots. by apply countId_mapSlots. }
  split_and!.
  - done.
  - by apply X35.
  - intros i a q Hi Hc Hq Hlt.
    assert (isForced a = true) as Hf.
    { destruct hasQ eqn:HQ.
      - destruct Hc as [Hc|Hc].
        + rewrite (grows_hasQuantityAdjustments _ _ G05 F5) in Hc; [done|].
          by rewrite HQ0.
        + destruct (isForced a) eqn:Hfa; [done|].
          rewrite (Hkept eq_refl i a Hi Hfa) in Hc. done.
      - destruct (Hfallback eq_refl) as [A5 _].
        by apply (Forall_occupied_lookup _ _ _ _ A5 Hi). }
    destruct F5 as (_ & _ & Hall).
    pose proof (Forall_occupied_lookup _ _ _ _ Hall Hi) as [Hcl (q' & Hq' & Hr)].
    assert (q' = q) as -> by congruence.
    destruct Hcl as [H1|[H16|H64]].
    + lia.
    + rewrite H16. apply (S16 i a q); (done || lia).
    + rewrite H64. apply (S64 i a q); (done || lia).
  - intros HQ5. apply Hfallback.
    destruct hasQ eqn:HQ; [|done].
    rewrite (grows_hasQuantityAdjustments _ _ G05 F5) in HQ5; [done|].
    by rewrite HQ0.
Qed.
(** The arrays of a run grow, hold the items of the classified input, and
    in the fallback hold candidates only. *)
Lemma traced_shape c s1 fU s2 f16 s3 f64 s4 :
  wellFormed c -> occupied c <> [] ->
  traced score c s1 fU s2 f16 s3 f64 s4 ->
  grows (classify c) s3 /\ sameItems (classify c) s3 /\
  grows s3 (strategy5 score (score (normalize c)) s4) /\
  sameItems s3 (strategy5 score (score (normalize c)) s4) /\
  (hasQuantityAdjustments (markAdjusted (normalize c)) = false ->
   allForced s3 /\ allForced (strategy5 score (score (normalize c)) s4)).
Proof.
  intros Hwf Hne Htr.
  destruct (traced_facts score c _ _ _ _ _ _ _ Hwf Hne Htr)
    as (_ & F1 & F2 & F3 & F4 & Hguard).
  destruct Htr as (E1 & E2 & E3 & E4).
  fold (forcedItemsOf c) in *.
  set (cur := score (normalize c)) in *.
  set (hasQ := hasQuantityAdjustments (markAdjusted (normalize c))) in *.
  pose proof (classify_filled c Hwf) as F0.
  destruct (strategy1_spec score _ _ _ _ _ _ E1 F0 (forcedItemsOf_occupied c))
    as (M1 & _).
  destruct (strategy2_spec score _ _ _ _ _ E2 F1) as (M2 & _).
  destruct (strategy3_spec score _ _ _ _ _ E3 F2) as (M3 & _).
  destruct (strategy4_spec score cur _ (indicesWhere isForced (classify c)) s3 F3
              (fun H => proj1 (Hguard H)) (fun H => proj2 (Hguard H)))
    as (s4' & E4' & Hcases).
  rewrite E4 in E4'. injection E4' as <-.
  destruct (strategy5_spec score cur s4 F4) as (f5 & _ & M5 & _).
  set (s5 := strategy5 score cur s4) in *.
  pose proof (rtc_trans _ _ _ M1 (rtc_trans _ _ _ M2 M3)) as M03.
  assert (grows s3 s5 /\ sameItems s3 s5 /\ (allForced s3 -> allForced s5))
    as (G35 & I35 & A35).
  { destruct Hcases as [[_ ->]|(Hrun & Hmax & src & Hsrc & Hin & Hfull & Hout)].
    { split_and!; [by eapply moves_grows|by eapply moves_sameItems
                   |by apply (moves_allForced _ _ _ _ M5)]. }
    destruct Hout as [[M4 _]|(s'' & M4 & Hc)].
    { split_and!.
      - etrans; by eapply moves_grows.
      - eapply sameItems_trans; by eapply moves_sameItems.
      - intros H. by apply (moves_allForced _ _ _ _ M5), (moves_allForced _ _ _ _ M4). }
    split_and!.
    - etrans; [by eapply moves_grows|]. etrans; [by eapply commit_grows|].
      by eapply moves_grows.
    - eapply sameItems_trans; [by eapply moves_sameItems|].
      eapply sameItems_trans; [|by eapply moves_sameItems].
      eapply commit_sameItems; [done|].
      eapply grows_items; [by eapply moves_grows|].
      apply list_elem_of_fmap. eauto.
    - intros H. apply (moves_allForced _ _ _ _ M5).
      apply (commit_allForced score cur src s'' s4 Hc).
      by apply (moves_allForced _ _ _ _ M4). }
  split_and!; [by eapply moves_grows|by eapply moves_sameItems|done..|].
  intros HQ. destruct (classify_fallback c Hwf HQ) as [A0 _].
  pose proof (moves_allForced _ _ _ _ M03 A0) as A3. split; [done|by apply A35].
Qed.
End Settled.

(** ** Score preservation *)

(** C1: for every well-formed container (54 slots, slot 0 empty, quantities
    within the stack limits) the optimizer returns a container whose
    signal strength, as the scorer computes it, equals the signal strength
    of the input. *)
Theorem optimizeForRedstone_preserves_signal (c : Container) :
  wellFormed c ->
  exists o,
    optimizeForRedstone c = Ok o /\
    calculateSignalStrength o = calculateSignalStrength c.
Proof.
  exact (optimize_signal calculateSignalStrength calculateSignalStrength_exact c).
Qed.

Lemma optimizeForRedstone_preserves_signal_witness :
  wellFormed GapFilling.mixed /\
  exists o,
    optimizeForRedstone GapFilling.mixed = Ok o /\
    calculateSignalStrength o = calculateSignalStrength GapFilling.mixed.
Proof.
  assert (wellFormed GapFilling.mixed) as H by wellFormed_sample.
  split; [exact H|]. exact (optimizeForRedstone_preserves_signal _ H).
Defined.

(** ** Loops that change nothing *)

Section Noop.
Context (score : Container -> Z) (cur : Z).

(** Every trial increment raises the signal: the loop undoes the first
    one and stops. *)
Lemma incrementAll_noop limit idxs s :
  (forall i it q,
     i ∈ idxs -> slotAt s i = Some it -> quantity it = Some q ->
     q < limit it ->
     rises score cur (<[i := Some (incrementQuantity it)]> s) = true) ->
  exists f,
    incrementAll score limit cur idxs s = (s, f) /\
    (f = false ->
     forall i it q, i ∈ idxs -> slotAt s i = Some it ->
                    quantity it = Some q -> limit it <= q).
Proof.
  induction idxs as [|i idxs IH]; intros Hr.
  { exists false. split; [done|]. intros _ i it q Hi. by apply elem_of_nil in Hi. }
  destruct IH as (f & Hf & Hno).
  { intros j it q Hj. apply Hr. by right. }
  simpl. destruct (slotAt s i) as [it|] eqn:Hi.
  - unfold iterations. destruct (quantity it) as [q|] eqn:Hq.
    + destruct (Z.to_nat (limit it - q)) as [|n] eqn:Hn.
      * simpl. exists f. split; [done|]. intros Hff j jt qj Hj Hjs Hqj.
        apply elem_of_cons in Hj as [->|Hj]; [|by eapply Hno].
        assert (jt = it) as -> by congruence.
        assert (qj = q) as -> by congruence. lia.
      * simpl. rewrite Hi.
        pose proof (Hr i it q (list_elem_of_here _ _) Hi Hq) as Hrise.
        unfold rises in Hrise. rewrite Hrise by lia.
        exists true. split; [done|]. done.
    + simpl. exists f. split; [done|]. intros Hff j jt qj Hj Hjs Hqj.
      apply elem_of_cons in Hj as [->|Hj]; [|by eapply Hno].
      congruence.
  - exists f. split; [done|]. intros Hff j jt qj Hj Hjs Hqj.
    apply elem_of_cons in Hj as [->|Hj]; [|by eapply Hno].
    congruence.
Qed.

(** Every trial duplicate raises the signal: the loop clears the first
    one and stops. *)
Lemma fillUnstackables_noop target idxs s :
  (forall i, i ∈ idxs -> s !! i = Some None ->
             rises score cur (<[i := Some (duplicateUnstackable target)]> s)
             = true) ->
  exists f,
    fillUnstackables score target cur idxs s = (s, f) /\
    (f = false -> forall i, i ∈ idxs -> s !! i <> Some None).
Proof.
  induction idxs as [|i idxs IH]; intros Hr.
  { exists false. split; [done|]. intros _ i Hi. by apply elem_of_nil in Hi. }
  destruct IH as (f & Hf & Hno).
  { intros j Hj. apply Hr. by right. }
  simpl. destruct (s !! i) as [[a|]|] eqn:Hi.
  - exists f. split; [done|]. intros Hff j [->|Hj]%elem_of_cons; [congruence|].
    by apply Hno.
  - pose proof (Hr i (list_elem_of_here _ _) Hi) as Hrise.
    unfold rises in Hrise. rewrite Hrise.
    exists true. split; [|done].
    by rewrite list_insert_insert_eq, list_insert_id.
  - exists f. split; [done|]. intros Hff j [->|Hj]%elem_of_cons; [congruence|].
    by apply Hno.
Qed.

Lemma fillStackables_noop src idxs s :
  (forall i, i ∈ idxs -> s !! i <> Some None) ->
  fillStackables score src cur idxs s = s.
Proof.
  induction idxs as [|i idxs IH]; intros Hno; [done|].
  simpl. destruct (s !! i) as [[a|]|] eqn:Hi.
  - apply IH. intros j Hj. apply Hno. by right.
  - by destruct (Hno i (list_elem_of_here _ _)).
  - apply IH. intros j Hj. apply Hno. by right.
Qed.

Lemma strategy4_noop run forced s :
  (run = true -> noEmpty s /\ omap (slotAt s) forced <> []) ->
  strategy4 score run forced cur s = Ok s.
Proof.
  intros Hrun. unfold strategy4. destruct run; [|done].
  destruct (allMaxed s); [|done]. destruct (Hrun eq_refl) as [Hno Hne].
  unfold chooseItemToDuplicate.
  destruct (omap (slotAt s) forced) as [|first others]; [done|].
  f_equal. apply fillStackables_noop.
  intros i [Hi _]%elem_of_fromOne. by apply Hno.
Qed.
End Noop.

(** ** The output as an input *)

Lemma filter_all {A} (P : A -> Prop) `{!forall x, Decision (P x)} (l : list A) :
  Forall P l -> filter P l = l.
Proof.
  induction 1 as [|x l Hx _ IH]; [done|]. by rewrite filter_cons_True, IH.
Qed.

Lemma filter_none {A} (P : A -> Prop) `{!forall x, Decision (P x)} (l : list A) :
  Forall (fun x => ~ P x) l -> filter P l = [].
Proof.
  induction 1 as [|x l Hx _ IH]; [done|]. by rewrite filter_cons_False, IH.
Qed.

Lemma mapSlots_id f (s : Container) :
  (forall x, x ∈ occupied s -> f x = x) -> mapSlots f s = s.
Proof.
  intros Hf. apply list_eq. intros i. rewrite mapSlots_lookup.
  destruct (s !! i) as [[x|]|] eqn:Hi; simpl; [|done..].
  rewrite Hf; [done|]. apply elem_of_occupied. eauto.
Qed.

Lemma fillOf_profile s s' : profile s ≡ₚ profile s' -> fillOf s = fillOf s'.
Proof.
  intros Hp. unfold fillOf. rewrite !fill64_profile.
  fold (profile s) (profile s'). revert Hp. generalize (profile s) (profile s').
  induction 1; simpl; lia.
Qed.

Lemma quantity_gt_or_1 it : quantity_gt it 1 = (1 <? quantity_or_1 it).
Proof.
  unfold quantity_gt, quantity_or_1. destruct (quantity it) as [q|]; [|done].
  destruct (Z.eqb_spec q 0) as [->|]; done.
Qed.

Lemma hasQuantityAdjustments_profile s s' :
  profile s ≡ₚ profile s' ->
  hasQuantityAdjustments s = hasQuantityAdjustments s'.
Proof.
  intros Hp.
  assert (forall t, hasQuantityAdjustments t
                    = existsb (fun p : Z * Z => 1 <? p.1) (profile t)) as Hq.
  { intros t. unfold hasQuantityAdjustments, profile.
    induction (occupied t) as [|a l IH]; [done|]. rewrite fmap_cons. simpl.
    by rewrite IH, quantity_gt_or_1. }
  rewrite !Hq. revert Hp. generalize (profile s) (profile s').
  induction 1 as [|x l k _ IH|x y l|l k m _ IH1 _ IH2]; simpl.
  - done.
  - by rewrite IH.
  - by rewrite !orb_assoc, (orb_comm (1 <? y.1)).
  - by rewrite IH1.
Qed.

(** Two empty slots, the reserved one and another, leave room. *)
Lemma empty_slot_room (s : Container) i :
  s !! 0%nat = Some None -> (1 <= i)%nat -> s !! i = Some None ->
  (length (occupied s) + 2 <= length s)%nat.
Proof.
  intros H0 Hi1 Hi. rewrite (occupied_split s i None Hi). simpl.
  rewrite length_app.
  assert (length (occupied (take i s)) < length (take i s))%nat as H1.
  { apply length_occupied_reserved. rewrite lookup_take_lt by lia. done. }
  pose proof (length_occupied_le (drop (S i) s)) as H2.
  rewrite length_take in H1. rewrite length_drop in H2.
  pose proof (lookup_lt_Some _ _ _ Hi). lia.
Qed.

(** Fewer than 53 occupied slots leave an empty slot after the reserved
    one. *)
Lemma room_empty_slot (s : Container) :
  length s = 54%nat -> s !! 0%nat = Some None ->
  (length (occupied s) < 53)%nat ->
  exists i, (1 <= i)%nat /\ s !! i = Some None.
Proof.
  intros Hlen H0 Hocc. destruct s as [|o t]; [done|].
  simpl in H0. injection H0 as ->. rewrite occupied_cons_None in Hocc.
  simpl in Hlen.
  assert (forall t : Container,
            (length (occupied t) < length t)%nat ->
            exists i, t !! i = Some None) as Hex.
  { clear. induction t as [|[a|] t IH]; intros Hl.
    - simpl in Hl. lia.
    - rewrite occupied_cons_Some in Hl. simpl in Hl.
      destruct IH as [i Hi]; [lia|]. by exists (S i).
    - by exists 0%nat. }
  destruct (Hex t) as [i Hi]; [lia|]. exists (S i). split; [lia|done].
Qed.

Section Output.
Context (s5 o : Container).
Context (Hfil : filled s5) (Hidx : allIndexed s5).
Context (Hlay : layout (markAdjusted s5) = Ok o).

Lemma output_shape :
  o = None :: (Some <$> unadjustedGroup (markAdjusted s5))
           ++ replicate (padding (markAdjusted s5)) None
           ++ (Some <$> adjustedGroup (markAdjusted s5)).
Proof.
  pose proof (filled_scorable _ Hfil) as [_ Hlen].
  rewrite layout_Ok in Hlay; [congruence|].
  by rewrite markAdjusted_mapSlots, occupied_mapSlots, length_fmap.
Qed.

Lemma output_occupied : occupied o ≡ₚ finalSlot s5 <$> occupied s5.
Proof.
  rewrite (occupied_layout_perm _ _ Hlay). by rewrite finalSlots_markAdjusted.
Qed.

Lemma output_elem x :
  x ∈ occupied o -> exists a, a ∈ occupied s5 /\ x = finalSlot s5 a.
Proof.
  rewrite output_occupied. intros (a & -> & Ha)%list_elem_of_fmap. eauto.
Qed.

Lemma output_filled : filled o.
Proof.
  destruct (layout_filled s5 Hfil) as (o' & Ho' & Hfo). congruence.
Qed.

Lemma output_profile : profile o ≡ₚ profile s5.
Proof. by apply profile_layout. Qed.

Lemma output_adjustedIn a :
  adjustedIn o (finalSlot s5 a) = adjustedIn s5 a.
Proof. unfold adjustedIn. by rewrite (countId_layout _ _ _ Hlay). Qed.

Lemma output_marked : markAdjusted o = o.
Proof.
  rewrite markAdjusted_mapSlots. apply mapSlots_id.
  intros x (a & _ & ->)%output_elem. by rewrite output_adjustedIn.
Qed.

Lemma output_normalized : normalize o = o.
Proof.
  apply list_eq. intros i. rewrite normalize_lookup.
  destruct (o !! i) as [[x|]|] eqn:Hi; simpl; [|done..].
  do 2 f_equal.
  assert (x ∈ occupied o) as (a & Ha & ->)%output_elem
    by (apply elem_of_occupied; eauto).
  destruct Hfil as (_ & _ & Hall). rewrite Forall_forall in Hall.
  destruct (Hall a Ha) as [_ (q & Hq & Hr)].
  unfold allIndexed in Hidx. rewrite Forall_forall in Hidx.
  destruct (Hidx a Ha) as [k Hk].
  unfold normalizeSlot, finalSlot, quantity_or_1. simpl. rewrite Hq, Hk. simpl.
  destruct (Z.eqb_spec q 0); [lia|]. destruct a. simpl in *. by subst.
Qed.

Lemma output_layout : layout o = Ok o.
Proof.
  pose proof output_filled as Hfo.
  pose proof (filled_scorable _ Hfo) as [_ Hlen].
  rewrite (layout_Ok o Hlen). f_equal.
  set (U := unadjustedGroup (markAdjusted s5)) in *.
  set (A := adjustedGroup (markAdjusted s5)) in *.
  assert (Forall (fun x => isForced x = false) U) as HU.
  { apply Forall_forall. intros x Hx. by apply list_elem_of_filter in Hx as [? _]. }
  assert (Forall (fun x => isForced x = true) A) as HA.
  { apply Forall_forall. intros x Hx. unfold A, adjustedGroup in Hx.
    rewrite sortAdjusted_perm in Hx. by apply list_elem_of_filter in Hx as [? _]. }
  assert (occupied o = U ++ A) as Hocc
    by (rewrite output_shape at 1; apply occupied_layout).
  assert (finalSlots o = U ++ A) as Hfin.
  { unfold finalSlots. rewrite <- Hocc.
    rewrite <- (list_fmap_id (occupied o)) at 2.
    apply list_fmap_ext. intros j x Hj%list_elem_of_lookup_2.
    by apply output_elem in Hj as (a & _ & ->). }
  assert (unadjustedGroup o = U) as HU'.
  { unfold unadjustedGroup. rewrite Hfin, filter_app.
    rewrite (filter_all _ U HU), (filter_none _ A); [by rewrite app_nil_r|].
    eapply Forall_impl; [exact HA|]. intros x ->. done. }
  assert (adjustedGroup o = A) as HA'.
  { unfold adjustedGroup at 1. rewrite Hfin, filter_app.
    rewrite (filter_all _ A HA), (filter_none _ U); [|].
    - simpl. apply sortAdjusted_id. apply sortAdjusted_sorted.
    - eapply Forall_impl; [exact HU|]. intros x ->. done. }
  unfold padding at 1. rewrite HU', HA'. symmetry. apply output_shape.
Qed.
End Output.

(** ** A second run changes nothing *)

Lemma markAdjusted_markAll s : markAdjusted (markAll s) = markAdjusted s.
Proof.
  rewrite !markAdjusted_mapSlots, markAll_mapSlots.
  apply list_eq. intros i. rewrite !mapSlots_lookup.
  destruct (s !! i) as [[a|]|]; simpl; [|done..].
  do 2 f_equal. unfold adjustedIn.
  by rewrite countId_mapSlots.
Qed.

Section StrategiesNoop.
Context (score : Container -> Z) (cur : Z).

Lemma strategy1_noop hasQ (forcedItems : list Slot) s :
  (hasQ = false ->
   forall target i,
     target ∈ forcedItems -> stack_size (item target) = 1 ->
     (1 <= i)%nat -> s !! i = Some None ->
     rises score cur (<[i := Some (duplicateUnstackable target)]> s) = true) ->
  exists fU,
    strategy1 score (hasStackSize 1 forcedItems) hasQ forcedItems cur s
    = (s, fU) /\
    (fU = false -> hasStackSize 1 forcedItems = true -> hasQ = false ->
     noEmpty s).
Proof.
  intros Hr. unfold strategy1.
  destruct (hasStackSize 1 forcedItems) eqn:HU; [|by exists false].
  destruct hasQ; [by exists false|]. simpl.
  destruct (filter (fun it => stack_size (item it) = 1) forcedItems)
    as [|first rest] eqn:Hfilter.
  { exfalso. apply hasStackSize_true in HU as (it & Hit & Hst).
    assert (it ∈ filter (fun it => stack_size (item it) = 1) forcedItems) as Hin
      by (by apply list_elem_of_filter).
    rewrite Hfilter in Hin. by apply elem_of_nil in Hin. }
  set (target := foldl pickUnstackable first (first :: rest)).
  assert (target ∈ first :: rest) as Ht.
  { pose proof (foldl_choice pickUnstackable first (first :: rest)
                  pickUnstackable_choice) as H.
    fold target in H. by apply elem_of_cons in H as [->|H]; [left|]. }
  rewrite <- Hfilter in Ht. apply list_elem_of_filter in Ht as [Hts Htin].
  destruct (fillUnstackables_noop score cur target (fromOne s) s) as (f & Hf & Hno).
  { intros i [Hi1 _]%elem_of_fromOne Hi. by apply (Hr eq_refl target i). }
  exists f. split; [done|]. intros -> _ _.
  apply noEmpty_fromOne. by apply Hno.
Qed.

Lemma incrementClass_noop L s :
  (forall i it q,
     s !! i = Some (Some it) -> isForced it = true ->
     stack_size (item it) = L -> quantity it = Some q -> q < L ->
     rises score cur (<[i := Some (incrementQuantity it)]> s) = true) ->
  exists f,
    incrementAll score (fun _ => L) cur
      (fromEnd (fun it => isForced it && (stack_size (item it) =? L)) s) s
    = (s, f) /\
    (f = false ->
     forall i it q,
       (1 <= i)%nat -> s !! i = Some (Some it) -> isForced it = true ->
       stack_size (item it) = L -> quantity it = Some q -> L <= q).
Proof.
  intros Hr.
  destruct (incrementAll_noop score cur (fun _ => L)
              (fromEnd (fun it => isForced it && (stack_size (item it) =? L)) s) s)
    as (f & Hf & Hno).
  { intros i it q (Hi1 & it' & Hi & Hp)%elem_of_fromEnd His Hq Hlt.
    apply slotAt_Some in His. assert (it' = it) as -> by congruence.
    apply andb_true_iff in Hp as [Hfo Hst%Z.eqb_eq]. by apply (Hr i it q). }
  exists f. split; [done|]. intros Hff i it q Hi1 Hi Hfo Hst Hq.
  apply (Hno Hff i it q); [|by apply slotAt_Some|done].
  apply elem_of_fromEnd. split; [done|]. exists it. split; [done|].
  apply andb_true_iff. split; [done|]. by apply Z.eqb_eq.
Qed.

Lemma strategy5_noop s :
  (forall i it q,
     s !! i = Some (Some it) -> isForced it = true ->
     quantity it = Some q -> q < stack_size (item it) ->
     rises score cur (<[i := Some (incrementQuantity it)]> s) = true) ->
  strategy5 score cur s = s.
Proof.
  intros Hr. unfold strategy5.
  destruct (incrementAll_noop score cur (fun it => stack_size (item it))
              (reverse (indicesWhere belowLimit s)) s) as (f & -> & _); [|done].
  intros i it q (it' & Hi & Hp)%elem_of_reverse%elem_of_indicesWhere His Hq Hlt.
  apply slotAt_Some in His. assert (it' = it) as -> by congruence.
  apply belowLimit_true in Hp as [Hfo _]. by apply (Hr i it q).
Qed.
End StrategiesNoop.

Section SecondRun.
Context (score : Container -> Z).
Context (Hscore : forall s,
            Forall scorable (occupied s) -> (length (occupied s) <= 54)%nat ->
            score s = exactSignalStrength s).

Theorem settled_fixpoint cur s5 o :
  settled score cur s5 -> layout (markAdjusted s5) = Ok o ->
  optimize score o = Ok o.
Proof.
  intros ((Hfil & Hne & Hcur) & Hidx & Hcands & Hunst) Hlay.
  pose proof (output_filled s5 o Hfil Hlay) as Hfo.
  pose proof (output_normalized s5 o Hfil Hidx Hlay) as Hno.
  pose proof (output_marked s5 o Hlay) as Hma.
  pose proof (output_layout s5 o Hfil Hlay) as Hlo.
  pose proof (output_profile s5 o Hlay) as Hpr.
  pose proof (filled_wellFormed o Hfo) as Hwf.
  pose proof (filled_scorable _ Hfo) as [Hso Hlo53].
  assert (length (occupied o) = length (occupied s5)) as Hlen
    by (by rewrite <- !length_profile, Hpr).
  assert (occupied o <> []) as Hneo.
  { intros He. rewrite He in Hlen. symmetry in Hlen.
    by apply nil_length_inv in Hlen. }
  assert (hasQuantityAdjustments o = hasQuantityAdjustments s5) as HQo
    by (by apply hasQuantityAdjustments_profile).
  assert (score o = cur) as Hsc.
  { rewrite <- Hcur. apply (score_profile score Hscore); [done|lia|done]. }
  assert (hasQuantityAdjustments (classify o) = hasQuantityAdjustments o) as HQw
    by (by rewrite hasQuantityAdjustments_classify, Hno, Hma).
  assert (classify o
          = if hasQuantityAdjustments o then o else markAll o) as Ww
    by (unfold classify; by rewrite Hno, Hma).
  assert (markAdjusted (classify o) = o) as Wmark.
  { rewrite Ww. destruct (hasQuantityAdjustments o); [done|].
    by rewrite markAdjusted_markAll. }
  pose proof (classify_filled o Hwf) as Fw.
  assert (fillOf (classify o) = fillOf s5) as Hfw.
  { apply fillOf_profile. by rewrite classify_profile. }
  assert (forall i x,
            classify o !! i = Some (Some x) ->
            exists a, a ∈ occupied s5 /\ item x = item a /\
                      quantity x = quantity a /\
                      (isForced x = true -> candidate s5 a)) as Wlook.
  { intros i x Hi. rewrite Ww in Hi.
    destruct (hasQuantityAdjustments o) eqn:HQ.
    - assert (x ∈ occupied o) as (a & Ha & ->)%(output_elem s5 o Hlay)
        by (apply elem_of_occupied; eauto).
      exists a. split_and!; [done..|]. intros Hf. by right.
    - rewrite markAll_mapSlots in Hi. apply mapSlots_Some in Hi as (y & Hy & ->).
      assert (y ∈ occupied o) as (a & Ha & ->)%(output_elem s5 o Hlay)
        by (apply elem_of_occupied; eauto).
      exists a. split_and!; [done..|]. intros _. left. congruence. }
  assert (forall i x q,
            classify o !! i = Some (Some x) -> isForced x = true ->
            quantity x = Some q -> q < stack_size (item x) ->
            rises score cur (<[i := Some (incrementQuantity x)]> (classify o))
            = true) as Wtrial.
  { intros i x q Hi Hf Hq Hlt.
    rewrite (rises_increment score Hscore cur _ i x q) by done.
    apply Z.ltb_lt. rewrite Hfw.
    destruct (Wlook i x Hi) as (a & (j & Hj)%elem_of_occupied & Hia & Hqa & Hc).
    rewrite Hia. apply (Hcands j a q); [done|by apply Hc|congruence|].
    by rewrite <- Hia. }
  assert (hasQuantityAdjustments o = false ->
          forall target i,
            target ∈ forcedItemsOf o -> stack_size (item target) = 1 ->
            (1 <= i)%nat -> classify o !! i = Some None ->
            rises score cur
              (<[i := Some (duplicateUnstackable target)]> (classify o))
            = true) as Wdup.
  { intros HQ target i (k & Hk & _)%elem_of_forcedItemsOf Hst Hi1 Hi.
    rewrite (rises_full score Hscore cur _ i (duplicateUnstackable target));
      [|done..| |].
    - apply Z.ltb_lt. rewrite Hfw.
      destruct (Wlook k target Hk) as (a & Ha & Hia & _).
      apply Hunst.
      + congruence.
      + exists a. split; [done|]. by rewrite <- Hia.
      + destruct Hfil as (Hl5 & H05 & _). apply room_empty_slot; [done..|].
        destruct Fw as (Hlw & H0w & _).
        pose proof (empty_slot_room _ i H0w Hi1 Hi) as Hroom.
        assert (length (occupied (classify o)) = length (occupied o)) as Hlc
          by (by rewrite <- !length_profile, classify_profile).
        lia.
    - simpl. rewrite Hst. by left.
    - simpl. by rewrite Hst. }
  destruct (optimize_traced score o Hwf Hneo)
    as (s1 & fU & s2 & f16 & s3 & f64 & s4 & Htr & Hopt).
  destruct Htr as (E1 & E2 & E3 & E4).
  fold (forcedItemsOf o) in *.
  rewrite Hno in E1, E2, E3, E4, Hopt.
  rewrite Hma in E1, E4. rewrite Hsc in E1, E2, E3, E4, Hopt.
  destruct (strategy1_noop score cur (hasQuantityAdjustments o)
              (forcedItemsOf o) (classify o) Wdup) as (fU' & E1' & HnoE).
  rewrite E1' in E1. injection E1 as <- <-.
  destruct (incrementClass_noop score cur 16 (classify o)) as (g16 & G16 & N16).
  { intros i it q Hi Hf Hst Hq Hlt. apply (Wtrial i it q); [done..|lia]. }
  destruct (incrementClass_noop score cur 64 (classify o)) as (g64 & G64 & N64).
  { intros i it q Hi Hf Hst Hq Hlt. apply (Wtrial i it q); [done..|lia]. }
  assert (forall L f,
            (f = false ->
             forall i it q,
               (1 <= i)%nat -> classify o !! i = Some (Some it) ->
               isForced it = true -> stack_size (item it) = L ->
               quantity it = Some q -> L <= q) ->
            1 < L -> f = false -> hasStackSize L (forcedItemsOf o) = true ->
            hasQuantityAdjustments o = true) as Hfull.
  { intros L f HN HL -> (x & (i & Hi & Hf)%elem_of_forcedItemsOf & Hst)%hasStackSize_true.
    destruct Fw as (_ & _ & Hall).
    pose proof (Forall_occupied_lookup _ _ _ _ Hall Hi) as [_ (q & Hq & Hr)].
    pose proof (HN eq_refl i x q
                  (filled_occupied_index _ _ _ (classify_filled o Hwf) Hi)
                  Hi Hf Hst Hq) as Hle.
    rewrite <- HQw. apply existsb_elem_of. exists x.
    split; [apply elem_of_occupied; eauto|].
    unfold quantity_gt. rewrite Hq. apply Z.ltb_lt. lia. }
  assert (s2 = classify o /\
          (f16 = false -> hasStackSize 16 (forcedItemsOf o) = true ->
           hasQuantityAdjustments o = true)) as [-> H16].
  { unfold strategy2 in E2.
    destruct (hasStackSize 16 (forcedItemsOf o)) eqn:Hh.
    - rewrite G16 in E2. injection E2 as <- <-. split; [done|].
      intros Hg _. apply (Hfull 16 g16 N16); [lia|done..].
    - injection E2 as <- <-. split; [done|]. by intros _ ?. }
  assert (s3 = classify o /\
          (f64 = false -> hasStackSize 64 (forcedItemsOf o) = true ->
           hasQuantityAdjustments o = true)) as [-> H64].
  { unfold strategy3 in E3.
    destruct (hasStackSize 64 (forcedItemsOf o)) eqn:Hh.
    - rewrite G64 in E3. injection E3 as <- <-. split; [done|].
      intros Hg _. apply (Hfull 64 g64 N64); [lia|done..].
    - injection E3 as <- <-. split; [done|]. by intros _ ?. }
  rewrite strategy4_noop in E4.
  - injection E4 as <-.
    rewrite strategy5_noop in Hopt by done.
    by rewrite Wmark, Hlo in Hopt.
  - intros (HQ & Hwhich)%gapFillingGuard_true.
    destruct Hwhich as [[HfU HU]|[[Hf Hh]|[Hf Hh]]].
    + split; [by apply HnoE|].
      apply hasStackSize_true in HU as (x & Hx & _).
      unfold forcedItemsOf in Hx. intros He. rewrite He in Hx.
      by apply elem_of_nil in Hx.
    + rewrite (H16 Hf Hh) in HQ. done.
    + rewrite (H64 Hf Hh) in HQ. done.
Qed.
End SecondRun.

(** ** Idempotence *)

Lemma optimize_idempotent score :
  (forall s, Forall scorable (occupied s) -> (length (occupied s) <= 54)%nat ->
             score s = exactSignalStrength s) ->
  forall c, wellFormed c ->
  exists o, optimize score c = Ok o /\ optimize score o = Ok o.
Proof.
  intros Hscore c Hwf. destruct (decide (occupied c = [])) as [He|Hne].
  { exists c. split; by apply optimize_empty. }
  destruct (optimize_traced score c Hwf Hne)
    as (s1 & fU & s2 & f16 & s3 & f64 & s4 & Htr & Hopt).
  pose proof (traced_settled score Hscore c _ _ _ _ _ _ _ Hwf Hne Htr) as Hset.
  pose proof Hset as ((Hfil & _) & _).
  destruct (layout_filled _ Hfil) as (o & Ho & _).
  exists o. split; [congruence|].
  by apply (settled_fixpoint score Hscore _ _ o Hset).
Qed.

(** C2: for every well-formed container the optimizer applied to its own
    result returns that result again, equal in every slot and in every
    field of every slot: the item, the quantity and the annotations
    originalIndex, isDuplicate, isAdjusted and forceAdjusted. *)
Theorem optimizeForRedstone_idempotent (c : Container) :
  wellFormed c ->
  exists o, optimizeForRedstone c = Ok o /\ optimizeForRedstone o = Ok o.
Proof.
  exact (optimize_idempotent calculateSignalStrength
           calculateSignalStrength_exact c).
Qed.

Lemma optimizeForRedstone_idempotent_witness :
  wellFormed Samples.oneUnstackable /\
  exists o,
    optimizeForRedstone Samples.oneUnstackable = Ok o /\
    optimizeForRedstone o = Ok o.
Proof.
  assert (wellFormed Samples.oneUnstackable) as H by wellFormed_sample.
  split; [exact H|]. exact (optimizeForRedstone_idempotent _ H).
Defined.

(** ** The threshold test on containers of one stack class *)

Lemma singleUnits_hasQuantityAdjustments c :
  singleUnits c -> hasQuantityAdjustments c = false.
Proof.
  unfold singleUnits, hasQuantityAdjustments.
  induction 1 as [|a l Ha _ IH]; [done|]. simpl.
  by rewrite IH, quantity_gt_or_1, Ha.
Qed.

Lemma fill64_units_bound l :
  Forall (fun it => quantity it = Some 1) l ->
  Forall (fun it => stack_size (item it) = 16 \/ stack_size (item it) = 64) l ->
  fill64 l <= 4 * Z.of_nat (length l).
Proof.
  induction 1 as [|a l Ha _ IH]; [done|]. intros [Hc Hl]%Forall_cons.
  change (fill64 (a :: l))
    with (quantity_or_1 a * (64 / stackLimit a) + fill64 l).
  rewrite length_cons, Nat2Z.inj_succ.
  rewrite (quantity_or_1_Some a 1 Ha) by lia.
  pose proof (IH Hl). unfold stackLimit.
  destruct Hc as [-> | ->];
    [change (1 * (64 / Z.min 64 (if 16 =? 0 then 64 else 16))) with 4
    |change (1 * (64 / Z.min 64 (if 64 =? 0 then 64 else 64))) with 1]; lia.
Qed.

Lemma noEmpty_full s : filled s -> noEmpty s -> length (occupied s) = 53%nat.
Proof.
  intros Hfil Hno. pose proof (filled_scorable _ Hfil) as [_ Hle].
  destruct Hfil as (Hlen & H0 & _).
  destruct (decide (length (occupied s) < 53)%nat) as [Hlt|]; [|lia].
  destruct (room_empty_slot s Hlen H0 Hlt) as (i & Hi1 & Hi).
  by destruct (Hno i Hi1).
Qed.

Lemma everyMaxed_allMaxed s : everyMaxed s -> allMaxed s = true.
Proof.
  intros Hmax. unfold allMaxed. apply negb_true_iff.
  destruct (existsb belowLimit (occupied s)) eqn:He; [|done].
  apply existsb_elem_of in He as (it & Hit & Hb).
  apply belowLimit_true in Hb as (_ & q & Hq & Hlt).
  unfold everyMaxed in Hmax. rewrite Forall_forall in Hmax.
  pose proof (Hmax it Hit) as Hfull. simpl in Hfull.
  rewrite Hq in Hfull. injection Hfull as ->. lia.
Qed.

Lemma pickLargest_choice a b : pickLargest a b = a \/ pickLargest a b = b.
Proof. unfold pickLargest. destruct (_ <? _); auto. Qed.

Lemma largestStackSizeItem_elem s l :
  largestStackSizeItem s = Ok l -> l ∈ occupied s.
Proof.
  unfold largestStackSizeItem.
  destruct (occupied s) as [|first others]; [done|]. intros [= <-].
  apply foldl_choice, pickLargest_choice.
Qed.

Lemma largestStackSizeItem_Ok s :
  occupied s <> [] -> exists l, largestStackSizeItem s = Ok l.
Proof.
  unfold largestStackSizeItem.
  destruct (occupied s) as [|first others]; [done|]. eauto.
Qed.

Lemma sameItems_singleClass L s s' :
  sameItems s s' -> singleClass L s -> singleClass L s'.
Proof.
  unfold singleClass. rewrite !Forall_forall. intros Hi Hs x Hx.
  assert (item x ∈ item <$> occupied s) as (a & -> & Ha)%list_elem_of_fmap.
  { apply Hi, list_elem_of_fmap. eauto. }
  by apply Hs.
Qed.

Lemma classify_singleClass L c : singleClass L c -> singleClass L (classify c).
Proof.
  unfold singleClass. rewrite !Forall_forall.
  intros Hs x (i & Hi)%elem_of_occupied.
  destruct (classify_lookup c i x Hi) as (a & v & Ha & ->).
  apply (Hs a). apply elem_of_occupied. eauto.
Qed.

Section Threshold.
Context (score : Container -> Z).
Context (Hscore : forall s,
            Forall scorable (occupied s) -> (length (occupied s) <= 54)%nat ->
            score s = exactSignalStrength s).

(** An array of full stacks that holds a slot which was below its limit
    when a trial increment raised the signal is above the signal. *)
Lemma full_after_flag cur L s3 s5 i it q :
  filled s3 -> atLevel score cur s5 -> everyMaxed s5 -> grows s3 s5 ->
  L = 16 \/ L = 64 ->
  s3 !! i = Some (Some it) -> stack_size (item it) = L ->
  quantity it = Some q -> q < L ->
  rises score cur (<[i := Some (incrementQuantity it)]> s3) = true -> False.
Proof.
  intros F3 (F5 & Hne5 & L5) Hmax Hg HL Hi Hst Hq Hlt Hr.
  rewrite (rises_increment score Hscore cur s3 i it q) in Hr by (done || lia).
  apply Z.ltb_lt in Hr. rewrite Hst in Hr.
  destruct (grows_lookup _ _ _ _ Hg Hi) as (b & Hb & He & _).
  pose proof (Forall_occupied_lookup _ _ _ _ Hmax Hb) as Hfull. simpl in Hfull.
  pose proof (filled_scorable _ F5) as [Hs5 _].
  pose proof (grows_fill_at _ _ i _ _ Hg Hs5 Hi Hb) as Hle.
  rewrite !share_Some in Hle.
  assert (stackLimit b = stackLimit it) as Hlim
    by (unfold stackLimit; by rewrite (erase_item _ _ He)).
  rewrite Hlim in Hle. rewrite <- (erase_item _ _ He), Hst in Hfull.
  destruct F3 as (_ & _ & Hall).
  pose proof (Forall_occupied_lookup _ _ _ _ Hall Hi) as [Hc (q' & Hq' & Hrange)].
  assert (q' = q) as -> by congruence.
  rewrite stackLimit_class, Hst in Hle by done.
  rewrite (quantity_or_1_Some it q Hq) in Hle by lia.
  rewrite (quantity_or_1_Some b L Hfull) in Hle by lia.
  rewrite (score_filled score Hscore) in L5 by done.
  assert (fillOf s3 + 64 / L <= fillOf s5) as Hle'.
  { destruct HL as [-> | ->];
      [change (64 / 16) with 4 in *|change (64 / 64) with 1 in *]; lia. }
  pose proof (signalOfFill_mono _ _ Hle'). lia.
Qed.

Lemma single_class_crossing c L s1 fU s2 f16 s3 f64 s4 :
  wellFormed c -> occupied c <> [] ->
  traced score c s1 fU s2 f16 s3 f64 s4 ->
  singleClass L c -> singleUnits c ->
  singleClass L (strategy5 score (score (normalize c)) s4) /\
  score (normalize c)
  < signalOfFill (fillOf (strategy5 score (score (normalize c)) s4) + 64 / L).
Proof.
  intros Hwf Hne Htr HL Hunits.
  destruct (traced_levels score Hscore c _ _ _ _ _ _ _ Hwf Hne Htr)
    as (L0 & L1 & L2 & L3 & L4 & L5).
  destruct (traced_facts score c _ _ _ _ _ _ _ Hwf Hne Htr)
    as (_ & F1 & F2 & F3 & F4 & Hguard).
  destruct (traced_shape score c _ _ _ _ _ _ _ Hwf Hne Htr)
    as (G03 & I03 & G35 & I35 & Hforced).
  destruct Htr as (E1 & E2 & E3 & E4).
  fold (forcedItemsOf c) in *.
  set (cur := score (normalize c)) in *.
  assert (hasQuantityAdjustments (markAdjusted (normalize c)) = false) as HQ.
  { rewrite hasQuantityAdjustments_markAdjusted.
    rewrite (hasQuantityAdjustments_profile (normalize c) c)
      by (by rewrite profile_normalize).
    by apply singleUnits_hasQuantityAdjustments. }
  rewrite HQ in *.
  destruct (Hforced eq_refl) as [A3 A5].
  destruct (classify_fallback c Hwf HQ) as [A0 One0].
  pose proof (classify_filled c Hwf) as F0.
  pose proof (classify_singleClass L c HL) as C0.
  pose proof (sameItems_singleClass L _ _ I03 C0) as C3.
  pose proof (sameItems_singleClass L _ _ I35 C3) as C5.
  destruct (strategy1_spec score _ _ _ _ _ _ E1 F0 (forcedItemsOf_occupied c))
    as (M1 & Hold1 & Hnew1 & HfU & HnfU).
  destruct (strategy2_spec score _ _ _ _ _ E2 F1) as (M2 & K2 & Hf16 & Hn16).
  destruct (strategy3_spec score _ _ _ _ _ E3 F2) as (M3 & K3 & Hf64 & Hn64).
  destruct (strategy4_spec score cur _ (indicesWhere isForced (classify c)) s3 F3
              (fun H => proj1 (Hguard H)) (fun H => proj2 (Hguard H)))
    as (s4' & E4' & Hcases).
  rewrite E4 in E4'. injection E4' as <-.
  destruct (strategy5_spec score cur s4 F4) as (f5 & _ & M5 & K5 & Hf5 & Hn5).
  set (s5 := strategy5 score cur s4) in *.
  pose proof L5 as (F5 & Hne5 & Hcur5).
  split; [done|].
  (* a candidate of the class exists *)
  pose proof L0 as (_ & Hne0 & Hcur0).
  destruct (occupied (classify c)) as [|x0 rest] eqn:Hocc0; [done|].
  assert (x0 ∈ occupied (classify c)) as Hx0 by (rewrite Hocc0; by left).
  rewrite <- Hocc0 in *. clear Hocc0 rest.
  assert (stack_size (item x0) = L) as Hx0L
    by (unfold singleClass in C0; rewrite Forall_forall in C0; by apply C0).
  assert (stackClass L) as HcL.
  { destruct F0 as (_ & _ & Hall). rewrite Forall_forall in Hall.
    destruct (Hall x0 Hx0) as [Hc _]. by rewrite Hx0L in Hc. }
  assert (hasStackSize L (forcedItemsOf c) = true) as HhasL.
  { apply hasStackSize_true. exists x0. split; [|done].
    pose proof Hx0 as (i & Hi)%elem_of_occupied.
    apply elem_of_forcedItemsOf. exists i. split; [done|].
    unfold allForced in A0. rewrite Forall_forall in A0. by apply A0. }
  assert (forall K, K <> L -> hasStackSize K (forcedItemsOf c) = false) as Hother.
  { intros K HK. destruct (hasStackSize K (forcedItemsOf c)) eqn:Hh; [|done].
    apply hasStackSize_true in Hh as (x & Hx%forcedItemsOf_occupied & Hst).
    unfold singleClass in C0. rewrite Forall_forall in C0.
    rewrite (C0 x Hx) in Hst. congruence. }
  assert (grows s1 s5) as G15.
  { etrans; [by eapply moves_grows|].
    etrans; [by eapply moves_grows|done]. }
  destruct (decide (L = 1)) as [->|HL1].
  { (* unstackables *)
    change (64 / 1) with 64.
    assert (fillOf s1 <= fillOf s5) as Hle
      by (apply grows_fill64; [done|by apply filled_scorable]).
    destruct fU.
    - destruct (HfU eq_refl) as (_ & i & target & Hi1 & Hi & Ht & Hr).
      pose proof (rises_unstackable score Hscore cur s1 i target F1 Hi1 Hi Ht Hr).
      assert (signalOfFill (fillOf s1 + 64) <= signalOfFill (fillOf s5 + 64))
        by (apply signalOfFill_mono; lia).
      lia.
    - pose proof (HnfU eq_refl HhasL eq_refl) as Hno1.
      pose proof (grows_noEmpty _ _ G15 Hno1) as Hno5.
      pose proof (noEmpty_full s5 F5 Hno5) as Hlen.
      assert (everyMaxed s5) as Hmax.
      { destruct F5 as (_ & _ & Hall). unfold everyMaxed, singleClass in *.
        rewrite Forall_forall in *. intros it Hit. simpl.
        destruct (Hall it Hit) as [_ (q & Hq & Hr)].
        rewrite (C5 it Hit) in *. rewrite Hq. f_equal. lia. }
      rewrite (score_filled score Hscore) in Hcur5 by done.
      rewrite (everyMaxed_fill _ F5 Hmax), Hlen in *.
      rewrite <- Hcur5. done. }
  assert (L = 16 \/ L = 64) as HL2 by (destruct HcL as [?|[?|?]]; auto; done).
  (* the flag of the class and the guard of Strategy 4 *)
  rewrite (Hother 1) in * by done.
  rewrite strategy1_skipped in E1 by (by left). injection E1 as <- <-.
  assert (exists fL,
            gapFillingGuard false false (hasStackSize 16 (forcedItemsOf c))
              (hasStackSize 64 (forcedItemsOf c)) false f16 f64 = negb fL /\
            (fL = true ->
             exists i it q,
               s3 !! i = Some (Some it) /\ stack_size (item it) = L /\
               quantity it = Some q /\ q < L /\
               rises score cur (<[i := Some (incrementQuantity it)]> s3) = true) /\
            (fL = false ->
             forall i it q,
               s3 !! i = Some (Some it) -> isForced it = true ->
               stack_size (item it) = L -> quantity it = Some q -> L <= q))
    as (fL & Hg & HfL & HnL).
  { destruct HL2 as [-> | ->].
    - rewrite (Hother 64) in * by done. rewrite HhasL in *.
      unfold strategy3 in E3. injection E3 as <- <-.
      exists f16. split_and!.
      + by destruct f16.
      + intros Hf. destruct (Hf16 Hf) as (i & it & q & ? & ? & ? & ? & ? & ?).
        by exists i, it, q.
      + intros Hf. by apply Hn16.
    - rewrite (Hother 16) in * by done. rewrite HhasL in *.
      unfold strategy2 in E2. injection E2 as <- <-.
      exists f64. split_and!.
      + by destruct f64.
      + intros Hf. destruct (Hf64 Hf) as (i & it & q & ? & ? & ? & ? & ? & ?).
        by exists i, it, q.
      + intros Hf. by apply Hn64. }
  rewrite Hg in *.
  destruct f5.
  { destruct (Hf5 eq_refl) as (k & t & qt & Hk & Hft & Hqt & Hltt & Hr).
    rewrite (rises_increment score Hscore cur s5 k t qt) in Hr by done.
    apply Z.ltb_lt in Hr.
    unfold singleClass in C5.
    by rewrite (Forall_occupied_lookup _ _ _ _ C5 Hk) in Hr. }
  exfalso.
  assert (forall s, filled s -> allForced s -> singleClass L s ->
            (forall i it q,
               s !! i = Some (Some it) -> isForced it = true ->
               stack_size (item it) = L -> quantity it = Some q -> L <= q) ->
            everyMaxed s) as Hall_full.
  { intros s (_ & _ & Hall) Hforce Hclass Hfull.
    apply Forall_forall. intros it Hit. simpl.
    pose proof Hit as (i & Hi)%elem_of_occupied.
    unfold allForced, singleClass in *. rewrite Forall_forall in *.
    destruct (Hall it Hit) as [_ (q & Hq & Hr)].
    pose proof (Hfull i it q Hi (Hforce it Hit) (Hclass it Hit) Hq).
    rewrite Hq, (Hclass it Hit) in *. f_equal. lia. }
  assert (everyMaxed s5) as Hmax5.
  { apply Hall_full; [done..|].
    intros i it q Hi Hf Hst Hq. rewrite <- Hst. by apply (Hn5 eq_refl i it q). }
  destruct fL.
  { (* the class was flagged: Strategy 4 did not run *)
    destruct (HfL eq_refl) as (i & it & q & Hi & Hst & Hq & Hlt & Hr).
    by apply (full_after_flag cur L s3 s5 i it q). }
  (* the class is full: Strategy 4 ran *)
  pose proof (Hall_full s3 F3 A3 C3 (HnL eq_refl)) as Hmax3.
  destruct Hcases as [[Hrun _]|(_ & _ & src & Hsrc & Hin & Hfull & Hout)].
  { rewrite (everyMaxed_allMaxed _ Hmax3) in Hrun. done. }
  assert (cur <= 1) as Hcur1.
  { rewrite <- Hcur0, (score_filled score Hscore) by done.
    pose proof (filled_scorable _ F0) as [_ Hlen0].
    assert (fillOf (classify c) <= 212) as Hle.
    { pose proof (fill64_units_bound (occupied (classify c)) One0) as Hb.
      unfold fillOf. etrans; [apply Hb|lia].
      eapply Forall_impl; [exact C0|]. intros it ->. done. }
    pose proof (signalOfFill_mono _ _ Hle) as Hm.
    change (signalOfFill 212) with 1 in Hm. done. }
  rewrite (score_filled score Hscore) in Hcur5 by done.
  rewrite (everyMaxed_fill _ F5 Hmax5) in Hcur5.
  destruct Hout as [[M4 Hno4]|(s'' & M4 & Hc)].
  - pose proof (grows_noEmpty _ _ (moves_grows _ _ _ _ M5) Hno4) as Hno5.
    rewrite (noEmpty_full s5 F5 Hno5) in Hcur5.
    change (signalOfFill (64 * Z.of_nat 53)) with 14 in Hcur5. lia.
  - pose proof (moves_everyMaxed score _ _ _ M4 Hmax3) as Hmax4.
    pose proof (moves_filled _ _ _ _ M4 F3) as F4'.
    assert (length (occupied s5) = S (length (occupied s''))) as Hlen.
    { assert (length (occupied s5) = length (occupied s4)) as ->.
      { rewrite <- (length_fmap erase (occupied s5)),
          <- (length_fmap erase (occupied s4)).
        by rewrite <- !occupied_skeleton, K5. }
      destruct Hc as [s'' i _ Hi _].
      pose proof (length_occupied_insert s'' i None
                    (Some (set_quantity (Some 1) (duplicateStackable src))) Hi).
      simpl in *. lia. }
    destruct Hc as [s'' i Hi1 Hi Hr].
    rewrite (rises_full score Hscore cur s'' i (duplicateStackable src)) in Hr;
      [|done..| |done].
    + apply Z.ltb_lt in Hr.
      rewrite (everyMaxed_fill _ F4' Hmax4) in Hr.
      rewrite Hlen, Nat2Z.inj_succ in Hcur5.
      replace (64 * Z.succ (Z.of_nat (length (occupied s''))))
        with (64 * Z.of_nat (length (occupied s'')) + 64) in Hcur5 by lia.
      lia.
    + simpl. destruct F3 as (_ & _ & Hall). rewrite Forall_forall in Hall.
      by destruct (Hall src Hin).
Qed.
(** On a container of single units of one stack class the optimized
    container is at the threshold. *)
Lemma optimize_atThreshold c L :
  wellFormed c -> occupied c <> [] ->
  singleClass L c -> singleUnits c ->
  atThreshold score c.
Proof.
  intros Hwf Hne HL Hunits.
  destruct (optimize_traced score c Hwf Hne)
    as (s1 & fU & s2 & f16 & s3 & f64 & s4 & Htr & Hopt).
  destruct (single_class_crossing c L _ _ _ _ _ _ _ Hwf Hne Htr HL Hunits)
    as [C5 Hcross].
  destruct (traced_levels score Hscore c _ _ _ _ _ _ _ Hwf Hne Htr)
    as (_ & _ & _ & _ & _ & (F5 & Hne5 & Hcur5)).
  set (s5 := strategy5 score (score (normalize c)) s4) in *.
  destruct (layout_filled _ F5) as (o & Ho & Hfo).
  exists o. split; [congruence|].
  pose proof (output_profile s5 o Ho) as Hpr.
  pose proof (filled_scorable _ Hfo) as [Hso Hlo].
  assert (occupied o <> []) as Hneo.
  { intros He. apply Hne5. apply nil_length_inv.
    by rewrite <- length_profile, <- Hpr, length_profile, He. }
  destruct (largestStackSizeItem_Ok o Hneo) as (l & Hl).
  unfold signalPlus1. rewrite Hl. f_equal.
  apply largestStackSizeItem_elem in Hl.
  apply (output_elem s5 o Ho) in Hl as (a & Ha & ->).
  assert (stack_size (item a) = L) as HaL
    by (unfold singleClass in C5; rewrite Forall_forall in C5; by apply C5).
  assert (stackClass L) as HcL.
  { destruct F5 as (_ & _ & Hall). rewrite Forall_forall in Hall.
    destruct (Hall a Ha) as [Hc _]. by rewrite HaL in Hc. }
  set (l1 := set_quantity (Some 1) (finalSlot s5 a)).
  assert (o !! 0%nat = Some None) as H0 by apply Hfo.
  assert (scorable l1) as Hl1.
  { split; simpl; rewrite HaL; [done|].
    change (quantity_or_1 l1) with 1. destruct HcL as [->|[->| ->]]; lia. }
  assert (score (<[0%nat := Some l1]> o)
          = signalOfFill (fillOf s5 + 64 / L)) as ->.
  { rewrite Hscore.
    - rewrite exactSignalStrength_fill.
      + rewrite (fillOf_insert _ _ _ _ H0), share_Some.
        change (share None) with 0. change (quantity_or_1 l1) with 1.
        rewrite stackLimit_class by (simpl; by rewrite HaL).
        change (stack_size (item l1)) with (stack_size (item a)).
        rewrite HaL, (fillOf_profile o s5 Hpr). f_equal. lia.
      + intros He.
        assert (l1 ∈ occupied (<[0%nat := Some l1]> o)) as Hin.
        { apply elem_of_occupied. exists 0%nat. apply list_lookup_insert_eq.
          by eapply lookup_lt_Some. }
        rewrite He in Hin. by apply elem_of_nil in Hin.
    - eapply Forall_occupied_insert; [done..|]. by intros ? [= <-].
    - pose proof (length_occupied_insert o 0 None (Some l1) H0) as Hlen.
      simpl in Hlen. lia. }
  assert (score o = score (normalize c)) as ->.
  { rewrite <- Hcur5. apply (score_profile score Hscore); [done|lia|done]. }
  assert (signalOfFill (fillOf s5 + 64 / L) <= signalOfFill (fillOf s5) + 1)
    as Hstep.
  { apply signalOfFill_step.
    destruct HcL as [->|[->| ->]];
      [change (64 / 1) with 64|change (64 / 16) with 4
      |change (64 / 64) with 1]; lia. }
  rewrite (score_filled score Hscore) in Hcur5 by done.
  lia.
Qed.
End Threshold.

(** ** Threshold tightness *)

(** C3, as stated: on every container of 1 to 53 occupied slots of one
    stack class the optimized container is at the threshold.  It fails on
    one full stack of a 64-stackable item: the optimizer leaves the stack
    as it is, and one more unit in the reserved slot keeps the signal
    at 1. *)
Lemma threshold_tightness_counterexample :
  wellFormed Threshold.fullStack /\
  singleClass 64 Threshold.fullStack /\
  (1 <= length (occupied Threshold.fullStack) <= 53)%nat /\
  ~ atThreshold calculateSignalStrength Threshold.fullStack.
Proof.
  split_and!.
  - wellFormed_sample.
  - unfold singleClass. vm_compute occupied. by repeat constructor.
  - vm_compute. lia.
  - vm_compute. lia.
  - intros (o & Ho & Hs). vm_compute in Ho. injection Ho as <-.
    vm_compute in Hs. discriminate Hs.
Qed.

(** C3, amended: for every well-formed container that holds at least one
    occupied slot, all of one stack class and none with more than one
    unit, writing one unit of the item with the largest stack size into
    slot 0 of the optimized container yields a signal strength exactly
    one greater than the signal strength of the optimized container. *)
Theorem optimizeForRedstone_atThreshold (c : Container) (L : Z) :
  wellFormed c -> occupied c <> [] ->
  singleClass L c -> singleUnits c ->
  exists o,
    optimizeForRedstone c = Ok o /\
    optimizedSignalPlus1 o = Ok (calculateSignalStrength o + 1).
Proof.
  exact (optimize_atThreshold calculateSignalStrength
           calculateSignalStrength_exact c L).
Qed.

Lemma optimizeForRedstone_atThreshold_witness :
  wellFormed Threshold.sevenSixteens /\
  occupied Threshold.sevenSixteens <> [] /\
  singleClass 16 Threshold.sevenSixteens /\
  singleUnits Threshold.sevenSixteens /\
  exists o,
    optimizeForRedstone Threshold.sevenSixteens = Ok o /\
    optimizedSignalPlus1 o = Ok (calculateSignalStrength o + 1).
Proof.
  assert (wellFormed Threshold.sevenSixteens) as H by wellFormed_sample.
  assert (occupied Threshold.sevenSixteens <> []) as Hne
    by (vm_compute; discriminate).
  assert (singleClass 16 Threshold.sevenSixteens) as HL
    by (unfold singleClass; vm_compute occupied; repeat constructor).
  assert (singleUnits Threshold.sevenSixteens) as Hu
    by (unfold singleUnits; vm_compute occupied; repeat constructor).
  split_and!; [exact H|exact Hne|exact HL|exact Hu|].
  exact (optimizeForRedstone_atThreshold _ 16 H Hne HL Hu).
Defined.

(** * Further properties of the scorer *)

Lemma fill64_full l :
  Forall scorable l -> fill64 l = 64 * Z.of_nat (length l) ->
  Forall (fun it => quantity_or_1 it = stack_size (item it)) l.
Proof.
  induction 1 as [|it l Hit Hl IH]; [constructor|].
  change (fill64 (it :: l))
    with (quantity_or_1 it * (64 / stackLimit it) + fill64 l).
  rewrite length_cons, Nat2Z.inj_succ. intros Hfull.
  pose proof (scorable_share _ Hit) as Hshare.
  pose proof (fill64_bounds l Hl) as Hrest.
  constructor; [|apply IH; lia].
  assert (quantity_or_1 it * (64 / stackLimit it) = 64) as Heq by lia.
  destruct Hit as [Hc Hq]. rewrite stackLimit_class in Heq by done.
  destruct Hc as [Hc|[Hc|Hc]]; rewrite Hc in *;
    [change (64 / 1) with 64 in Heq|change (64 / 16) with 4 in Heq
    |change (64 / 64) with 1 in Heq]; lia.
Qed.

Lemma signalOfFill_range f n :
  (n <= 54)%nat -> Z.of_nat n <= f <= 64 * Z.of_nat n ->
  (1 <= n)%nat -> 1 <= signalOfFill f <= 15.
Proof.
  intros Hn Hf H1. unfold signalOfFill. change (invSize * 64) with 3456.
  assert (0 <= 14 * f / 3456) by (apply Z.div_pos; lia).
  assert (14 * f / 3456 <= 14 * 3456 / 3456) by (apply Z.div_le_mono; lia).
  change (14 * 3456 / 3456) with 14 in *. lia.
Qed.

Ltac scorable_sample :=
  vm_compute occupied;
  repeat (constructor;
          [split; [unfold stackClass; simpl; lia
                  |unfold quantity_or_1; simpl; lia]|]);
  try constructor.

Lemma signal_range (slots : Container) :
  Forall scorable (occupied slots) ->
  (length (occupied slots) <= 54)%nat ->
  0 <= calculateSignalStrength slots <= 15 /\
  (calculateSignalStrength slots = 0 <-> occupied slots = []) /\
  (calculateSignalStrength slots = 15 ->
   length (occupied slots) = 54%nat /\
   Forall (fun it => quantity_or_1 it = stack_size (item it)) (occupied slots)).
Proof.
  intros Hs Hlen. rewrite calculateSignalStrength_exact by done.
  unfold exactSignalStrength.
  destruct (Nat.eqb_spec (length (occupied slots)) 0) as [He|Hne].
  { apply nil_length_inv in He. split; [lia|]. split; [done|lia]. }
  pose proof (fill64_bounds _ Hs) as Hb.
  pose proof (signalOfFill_range _ _ Hlen Hb ltac:(lia)) as Hr.
  split; [lia|]. split.
  - split; [lia|]. intros He. by rewrite He in Hne.
  - intros H15. unfold signalOfFill in H15. change (invSize * 64) with 3456 in H15.
    assert (3456 <= fill64 (occupied slots)) as Hfull.
    { destruct (Z_lt_le_dec (fill64 (occupied slots)) 3456) as [Hlt|]; [|done].
      assert (14 * fill64 (occupied slots) / 3456 < 14); [|lia].
      apply Z.div_lt_upper_bound; lia. }
    assert (length (occupied slots) = 54%nat) as H54 by lia.
    split; [done|]. apply fill64_full; [done|]. rewrite H54 in *. lia.
Qed.

(** The signal of a container of at most 54 slots with quantities within
    the stack limits lies between 0 and 15; it is 0 exactly when no slot is
    occupied, and 15 only when all 54 slots hold full stacks. *)
Theorem calculateSignalStrength_range (slots : Container) :
  Forall scorable (occupied slots) ->
  (length (occupied slots) <= 54)%nat ->
  0 <= calculateSignalStrength slots <= 15 /\
  (calculateSignalStrength slots = 0 <-> occupied slots = []) /\
  (calculateSignalStrength slots = 15 ->
   length (occupied slots) = 54%nat /\
   Forall (fun it => quantity_or_1 it = stack_size (item it)) (occupied slots)).
Proof. apply signal_range. Qed.

Lemma calculateSignalStrength_range_witness :
  Forall scorable (occupied Threshold.sevenSixteens) /\
  (length (occupied Threshold.sevenSixteens) <= 54)%nat /\
  0 <= calculateSignalStrength Threshold.sevenSixteens <= 15.
Proof.
  assert (Forall scorable (occupied Threshold.sevenSixteens)) as H
    by scorable_sample.
  assert (length (occupied Threshold.sevenSixteens) <= 54)%nat as Hl
    by (vm_compute; lia).
  split; [exact H|]. split; [exact Hl|].
  apply (calculateSignalStrength_range _ H Hl).
Defined.

(** A well-formed container, whose slot 0 is empty, never reaches signal
    15. *)
Theorem calculateSignalStrength_wellFormed_below_15 (c : Container) :
  wellFormed c -> 0 <= calculateSignalStrength c <= 14.
Proof.
  intros (Hlen & H0 & Hall).
  assert (Forall scorable (occupied c)) as Hs
    by (eapply Forall_impl; [exact Hall|apply slotWellFormed_scorable]).
  pose proof (length_occupied_reserved c H0) as Hocc.
  destruct (signal_range c Hs ltac:(lia)) as (Hr & _ & H15).
  destruct (decide (calculateSignalStrength c = 15)) as [He|]; [|lia].
  destruct (H15 He). lia.
Qed.

Lemma calculateSignalStrength_wellFormed_below_15_witness :
  wellFormed Threshold.fullStack /\
  0 <= calculateSignalStrength Threshold.fullStack <= 14.
Proof.
  assert (wellFormed Threshold.fullStack) as H by wellFormed_sample.
  split; [exact H|]. exact (calculateSignalStrength_wellFormed_below_15 _ H).
Defined.

(** Raising quantities, or filling empty slots, never lowers the signal. *)
Theorem calculateSignalStrength_monotone (s s' : Container) :
  grows s s' ->
  Forall scorable (occupied s) -> Forall scorable (occupied s') ->
  (length (occupied s') <= 54)%nat ->
  calculateSignalStrength s <= calculateSignalStrength s'.
Proof.
  intros Hg Hs Hs' Hlen'.
  pose proof (grows_occupied_length _ _ Hg) as Hle.
  rewrite !calculateSignalStrength_exact by (done || lia).
  unfold exactSignalStrength.
  destruct (Nat.eqb_spec (length (occupied s)) 0) as [He|Hne].
  - destruct (Nat.eqb_spec (length (occupied s')) 0); [done|].
    pose proof (fill64_bounds _ Hs').
    pose proof (signalOfFill_range (fill64 (occupied s')) _ Hlen' H ltac:(lia)).
    lia.
  - destruct (Nat.eqb_spec (length (occupied s')) 0); [lia|].
    apply signalOfFill_mono. by apply (grows_fill64 s s').
Qed.

Lemma calculateSignalStrength_monotone_witness :
  grows Samples.oneUnstackable
        (<[2%nat := Samples.unstackableItem]> Samples.oneUnstackable) /\
  calculateSignalStrength Samples.oneUnstackable
  <= calculateSignalStrength
       (<[2%nat := Samples.unstackableItem]> Samples.oneUnstackable).
Proof.
  assert (grows Samples.oneUnstackable
            (<[2%nat := Samples.unstackableItem]> Samples.oneUnstackable)) as Hg
    by (apply (grows_insert _ 2 None); [reflexivity|exact I]).
  assert (Forall scorable (occupied Samples.oneUnstackable)) as H1
    by scorable_sample.
  assert (Forall scorable
            (occupied (<[2%nat := Samples.unstackableItem]> Samples.oneUnstackable)))
    as H2 by scorable_sample.
  assert (length (occupied (<[2%nat := Samples.unstackableItem]>
                              Samples.oneUnstackable)) <= 54)%nat as Hl
    by (vm_compute; lia).
  split; [exact Hg|]. exact (calculateSignalStrength_monotone _ _ Hg H1 H2 Hl).
Defined.

(** The order of the slots, and where the empty slots are, does not change
    the signal. *)
Theorem calculateSignalStrength_order (s s' : Container) :
  occupied s ≡ₚ occupied s' ->
  Forall scorable (occupied s) -> (length (occupied s) <= 54)%nat ->
  calculateSignalStrength s = calculateSignalStrength s'.
Proof.
  intros Hp Hs Hl.
  apply (score_profile calculateSignalStrength calculateSignalStrength_exact);
    [done..|]. by apply profile_perm.
Qed.

Lemma calculateSignalStrength_order_witness :
  occupied Samples.oneUnstackable ≡ₚ occupied (reverse Samples.oneUnstackable) /\
  calculateSignalStrength Samples.oneUnstackable
  = calculateSignalStrength (reverse Samples.oneUnstackable).
Proof.
  assert (occupied Samples.oneUnstackable
          ≡ₚ occupied (reverse Samples.oneUnstackable)) as Hp
    by (vm_compute; reflexivity).
  assert (Forall scorable (occupied Samples.oneUnstackable)) as H1
    by scorable_sample.
  assert (length (occupied Samples.oneUnstackable) <= 54)%nat as Hl
    by (vm_compute; lia).
  split; [exact Hp|]. exact (calculateSignalStrength_order _ _ Hp H1 Hl).
Defined.

(** * Further properties of the optimizer *)

Lemma erase_isDuplicate a b : erase a = erase b -> isDuplicate a = isDuplicate b.
Proof. unfold erase, set_quantity. congruence. Qed.

Lemma erase_userSubstituted a b :
  erase a = erase b -> userSubstituted a = userSubstituted b.
Proof. unfold erase, set_quantity. congruence. Qed.

Lemma classify_lookup_Some c i a :
  c !! i = Some (Some a) ->
  exists v, classify c !! i
            = Some (Some (set_forceAdjusted (Some v) (normalizeSlot i a))).
Proof.
  intros Hi. destruct (classify_shape c) as (g & Hg & ->).
  destruct (Hg (normalizeSlot i a)) as [v Hv]. exists v.
  apply mapSlots_Some. exists (normalizeSlot i a). split; [|done].
  apply normalize_Some. eauto.
Qed.

Lemma classify_items c : item <$> occupied (classify c) = item <$> occupied c.
Proof.
  destruct (classify_shape c) as (g & Hg & ->).
  rewrite occupied_mapSlots, <- list_fmap_compose.
  rewrite <- (normalize_fmap item c) by done.
  apply list_fmap_ext. intros j x _. simpl.
  by destruct (Hg x) as [v ->].
Qed.

Lemma output_items s5 o :
  layout (markAdjusted s5) = Ok o ->
  item <$> occupied o ≡ₚ item <$> occupied s5.
Proof.
  intros Ho. rewrite (output_occupied s5 o Ho), <- list_fmap_compose.
  assert ((item ∘ finalSlot s5) <$> occupied s5 = item <$> occupied s5) as ->
    by (by apply list_fmap_ext).
  done.
Qed.

Lemma optimizeForRedstone_total_aux c :
  wellFormed c -> exists o, optimizeForRedstone c = Ok o.
Proof.
  intros Hwf.
  destruct (optimize_filled calculateSignalStrength c Hwf) as (o & Ho & _).
  by exists o.
Defined.

(** Every occupied slot of a well-formed input is in the result: with its
    item, with the position it had as its [originalIndex] (or the
    [originalIndex] it came with), and with a quantity that is not
    smaller. *)
Theorem optimizeForRedstone_keeps_slots (c o : Container) (i : nat) (a : Slot) :
  wellFormed c -> optimizeForRedstone c = Ok o ->
  c !! i = Some (Some a) ->
  exists b,
    b ∈ occupied o /\
    item b = item a /\
    originalIndex b = Some (default (Z.of_nat i) (originalIndex a)) /\
    quantity_or_1 a <= quantity_or_1 b /\
    isDuplicate b = isDuplicate a /\
    userSubstituted b = userSubstituted a.
Proof.
  intros Hwf Ho Hi. unfold optimizeForRedstone in Ho.
  assert (occupied c <> []) as Hne.
  { intros He. assert (a ∈ occupied c) as Ha by (apply elem_of_occupied; eauto).
    rewrite He in Ha. by apply elem_of_nil in Ha. }
  destruct (optimize_final calculateSignalStrength c Hwf Hne)
    as (s5 & Hopt & Hfil & Hg & _).
  rewrite Hopt in Ho.
  destruct (classify_lookup_Some c i a Hi) as [v Hi0].
  destruct (grows_lookup _ _ _ _ Hg Hi0) as (b & Hb & He & Hle).
  exists (finalSlot s5 b). split_and!.
  - rewrite (output_occupied s5 o Ho). apply list_elem_of_fmap.
    exists b. split; [done|]. apply elem_of_occupied. eauto.
  - simpl. by rewrite <- (erase_item _ _ He).
  - simpl. by rewrite <- (erase_originalIndex _ _ He).
  - rewrite <- (quantity_or_1_normalizeSlot i a). done.
  - simpl. by rewrite <- (erase_isDuplicate _ _ He).
  - simpl. by rewrite <- (erase_userSubstituted _ _ He).
Qed.

Lemma optimizeForRedstone_keeps_slots_witness :
  wellFormed Samples.oneUnstackable /\
  optimizeForRedstone Samples.oneUnstackable = Ok Samples.oneUnstackableOptimized /\
  exists b,
    b ∈ occupied Samples.oneUnstackableOptimized /\
    originalIndex b = Some 1.
Proof.
  assert (wellFormed Samples.oneUnstackable) as H by wellFormed_sample.
  assert (optimizeForRedstone Samples.oneUnstackable
          = Ok Samples.oneUnstackableOptimized) as Ho
    by (vm_compute; reflexivity).
  split; [exact H|]. split; [exact Ho|].
  destruct (optimizeForRedstone_keeps_slots _ _ 1
              (mkSlot (Samples.catalogueItem "" 1 "") None None (Some 1)
                      false None false) H Ho eq_refl)
    as (b & Hb & _ & Hidx & _).
  exists b. split; [exact Hb|exact Hidx].
Defined.

(** The optimizer never introduces an item the container did not hold:
    the item of every slot of the result is the item of a slot of the
    input. *)
Theorem optimizeForRedstone_no_new_item (c o : Container) (x : Slot) :
  wellFormed c -> optimizeForRedstone c = Ok o ->
  x ∈ occupied o -> item x ∈ item <$> occupied c.
Proof.
  intros Hwf Ho Hx. unfold optimizeForRedstone in Ho.
  destruct (decide (occupied c = [])) as [He|Hne].
  { rewrite optimize_empty in Ho by done. injection Ho as <-.
    rewrite He in Hx. by apply elem_of_nil in Hx. }
  destruct (optimize_traced calculateSignalStrength c Hwf Hne)
    as (s1 & fU & s2 & f16 & s3 & f64 & s4 & Htr & Hopt).
  destruct (traced_shape calculateSignalStrength c _ _ _ _ _ _ _ Hwf Hne Htr)
    as (_ & I03 & _ & I35 & _).
  rewrite Hopt in Ho.
  rewrite <- classify_items. apply I03, I35.
  rewrite <- (output_items _ _ Ho). apply list_elem_of_fmap. eauto.
Qed.

Lemma optimizeForRedstone_no_new_item_witness :
  wellFormed Samples.oneUnstackable /\
  optimizeForRedstone Samples.oneUnstackable = Ok Samples.oneUnstackableOptimized /\
  forall x, x ∈ occupied Samples.oneUnstackableOptimized ->
            item x ∈ item <$> occupied Samples.oneUnstackable.
Proof.
  assert (wellFormed Samples.oneUnstackable) as H by wellFormed_sample.
  assert (optimizeForRedstone Samples.oneUnstackable
          = Ok Samples.oneUnstackableOptimized) as Ho
    by (vm_compute; reflexivity).
  split; [exact H|]. split; [exact Ho|].
  intros x. exact (optimizeForRedstone_no_new_item _ _ x H Ho).
Defined.

Lemma hasQuantityAdjustments_normalized c :
  hasQuantityAdjustments (markAdjusted (normalize c)) = hasQuantityAdjustments c.
Proof.
  rewrite hasQuantityAdjustments_markAdjusted.
  apply hasQuantityAdjustments_profile. by rewrite profile_normalize.
Qed.

Lemma skeleton_items_eq s s' :
  skeleton s = skeleton s' -> item <$> occupied s = item <$> occupied s'.
Proof.
  intros H%skeleton_items. induction H as [|a b l l' Hab _ IH]; [done|].
  by rewrite !fmap_cons, Hab, IH.
Qed.

(** When some slot of the input holds more than one unit the optimizer
    creates no duplicate: the result holds exactly the items of the
    input, as many times each. *)
Theorem optimizeForRedstone_quantity_mode (c o : Container) :
  wellFormed c -> optimizeForRedstone c = Ok o ->
  hasQuantityAdjustments c = true ->
  item <$> occupied o ≡ₚ item <$> occupied c.
Proof.
  intros Hwf Ho HQ. unfold optimizeForRedstone in Ho.
  destruct (decide (occupied c = [])) as [He|Hne].
  { rewrite optimize_empty in Ho by done. by injection Ho as <-. }
  destruct (optimize_traced calculateSignalStrength c Hwf Hne)
    as (s1 & fU & s2 & f16 & s3 & f64 & s4 & Htr & Hopt).
  destruct (traced_facts calculateSignalStrength c _ _ _ _ _ _ _ Hwf Hne Htr)
    as (_ & F1 & F2 & F3 & F4 & _).
  destruct Htr as (E1 & E2 & E3 & E4).
  rewrite hasQuantityAdjustments_normalized, HQ in E1, E4.
  rewrite strategy1_skipped in E1 by (by right). injection E1 as <- <-.
  destruct (strategy2_spec calculateSignalStrength _ _ _ _ _ E2 F1)
    as (_ & K2 & _).
  destruct (strategy3_spec calculateSignalStrength _ _ _ _ _ E3 F2)
    as (_ & K3 & _).
  unfold gapFillingGuard, strategy4 in E4. simpl in E4. injection E4 as <-.
  destruct (strategy5_spec calculateSignalStrength
              (calculateSignalStrength (normalize c)) s3 F3)
    as (f5 & _ & _ & K5 & _).
  rewrite Hopt in Ho. rewrite (output_items _ _ Ho).
  rewrite (skeleton_items_eq _ _ K5), (skeleton_items_eq _ _ K3),
    (skeleton_items_eq _ _ K2).
  by rewrite classify_items.
Qed.

Lemma optimizeForRedstone_quantity_mode_witness :
  wellFormed Threshold.fullStack /\
  hasQuantityAdjustments Threshold.fullStack = true /\
  exists o,
    optimizeForRedstone Threshold.fullStack = Ok o /\
    item <$> occupied o ≡ₚ item <$> occupied Threshold.fullStack.
Proof.
  assert (wellFormed Threshold.fullStack) as H by wellFormed_sample.
  assert (hasQuantityAdjustments Threshold.fullStack = true) as HQ
    by reflexivity.
  split; [exact H|]. split; [exact HQ|].
  destruct (optimizeForRedstone_total_aux Threshold.fullStack H) as [o Ho].
  exists o. split; [exact Ho|].
  exact (optimizeForRedstone_quantity_mode _ _ H Ho HQ).
Defined.

(** In the result both flags of every slot are what the marking rule gives
    on the result itself: set, equal, and true exactly when the slot holds
    more than one unit or another slot of the result holds the same
    identifier. *)
Theorem optimizeForRedstone_flags (c o : Container) (x : Slot) :
  wellFormed c -> optimizeForRedstone c = Ok o -> x ∈ occupied o ->
  forceAdjusted x
  = Some (quantity_gt x 1 || (1 <? Z.of_nat (countId (id (item x)) o))) /\
  isAdjusted x = forceAdjusted x.
Proof.
  intros Hwf Ho Hx. unfold optimizeForRedstone in Ho.
  destruct (decide (occupied c = [])) as [He|Hne].
  { rewrite optimize_empty in Ho by done. injection Ho as <-.
    rewrite He in Hx. by apply elem_of_nil in Hx. }
  destruct (optimize_final calculateSignalStrength c Hwf Hne)
    as (s5 & Hopt & _).
  rewrite Hopt in Ho.
  destruct (output_elem s5 o Ho x Hx) as (a & _ & ->).
  fold (adjustedIn o (finalSlot s5 a)).
  by rewrite (output_adjustedIn s5 o Ho).
Qed.

Lemma optimizeForRedstone_flags_witness :
  wellFormed Samples.oneUnstackable /\
  optimizeForRedstone Samples.oneUnstackable = Ok Samples.oneUnstackableOptimized /\
  forall x, x ∈ occupied Samples.oneUnstackableOptimized ->
            isAdjusted x = forceAdjusted x.
Proof.
  assert (wellFormed Samples.oneUnstackable) as H by wellFormed_sample.
  assert (optimizeForRedstone Samples.oneUnstackable
          = Ok Samples.oneUnstackableOptimized) as Ho
    by (vm_compute; reflexivity).
  split; [exact H|]. split; [exact Ho|].
  intros x Hx. exact (proj2 (optimizeForRedstone_flags _ _ x H Ho Hx)).
Defined.



(** * The display mode *)

Lemma mapResult_Forall2 {A B} (f : A -> Result B) (P : A -> B -> Prop)
      (l : list A) :
  (forall x, x ∈ l -> exists y, f x = Ok y /\ P x y) ->
  exists ys, mapResult f l = Ok ys /\ Forall2 P l ys.
Proof.
  induction l as [|x l IH]; intros Hall.
  { exists []. by split. }
  destruct (Hall x (list_elem_of_here _ _)) as (y & Hy & Hp).
  destruct IH as (ys & Hys & Hps).
  { intros z Hz. apply Hall. by right. }
  exists (y :: ys). simpl. rewrite Hy, Hys. split; [done|by constructor].
Qed.

Lemma occupied_reorderedSlots o :
  occupied (reorderedSlots o) = cleanSlot <$> occupied o.
Proof. apply occupied_mapSlots. Qed.

Lemma countId_reorderedSlots k o : countId k (reorderedSlots o) = countId k o.
Proof. by apply countId_mapSlots. Qed.

Lemma reorderedSlots_wellFormed o : filled o -> wellFormed (reorderedSlots o).
Proof.
  intros (Hlen & H0 & Hall). split_and!.
  - unfold reorderedSlots. by rewrite length_fmap.
  - unfold reorderedSlots. by rewrite list_lookup_fmap, H0.
  - rewrite occupied_reorderedSlots. apply Forall_fmap.
    eapply Forall_impl; [exact Hall|]. intros x [Hc _]. by split.
Qed.

Lemma fill64_cleanSlot l :
  Forall scorable l -> fill64 (cleanSlot <$> l) <= fill64 l.
Proof.
  induction 1 as [|x l Hx _ IH]; [done|]. rewrite fmap_cons.
  change (fill64 (cleanSlot x :: (cleanSlot <$> l)))
    with (quantity_or_1 (cleanSlot x) * (64 / stackLimit (cleanSlot x))
          + fill64 (cleanSlot <$> l)).
  change (fill64 (x :: l))
    with (quantity_or_1 x * (64 / stackLimit x) + fill64 l).
  change (quantity_or_1 (cleanSlot x)) with 1.
  change (stackLimit (cleanSlot x)) with (stackLimit x).
  pose proof (scorable_unit x Hx). destruct Hx as [_ Hq]. nia.
Qed.

(** The signal of the slots that enabling the display mode stores is not
    above the signal of the optimized slots. *)
Lemma reorderedSlots_signal o :
  filled o ->
  calculateSignalStrength (reorderedSlots o) <= calculateSignalStrength o.
Proof.
  intros Hfil. pose proof (filled_scorable o Hfil) as [Hs Hl].
  pose proof (reorderedSlots_wellFormed o Hfil) as (_ & _ & Hall).
  assert (Forall scorable (occupied (reorderedSlots o))) as Hs'
    by (eapply Forall_impl; [exact Hall|apply slotWellFormed_scorable]).
  assert (length (occupied (reorderedSlots o)) = length (occupied o)) as Hlen
    by (by rewrite occupied_reorderedSlots, length_fmap).
  rewrite !calculateSignalStrength_exact by (done || lia).
  unfold exactSignalStrength. rewrite Hlen.
  destruct (length (occupied o) =? 0)%nat; [done|].
  apply signalOfFill_mono. rewrite occupied_reorderedSlots.
  by apply fill64_cleanSlot.
Qed.

(** Enabling the display mode on well-formed cells throws nothing.  Every
    cell keeps its identifier and is well formed again; its slots hold no
    quantity, no [isAdjusted] and no [originalIndex]; it holds every
    identifier at least as often as before, the duplicates of the
    optimizer included; and its signal is not above the signal before.
    The history is not written. *)
Theorem toggleDisplayMode_on (st : AppState) :
  displayMode st = false ->
  Forall (fun c => wellFormed (slots c)) (cells st) ->
  exists st',
    toggleDisplayMode st = Ok st' /\
    displayMode st' = true /\
    history st' = history st /\
    Forall2 (fun c c' =>
               cell_id c' = cell_id c /\
               wellFormed (slots c') /\
               Forall (fun x => quantity x = None /\ isAdjusted x = None /\
                                originalIndex x = None)
                      (occupied (slots c')) /\
               (forall k, (countId k (slots c) <= countId k (slots c'))%nat) /\
               calculateSignalStrength (slots c')
               <= calculateSignalStrength (slots c))
            (cells st) (cells st').
Proof.
  intros Hmode Hwf. unfold toggleDisplayMode. rewrite Hmode. simpl.
  destruct (mapResult_Forall2 (toggleCell true)
              (fun c c' =>
                 cell_id c' = cell_id c /\
                 wellFormed (slots c') /\
                 Forall (fun x => quantity x = None /\ isAdjusted x = None /\
                                  originalIndex x = None)
                        (occupied (slots c')) /\
                 (forall k, (countId k (slots c) <= countId k (slots c'))%nat) /\
                 calculateSignalStrength (slots c')
                 <= calculateSignalStrength (slots c))
              (cells st)) as (cs & -> & Hcs).
  - intros c Hc. rewrite Forall_forall in Hwf. pose proof (Hwf c Hc) as Hw.
    destruct (optimize_filled calculateSignalStrength (slots c) Hw)
      as (o & Ho & Hfo).
    destruct (optimize_signal calculateSignalStrength
                calculateSignalStrength_exact (slots c) Hw) as (o' & Ho' & Hsig).
    assert (o' = o) as -> by congruence.
    unfold toggleCell, optimizeForRedstone. rewrite Ho.
    eexists. split; [done|]. simpl. split_and!.
    + done.
    + by apply reorderedSlots_wellFormed.
    + rewrite occupied_reorderedSlots. apply Forall_fmap, Forall_forall.
      by intros x _.
    + intros k. rewrite countId_reorderedSlots.
      by apply (optimize_countId calculateSignalStrength).
    + rewrite <- Hsig. by apply reorderedSlots_signal.
  - eexists. split; [done|]. by split_and!.
Qed.

Lemma toggleDisplayMode_on_witness :
  displayMode App.oneCell = false /\
  Forall (fun c => wellFormed (slots c)) (cells App.oneCell) /\
  exists st',
    toggleDisplayMode App.oneCell = Ok st' /\ displayMode st' = true.
Proof.
  assert (displayMode App.oneCell = false) as Hm by reflexivity.
  assert (Forall (fun c => wellFormed (slots c)) (cells App.oneCell))
    as Hwf by (constructor; [wellFormed_sample|constructor]).
  split; [exact Hm|]. split; [exact Hwf|].
  destruct (toggleDisplayMode_on App.oneCell Hm Hwf)
    as (st' & Hst & Hd & _).
  exists st'. split; [exact Hst|exact Hd].
Defined.

(** ** Compaction *)

Lemma occupied_compactedSlots s :
  occupied (compactedSlots s) = occupied (drop 1 s).
Proof.
  unfold compactedSlots.
  rewrite occupied_app, occupied_cons_None, occupied_Some,
    occupied_replicate_None. apply app_nil_r.
Qed.

Lemma compactedSlots_length s :
  (length s <= 54)%nat -> length (compactedSlots s) = 54%nat.
Proof.
  intros Hlen. unfold compactedSlots.
  rewrite length_app, length_replicate. simpl. rewrite length_fmap.
  pose proof (length_occupied_le (drop 1 s)). rewrite length_drop in H. lia.
Qed.

Lemma occupied_compactedSlots_tail s :
  occupied (drop 1 (compactedSlots s)) = occupied (drop 1 s).
Proof.
  unfold compactedSlots. simpl. rewrite drop_0.
  rewrite occupied_app, occupied_Some, occupied_replicate_None.
  apply app_nil_r.
Qed.

Lemma compactedSlots_idempotent s :
  compactedSlots (compactedSlots s) = compactedSlots s.
Proof.
  unfold compactedSlots at 1. by rewrite occupied_compactedSlots_tail.
Qed.

Lemma compactedSlots_lookup s n x :
  occupied (drop 1 s) !! n = Some x ->
  compactedSlots s !! S n = Some (Some x).
Proof.
  intros Hn. unfold compactedSlots. simpl.
  rewrite lookup_app_l by (rewrite length_fmap; by eapply lookup_lt_Some).
  by rewrite list_lookup_fmap, Hn.
Qed.

(** Disabling the display mode throws nothing and compacts every cell:
    the reserved slot is empty, the occupied slots from index 1 follow in
    their order without gaps, and empty slots fill the cell up to 54.  An
    item in slot 0 is dropped.  Compacting again changes nothing, and the
    history is not written. *)
Theorem toggleDisplayMode_off (st : AppState) :
  displayMode st = true ->
  exists st',
    toggleDisplayMode st = Ok st' /\
    displayMode st' = false /\
    history st' = history st /\
    Forall2 (fun c c' =>
               cell_id c' = cell_id c /\
               slots c' !! 0%nat = Some None /\
               occupied (slots c') = occupied (drop 1 (slots c)) /\
               (forall n x, occupied (drop 1 (slots c)) !! n = Some x ->
                            slots c' !! S n = Some (Some x)) /\
               ((length (slots c) <= 54)%nat -> length (slots c') = 54%nat) /\
               compactedSlots (slots c') = slots c')
            (cells st) (cells st').
Proof.
  intros Hmode. unfold toggleDisplayMode. rewrite Hmode. simpl.
  destruct (mapResult_Forall2 (toggleCell false)
              (fun c c' =>
                 cell_id c' = cell_id c /\
                 slots c' !! 0%nat = Some None /\
                 occupied (slots c') = occupied (drop 1 (slots c)) /\
                 (forall n x, occupied (drop 1 (slots c)) !! n = Some x ->
                              slots c' !! S n = Some (Some x)) /\
                 ((length (slots c) <= 54)%nat -> length (slots c') = 54%nat) /\
                 compactedSlots (slots c') = slots c')
              (cells st)) as (cs & -> & Hcs).
  - intros c _. eexists. split; [done|]. simpl. split_and!.
    + done.
    + done.
    + apply occupied_compactedSlots.
    + apply compactedSlots_lookup.
    + apply compactedSlots_length.
    + apply compactedSlots_idempotent.
  - eexists. split; [done|]. by split_and!.
Qed.

Lemma toggleDisplayMode_off_witness :
  displayMode (setDisplayMode true App.oneCell) = true /\
  exists st',
    toggleDisplayMode (setDisplayMode true App.oneCell) = Ok st' /\
    displayMode st' = false.
Proof.
  assert (displayMode (setDisplayMode true App.oneCell) = true) as Hm
    by reflexivity.
  split; [exact Hm|].
  destruct (toggleDisplayMode_off _ Hm) as (st' & Hst & Hd & _).
  exists st'. split; [exact Hst|exact Hd].
Defined.

(** In display mode the signal shown beside a well-formed cell is the
    signal of the stored cell, though the slots shown are the optimized
    ones; outside display mode no signal is shown. *)
Theorem signalStrength_of_cell (c : Cell) :
  wellFormed (slots c) ->
  signalStrength true c = Ok (Some (calculateSignalStrength (slots c))) /\
  signalStrength false c = Ok None.
Proof.
  intros Hwf. split; [|done]. unfold signalStrength, displaySlots.
  destruct (optimize_signal calculateSignalStrength
              calculateSignalStrength_exact (slots c) Hwf) as (o & Ho & Hsig).
  unfold optimizeForRedstone. by rewrite Ho, Hsig.
Qed.

Lemma signalStrength_of_cell_witness :
  wellFormed (slots (mkCell 1 Threshold.sevenSixteens)) /\
  signalStrength true (mkCell 1 Threshold.sevenSixteens)
  = Ok (Some (calculateSignalStrength Threshold.sevenSixteens)).
Proof.
  assert (wellFormed (slots (mkCell 1 Threshold.sevenSixteens))) as H
    by wellFormed_sample.
  split; [exact H|]. exact (proj1 (signalStrength_of_cell _ H)).
Defined.

(** * The undo history and the cells *)

Lemma snapshot_eq (cs : list Cell) :
  (fun cell => mkCell (cell_id cell) (slots cell)) <$> cs = cs.
Proof.
  rewrite <- (list_fmap_id cs) at 2. apply list_fmap_ext.
  by intros i [k s] _.
Qed.

Lemma saveToHistory_history st :
  history (saveToHistory st)
  = if (10 <=? length (history st))%nat
    then drop 1 (history st ++ [cells st])
    else history st ++ [cells st].
Proof.
  unfold saveToHistory, setHistory. cbn [history].
  rewrite snapshot_eq, length_app. change (length [cells st]) with 1%nat.
  destruct (Nat.leb_spec 10 (length (history st)));
    destruct (Nat.ltb_spec 10 (length (history st) + 1)); (done || lia).
Qed.

Lemma saveToHistory_last st :
  last (history (saveToHistory st)) = Some (cells st).
Proof.
  rewrite saveToHistory_history.
  destruct (Nat.leb_spec 10 (length (history st))) as [Hle|Hlt].
  - destruct (history st) as [|h hs] eqn:E; [simpl in Hle; lia|].
    simpl. rewrite drop_0. destruct hs as [|h' hs']; [simpl in Hle; lia|].
    apply last_snoc.
  - apply last_snoc.
Qed.

Lemma saveToHistory_init st :
  take (length (history (saveToHistory st)) - 1) (history (saveToHistory st))
  = if (10 <=? length (history st))%nat then drop 1 (history st)
    else history st.
Proof.
  rewrite saveToHistory_history.
  destruct (Nat.leb_spec 10 (length (history st))) as [Hle|Hlt].
  - destruct (history st) as [|h hs] eqn:E; [simpl in Hle; lia|].
    simpl. rewrite !drop_0, length_app. simpl.
    replace (length hs + 1 - 1)%nat with (length hs) by lia.
    by rewrite take_app_length.
  - rewrite length_app. simpl.
    replace (length (history st) + 1 - 1)%nat with (length (history st)) by lia.
    by rewrite take_app_length.
Qed.

Lemma undo_after_save st cs :
  undo (setCells cs (saveToHistory st))
  = setHistory (if (10 <=? length (history st))%nat then drop 1 (history st)
                else history st)
               (setCells (cells st) (saveToHistory st)).
Proof.
  unfold undo.
  change (history (setCells cs (saveToHistory st)))
    with (history (saveToHistory st)).
  rewrite saveToHistory_last, saveToHistory_init. reflexivity.
Qed.

Lemma undo_setNextCellId n s :
  undo (setNextCellId n s) = setNextCellId n (undo s).
Proof.
  unfold undo. change (history (setNextCellId n s)) with (history s).
  by destruct (last (history s)).
Qed.

Lemma undo_setSelectedSlots v s :
  undo (setSelectedSlots v s) = setSelectedSlots v (undo s).
Proof.
  unfold undo. change (history (setSelectedSlots v s)) with (history s).
  by destruct (last (history s)).
Qed.

Lemma undo_setLastSelectedSlot v s :
  undo (setLastSelectedSlot v s) = setLastSelectedSlot v (undo s).
Proof.
  unfold undo. change (history (setLastSelectedSlot v s)) with (history s).
  by destruct (last (history s)).
Qed.

(** The history holds at most 10 snapshots: every handler that writes it
    keeps the bound. *)
Theorem history_bounded (st : AppState) (k i : Z) :
  (length (history st) <= 10)%nat ->
  (length (history (saveToHistory st)) <= 10)%nat /\
  (length (history (addCell st)) <= 10)%nat /\
  (length (history (removeCell k st)) <= 10)%nat /\
  (length (history (clearSlot k i st)) <= 10)%nat /\
  (length (history (undo st)) <= 10)%nat.
Proof.
  intros Hlen.
  assert (length (history (saveToHistory st)) <= 10)%nat as Hsave.
  { rewrite saveToHistory_history.
    destruct (Nat.leb_spec 10 (length (history st))).
    - rewrite length_drop, length_app. simpl. lia.
    - rewrite length_app. simpl. lia. }
  split_and!; [done..| |].
  - unfold clearSlot. by destruct (0 <? length (selectedSlots st))%nat.
  - unfold undo. destruct (last (history st)); [|done]. simpl.
    rewrite length_take. lia.
Qed.

Lemma history_bounded_witness :
  (length (history App.initial) <= 10)%nat /\
  (length (history (addCell (addCell App.initial))) <= 10)%nat.
Proof.
  assert (length (history App.initial) <= 10)%nat as H by (simpl; lia).
  split; [exact H|].
  apply (history_bounded (addCell App.initial) 0 0).
  apply (history_bounded App.initial 0 0 H).
Defined.

(** Undo right after a handler that saved the history gives back the
    cells as they were before the handler.  The history is the one from
    before, without its oldest snapshot when it already held 10; the
    cell counter is not taken back. *)
Theorem undo_restores_cells (st : AppState) (k i : Z) :
  cells (undo (addCell st)) = cells st /\
  cells (undo (removeCell k st)) = cells st /\
  cells (undo (clearSlot k i st)) = cells st /\
  history (undo (addCell st))
  = (if (10 <=? length (history st))%nat then drop 1 (history st)
     else history st) /\
  history (undo (removeCell k st)) = history (undo (addCell st)) /\
  history (undo (clearSlot k i st)) = history (undo (addCell st)) /\
  nextCellId (undo (addCell st)) = nextCellId st + 1.
Proof.
  unfold addCell, removeCell, clearSlot.
  destruct (0 <? length (selectedSlots st))%nat;
    rewrite ?undo_setNextCellId, ?undo_setLastSelectedSlot,
      ?undo_setSelectedSlots, !undo_after_save; by split_and!.
Qed.


(** * Clearing slots *)

Lemma splice1_in_range {A} (l : list A) (i : Z) :
  0 <= i < Z.of_nat (length l) ->
  splice1 i l = take (Z.to_nat i) l ++ drop (S (Z.to_nat i)) l.
Proof.
  intros Hi. unfold splice1.
  destruct (Z.ltb_spec i 0); [lia|].
  rewrite Z.min_l by lia. apply delete_take_drop.
Qed.

Lemma removeSlot_in_range (l : Container) (i : Z) :
  0 <= i < Z.of_nat (length l) ->
  removeSlot l i = take (Z.to_nat i) l ++ drop (S (Z.to_nat i)) l ++ [None].
Proof.
  intros Hi. unfold removeSlot. by rewrite splice1_in_range, <- app_assoc.
Qed.

Lemma removeSlot_length (l : Container) (i : Z) :
  0 <= i < Z.of_nat (length l) -> length (removeSlot l i) = length l.
Proof.
  intros Hi. rewrite removeSlot_in_range by done.
  rewrite !length_app, length_take, length_drop. simpl. lia.
Qed.

Lemma removeSlot_reserved (l : Container) (i : Z) :
  1 <= i < Z.of_nat (length l) -> l !! 0%nat = Some None ->
  removeSlot l i !! 0%nat = Some None.
Proof.
  intros Hi H0. rewrite removeSlot_in_range by lia.
  rewrite lookup_app_l by (rewrite length_take; lia).
  rewrite lookup_take_lt by lia. done.
Qed.

(** ** The descending sort *)

Lemma insertDescending_perm a l : insertDescending a l ≡ₚ a :: l.
Proof.
  induction l as [|b l IH]; [done|]. simpl.
  destruct (b <=? a); [done|]. rewrite IH. apply Permutation_swap.
Qed.

Lemma sortDescending_perm l : sortDescending l ≡ₚ l.
Proof.
  induction l as [|a l IH]; [done|]. simpl.
  by rewrite insertDescending_perm, IH.
Qed.

Lemma insertDescending_sorted a l :
  StronglySorted (fun x y => y <= x) l ->
  StronglySorted (fun x y => y <= x) (insertDescending a l).
Proof.
  induction 1 as [|b l Hl IH Hb]; simpl.
  { repeat constructor. }
  destruct (Z.leb_spec b a) as [Hle|Hlt].
  - constructor; [by constructor|]. constructor; [done|].
    eapply Forall_impl; [exact Hb|]. simpl. intros y Hy. lia.
  - constructor; [done|]. rewrite insertDescending_perm.
    constructor; [lia|done].
Qed.

Lemma sortDescending_sorted l :
  StronglySorted (fun x y => y <= x) (sortDescending l).
Proof.
  induction l as [|a l IH]; [constructor|]. by apply insertDescending_sorted.
Qed.

Lemma sorted_strict l :
  StronglySorted (fun x y : Z => y <= x) l -> NoDup l ->
  StronglySorted (fun x y : Z => y < x) l.
Proof.
  induction 1 as [|a l Hl IH Ha]; [constructor|].
  intros [Hnot Hnd]%NoDup_cons. constructor; [by apply IH|].
  apply Forall_forall. intros y Hy. rewrite Forall_forall in Ha.
  pose proof (Ha y Hy). assert (y <> a) by (intros ->; done). lia.
Qed.

(** ** Removing positions *)

Lemma withoutIndices_app {A} idxs k (l1 l2 : list A) :
  withoutIndices idxs k (l1 ++ l2)
  = withoutIndices idxs k l1
    ++ withoutIndices idxs (k + Z.of_nat (length l1)) l2.
Proof.
  revert k. induction l1 as [|x l1 IH]; intros k.
  { simpl. by rewrite Z.add_0_r. }
  simpl. rewrite IH.
  replace (k + 1 + Z.of_nat (length l1)) with (k + Z.pos (Pos.of_succ_nat (length l1)))
    by lia.
  by destruct (decide (k ∈ idxs)).
Qed.

Lemma withoutIndices_ext {A} idxs idxs' k (l : list A) :
  (forall j, k <= j < k + Z.of_nat (length l) -> j ∈ idxs <-> j ∈ idxs') ->
  withoutIndices idxs k l = withoutIndices idxs' k l.
Proof.
  revert k. induction l as [|x l IH]; intros k Hext; [done|].
  simpl. simpl in Hext.
  rewrite (IH (k + 1)) by (intros j Hj; apply Hext; lia).
  destruct (decide (k ∈ idxs)) as [Hin|Hout];
    destruct (decide (k ∈ idxs')) as [Hin'|Hout']; try done.
  - destruct Hout'. apply Hext; [lia|done].
  - destruct Hout. apply Hext; [lia|done].
Qed.

Lemma withoutIndices_none {A} idxs k (l : list A) :
  (forall j, k <= j < k + Z.of_nat (length l) -> j ∉ idxs) ->
  withoutIndices idxs k l = l.
Proof.
  revert k. induction l as [|x l IH]; intros k Hnone; [done|].
  simpl. simpl in Hnone.
  rewrite (IH (k + 1)) by (intros j Hj; apply Hnone; lia).
  destruct (decide (k ∈ idxs)) as [Hin|]; [|done].
  destruct (Hnone k); [lia|done].
Qed.

Lemma withoutIndices_length {A} idxs k (l : list A) :
  (length (withoutIndices idxs k l) <= length l)%nat.
Proof.
  revert k. induction l as [|x l IH]; intros k; [done|]. simpl.
  pose proof (IH (k + 1)). destruct (decide (k ∈ idxs)); simpl; lia.
Qed.

(** Removing from the largest position down leaves the slots at the
    other positions, in order, followed by one empty slot for every
    removal. *)
Lemma foldl_removeSlot_sorted (d : list Z) :
  StronglySorted (fun x y => y < x) d ->
  forall l : Container,
  Forall (fun i => 0 <= i < Z.of_nat (length l)) d ->
  foldl removeSlot l d
  = withoutIndices d 0 l ++ replicate (length d) None.
Proof.
  induction 1 as [|i d Hd IH Hi]; intros l Hrange.
  { simpl. rewrite withoutIndices_none, app_nil_r; [done|].
    intros j _. apply not_elem_of_nil. }
  apply Forall_cons in Hrange as [Hir Hrange]. simpl.
  rewrite IH.
  2:{ eapply Forall_impl; [exact Hrange|]. simpl. intros j Hj.
      by rewrite removeSlot_length. }
  rewrite removeSlot_in_range by done.
  set (n := Z.to_nat i).
  assert (exists x, l !! n = Some x) as [x Hx]
    by (apply lookup_lt_is_Some; lia).
  pose proof (take_drop_middle l n x Hx) as El.
  assert (length (take n l) = n) as Hlen by (rewrite length_take; lia).
  set (l1 := take n l) in *. set (l2 := drop (S n) l) in *.
  rewrite <- El.
  rewrite (withoutIndices_app d 0 l1), (withoutIndices_app (i :: d) 0 l1).
  rewrite Hlen, Z.add_0_l.
  rewrite Forall_forall in Hi.
  rewrite (withoutIndices_ext (i :: d) d 0 l1).
  2:{ intros j Hj. rewrite elem_of_cons. split; [|by right].
      intros [->|?]; [lia|done]. }
  rewrite (withoutIndices_none d (Z.of_nat n) (l2 ++ [None])).
  2:{ intros j Hj Hin. pose proof (Hi j Hin). lia. }
  simpl. rewrite decide_True by (replace (Z.of_nat n) with i by lia; by left).
  rewrite (withoutIndices_none (i :: d) (Z.of_nat n + 1) l2).
  2:{ intros j Hj [->|Hin]%elem_of_cons; [lia|]. pose proof (Hi j Hin). lia. }
  by rewrite <- !app_assoc.
Qed.

Lemma foldl_removeSlot (idxs : list Z) (l : Container) :
  NoDup idxs -> Forall (fun i => 0 <= i < Z.of_nat (length l)) idxs ->
  foldl removeSlot l (sortDescending idxs)
  = withoutIndices idxs 0 l ++ replicate (length idxs) None.
Proof.
  intros Hnd Hrange.
  pose proof (sortDescending_perm idxs) as Hp.
  rewrite foldl_removeSlot_sorted.
  - rewrite (Permutation_length Hp). f_equal.
    apply withoutIndices_ext. intros j _. by rewrite Hp.
  - apply sorted_strict; [apply sortDescending_sorted|by rewrite Hp].
  - by rewrite Hp.
Qed.

Lemma selectedIn_NoDup (sel : list SelectedSlot) (c : Z) :
  NoDup sel -> NoDup (selectedIn sel c).
Proof.
  unfold selectedIn. induction 1 as [|s sel Hs Hnd IH]; [constructor|].
  rewrite filter_cons. destruct (decide (cellId s = c)) as [Hc|]; [|done].
  rewrite fmap_cons. constructor; [|done].
  intros (s' & Hi & [Hc' Hin]%list_elem_of_filter)%list_elem_of_fmap.
  apply Hs. destruct s, s'. simpl in *. by subst.
Qed.

Lemma elem_of_selectedIn (sel : list SelectedSlot) (c i : Z) :
  i ∈ selectedIn sel c <-> mkSelectedSlot c i ∈ sel.
Proof.
  unfold selectedIn. rewrite list_elem_of_fmap. split.
  - intros (s & -> & [Hc Hin]%list_elem_of_filter).
    destruct s. simpl in *. by subst.
  - intros Hin. exists (mkSelectedSlot c i). split; [done|].
    by apply list_elem_of_filter.
Qed.

(** With a selection, [clearSlot] removes from every cell exactly the
    slots at the selected positions: the other slots keep their order,
    one empty slot is appended for every removal, and the selection is
    cleared.  The clicked slot plays no part. *)
Theorem clearSlot_removes_selected (st : AppState) (k i : Z) :
  selectedSlots st <> [] ->
  NoDup (selectedSlots st) ->
  (forall c j, c ∈ cells st -> mkSelectedSlot (cell_id c) j ∈ selectedSlots st ->
               0 <= j < Z.of_nat (length (slots c))) ->
  cells (clearSlot k i st)
  = (fun c =>
       mkCell (cell_id c)
              (withoutIndices (selectedIn (selectedSlots st) (cell_id c)) 0
                              (slots c)
               ++ replicate (length (selectedIn (selectedSlots st) (cell_id c)))
                            None))
      <$> cells st /\
  selectedSlots (clearSlot k i st) = [] /\
  lastSelectedSlot (clearSlot k i st) = None.
Proof.
  intros Hne Hnd Hrange. unfold clearSlot.
  destruct (selectedSlots st) as [|s0 sel] eqn:Hsel; [done|].
  change (0 <? length (s0 :: sel))%nat with true. cbv iota.
  split; [|done]. cbn [cells setCells setSelectedSlots setLastSelectedSlot].
  apply list_fmap_ext. intros n c Hc%list_elem_of_lookup_2. f_equal.
  unfold slotsToRemove. fold (selectedIn (s0 :: sel) (cell_id c)).
  apply foldl_removeSlot.
  - by apply selectedIn_NoDup.
  - apply Forall_forall. intros j Hj%elem_of_selectedIn. by apply Hrange.
Qed.

Lemma clearSlot_removes_selected_witness :
  selectedSlots App.selected <> [] /\
  length (occupied (slots (default (mkCell 0 [])
                             (head (cells (clearSlot 0 0 App.selected))))))
  = 5%nat.
Proof.
  assert (selectedSlots App.selected <> []) as Hne by discriminate.
  assert (NoDup (selectedSlots App.selected)) as Hnd.
  { apply NoDup_cons. split; [|apply NoDup_singleton].
    intros Hx%list_elem_of_singleton. discriminate Hx. }
  assert (forall c j, c ∈ cells App.selected ->
                      mkSelectedSlot (cell_id c) j ∈ selectedSlots App.selected ->
                      0 <= j < Z.of_nat (length (slots c))) as Hr.
  { intros c j Hc Hj. apply list_elem_of_singleton in Hc as ->.
    simpl in Hj. rewrite !elem_of_cons, elem_of_nil in Hj.
    change (length (slots _)) with 54%nat.
    destruct Hj as [Hj|[Hj|[]]]; injection Hj as ->; lia. }
  split; [exact Hne|].
  destruct (clearSlot_removes_selected App.selected 0 0 Hne Hnd Hr) as (-> & _).
  reflexivity.
Defined.

(** Without a selection, [clearSlot] removes the slot at the index from
    the cells with the identifier; the slots after it move one place to
    the front and an empty slot is appended.  Other cells are as they
    were. *)
Theorem clearSlot_removes_one (st : AppState) (k i : Z) :
  selectedSlots st = [] ->
  (forall c, c ∈ cells st -> cell_id c = k ->
             0 <= i < Z.of_nat (length (slots c))) ->
  cells (clearSlot k i st)
  = (fun c =>
       if decide (cell_id c = k)
       then mkCell (cell_id c)
                   (take (Z.to_nat i) (slots c)
                    ++ drop (S (Z.to_nat i)) (slots c) ++ [None])
       else c)
      <$> cells st.
Proof.
  intros Hsel Hrange. unfold clearSlot. rewrite Hsel. cbn [length Nat.ltb Nat.leb].
  cbn [cells setCells].
  apply list_fmap_ext. intros n c Hc%list_elem_of_lookup_2.
  destruct (Z.eqb_spec (cell_id c) k) as [He|Hne].
  - rewrite decide_True by done. f_equal. apply removeSlot_in_range.
    by apply Hrange.
  - by rewrite decide_False.
Qed.

Lemma clearSlot_removes_one_witness :
  selectedSlots App.oneCell = [] /\
  length (occupied (slots (default (mkCell 0 [])
                             (head (cells (clearSlot 1 3 App.oneCell))))))
  = 6%nat.
Proof.
  assert (selectedSlots App.oneCell = []) as Hsel by reflexivity.
  assert (forall c, c ∈ cells App.oneCell -> cell_id c = 1 ->
                    0 <= 3 < Z.of_nat (length (slots c))) as Hr.
  { intros c Hc _. apply list_elem_of_singleton in Hc as ->.
    change (length (slots _)) with 54%nat. lia. }
  split; [exact Hsel|].
  rewrite (clearSlot_removes_one App.oneCell 1 3 Hsel Hr).
  reflexivity.
Defined.

(** [clearSlot] keeps the shape of the cells, 54 slots with the reserved
    slot empty, when the clicked index and the selected indices are
    between 1 and 53. *)
Theorem clearSlot_shape (st : AppState) (k i : Z) :
  Forall cellShaped (cells st) ->
  1 <= i < 54 ->
  Forall (fun s => 1 <= slotIndex s < 54) (selectedSlots st) ->
  Forall cellShaped (cells (clearSlot k i st)).
Proof.
  intros Hshape Hi Hsel.
  assert (forall l j, length l = 54%nat /\ l !! 0%nat = Some None ->
                      1 <= j < 54 ->
                      length (removeSlot l j) = 54%nat /\
                      removeSlot l j !! 0%nat = Some None) as Hstep.
  { intros l j [Hl H0] Hj. split.
    - rewrite removeSlot_length; [done|lia].
    - apply removeSlot_reserved; [lia|done]. }
  assert (forall d l, Forall (fun j => 1 <= j < 54) d ->
                      length l = 54%nat /\ l !! 0%nat = Some None ->
                      length (foldl removeSlot l d) = 54%nat /\
                      foldl removeSlot l d !! 0%nat = Some None) as Hfold.
  { induction d as [|j d IH]; intros l Hd Hl; [done|].
    apply Forall_cons in Hd as [Hj Hd]. simpl. apply IH; [done|].
    by apply Hstep. }
  unfold clearSlot.
  destruct (0 <? length (selectedSlots st))%nat;
    cbn [cells setCells setSelectedSlots setLastSelectedSlot];
    apply Forall_fmap; (eapply Forall_impl; [exact Hshape|]);
    intros c Hc; unfold cellShaped in *; simpl.
  - apply Hfold; [|done]. unfold slotsToRemove.
    rewrite sortDescending_perm. apply Forall_fmap.
    apply Forall_forall. intros s [_ Hs]%list_elem_of_filter.
    rewrite Forall_forall in Hsel. by apply Hsel.
  - destruct (cell_id c =? k); [|done]. simpl. by apply Hstep.
Qed.

Lemma clearSlot_shape_witness :
  Forall cellShaped (cells App.oneCell) /\
  Forall cellShaped (cells (clearSlot 1 3 App.oneCell)).
Proof.
  assert (Forall cellShaped (cells App.oneCell)) as H
    by (repeat constructor).
  split; [exact H|].
  apply (clearSlot_shape App.oneCell 1 3 H); [lia|constructor].
Defined.

(** * Import and export *)

Lemma entriesOf_snoc i items e :
  entriesOf i (items ++ [e])
  = entriesOf i items ++ (if decide (default 0 (cell e) = i) then [e] else []).
Proof.
  unfold entriesOf. rewrite filter_app. by f_equal.
Qed.

Lemma slotsOfEntries_app cat l1 l2 :
  slotsOfEntries cat (l1 ++ l2) = slotsOfEntries cat l1 ++ slotsOfEntries cat l2.
Proof. apply omap_app. Qed.

(** The map that the import builds groups the entries by cell: a cell
    index has an entry in the map when some entry names it, and the list
    holds the slots for the entries the catalogue knows, in order. *)
Lemma cellMapOf_lookup cat items i :
  cellMapOf cat items !! i
  = if decide (entriesOf i items = []) then None
    else Some (slotsOfEntries cat (entriesOf i items)).
Proof.
  induction items as [|e items IH] using rev_ind; [done|].
  unfold cellMapOf in *. rewrite foldl_app. simpl.
  set (m := foldl (addToCellMap cat) ∅ items) in *.
  rewrite entriesOf_snoc. unfold addToCellMap.
  set (k := default 0 (cell e)).
  destruct (decide (k = i)) as [Hk|Hne].
  - subst i.
    set (m' := match m !! k with Some _ => m | None => <[k:=[]]> m end).
    assert (m' !! k = Some (slotsOfEntries cat (entriesOf k items))) as Hm'.
    { unfold m'. destruct (m !! k) as [old|] eqn:Hmk.
      - rewrite Hmk, IH. by destruct (decide (entriesOf k items = [])).
      - rewrite lookup_insert_eq.
        destruct (decide (entriesOf k items = [])) as [->|]; [done|].
        discriminate IH. }
    rewrite decide_False by (by destruct (entriesOf k items)).
    rewrite slotsOfEntries_app.
    destruct (findCatalogueItem cat (layout_id e)) as [it|] eqn:Hfind.
    + rewrite lookup_insert_eq, Hm'. simpl. by rewrite Hfind.
    + rewrite Hm'. simpl. rewrite Hfind. simpl. by rewrite app_nil_r.
  - rewrite app_nil_r.
    assert (forall m' : gmap Z (list Slot),
              m' = match m !! k with Some _ => m | None => <[k:=[]]> m end ->
              m' !! i = m !! i) as Hm'.
    { intros m' ->. destruct (m !! k); [done|]. by rewrite lookup_insert_ne. }
    destruct (findCatalogueItem cat (layout_id e)).
    + rewrite lookup_insert_ne by done. by rewrite (Hm' _ eq_refl), IH.
    + by rewrite (Hm' _ eq_refl), IH.
Qed.

Lemma entriesOf_nil i items :
  entriesOf i items = [] <-> forall e, e ∈ items -> default 0 (cell e) <> i.
Proof.
  unfold entriesOf. split.
  - intros He e Hin Hc.
    assert (e ∈ filter (fun e => default 0 (cell e) = i) items) as H
      by (by apply list_elem_of_filter).
    rewrite He in H. by apply elem_of_nil in H.
  - intros Hall. apply filter_none, Forall_forall. intros e He. by apply Hall.
Qed.

Lemma maxCellIndex_spec (m : gmap Z (list Slot)) :
  match maxCellIndex m with
  | None => m = ∅
  | Some mx => is_Some (m !! mx) /\ forall k, is_Some (m !! k) -> k <= mx
  end.
Proof.
  unfold maxCellIndex.
  assert (forall l : list Z,
            match foldr (fun k acc => Some (from_option (Z.max k) k acc)) None l with
            | None => l = []
            | Some mx => mx ∈ l /\ forall k, k ∈ l -> k <= mx
            end) as Hfold.
  { induction l as [|a l IH]; [done|]. simpl.
    destruct (foldr _ None l) as [mx|]; simpl.
    - destruct IH as [Hin Hmax]. split.
      + destruct (Z.max_spec a mx) as [[_ ->]|[_ ->]]; [by right|by left].
      + intros k [->|Hk]%elem_of_cons; [lia|]. pose proof (Hmax k Hk). lia.
    - subst l. split; [by left|]. intros k ->%list_elem_of_singleton. lia. }
  specialize (Hfold (elements (dom m))).
  destruct (foldr _ None (elements (dom m))) as [mx|].
  - destruct Hfold as [Hin Hmax]. split.
    + by apply elem_of_dom, elem_of_elements.
    + intros k Hk. by apply Hmax, elem_of_elements, elem_of_dom.
  - apply elements_empty_inv in Hfold. apply dom_empty_inv_L.
    by apply leibniz_equiv.
Qed.

Lemma slotsOfItems_shaped l :
  length (slotsOfItems l) = 54%nat /\ slotsOfItems l !! 0%nat = Some None.
Proof.
  split; [|done]. unfold slotsOfItems. simpl.
  rewrite length_app, length_fmap, length_replicate.
  pose proof (length_take_le l 53). rewrite length_take. lia.
Qed.

Lemma occupied_slotsOfItems l : occupied (slotsOfItems l) = take 53 l.
Proof.
  unfold slotsOfItems.
  rewrite occupied_cons_None, occupied_app, occupied_Some,
    occupied_replicate_None. apply app_nil_r.
Qed.

(** The cells of an import are the groups of the entries by cell index,
    from index 0 to the largest index an entry names, whether the
    catalogue knows the entry or not; the cells in between that no entry
    names are empty.  Without an entry of index 0 or more there is no
    cell at all. *)
Theorem importItems_cells (items : list LayoutItem) (st : AppState) (m : Z) :
  (forall e, e ∈ items -> default 0 (cell e) <= m) ->
  (exists e, e ∈ items /\ default 0 (cell e) = m) ->
  cells (importItems items st)
  = (fun i => mkCell (nextCellId st + i)
                     (slotsOfItems
                        (slotsOfEntries (catalogueItems st) (entriesOf i items))))
      <$> seqZ 0 (m + 1).
Proof.
  intros Hmax (e & He & Hm). unfold importItems.
  cbn [cells setCells setNextCellId setSelectedSlots setLastSelectedSlot].
  unfold cellsOfMap.
  pose proof (maxCellIndex_spec (cellMapOf (catalogueItems st) items)) as Hspec.
  assert (forall k, is_Some (cellMapOf (catalogueItems st) items !! k)
                    <-> entriesOf k items <> []) as Hdom.
  { intros k. rewrite cellMapOf_lookup.
    destruct (decide (entriesOf k items = [])) as [->|Hne].
    - split; [by intros [? ?]|done].
    - split; [done|]. by eexists. }
  destruct (maxCellIndex (cellMapOf (catalogueItems st) items)) as [mx|].
  - destruct Hspec as [Hin Hle].
    assert (mx = m) as ->.
    { apply Z.le_antisymm.
      - apply Hdom in Hin.
        destruct (entriesOf mx items) as [|e' l] eqn:E; [done|].
        assert (e' ∈ entriesOf mx items) as He' by (rewrite E; by left).
        apply list_elem_of_filter in He' as [<- He']. by apply Hmax.
      - apply Hle, Hdom. intros Hnil. rewrite entriesOf_nil in Hnil.
        by apply (Hnil e He). }
    apply list_fmap_ext. intros j i _. f_equal. f_equal.
    rewrite cellMapOf_lookup.
    destruct (decide (entriesOf i items = [])) as [->|]; done.
  - exfalso. assert (is_Some (cellMapOf (catalogueItems st) items !! m)) as Hs.
    { apply Hdom. intros Hnil. rewrite entriesOf_nil in Hnil.
      by apply (Hnil e He). }
    rewrite Hspec in Hs. rewrite lookup_empty in Hs. by destruct Hs.
Qed.

Lemma cellMapOf_is_Some cat items k :
  is_Some (cellMapOf cat items !! k) <->
  exists e, e ∈ items /\ default 0 (cell e) = k.
Proof.
  rewrite cellMapOf_lookup.
  destruct (decide (entriesOf k items = [])) as [Hnil|Hne].
  - split; [by intros [? ?]|]. intros (e & He & Hk).
    rewrite entriesOf_nil in Hnil. by destruct (Hnil e He).
  - split; [|by eexists]. intros _.
    destruct (entriesOf k items) as [|e l] eqn:E; [done|].
    assert (e ∈ entriesOf k items) as He by (rewrite E; by left).
    apply list_elem_of_filter in He as [? ?]. eauto.
Qed.

Lemma importItems_cells_general (items : list LayoutItem) (st : AppState) :
  exists n : Z,
    0 <= n /\
    cells (importItems items st)
    = (fun i => mkCell (nextCellId st + i)
                       (slotsOfItems
                          (slotsOfEntries (catalogueItems st) (entriesOf i items))))
        <$> seqZ 0 n /\
    (forall e, e ∈ items -> default 0 (cell e) < n) /\
    (0 < n -> exists e, e ∈ items /\ default 0 (cell e) = n - 1).
Proof.
  unfold importItems.
  cbn [cells setCells setNextCellId setSelectedSlots setLastSelectedSlot].
  unfold cellsOfMap.
  pose proof (maxCellIndex_spec (cellMapOf (catalogueItems st) items)) as Hspec.
  destruct (maxCellIndex (cellMapOf (catalogueItems st) items)) as [mx|].
  - destruct Hspec as [Hin Hle].
    apply cellMapOf_is_Some in Hin as (e & He & Hmx).
    assert (forall e', e' ∈ items -> default 0 (cell e') <= mx) as Hmax.
    { intros e' He'. apply Hle, cellMapOf_is_Some. eauto. }
    exists (Z.max 0 (mx + 1)). split_and!.
    + lia.
    + destruct (Z.max_spec 0 (mx + 1)) as [[Hlt ->]|[Hge ->]].
      * apply list_fmap_ext. intros j i _. do 2 f_equal.
        rewrite cellMapOf_lookup.
        by destruct (decide (entriesOf i items = [])) as [->|].
      * unfold seqZ. replace (Z.to_nat (mx + 1)) with 0%nat by lia.
        by replace (Z.to_nat 0) with 0%nat by lia.
    + intros e' He'. pose proof (Hmax e' He'). lia.
    + intros Hpos. exists e. split; [done|]. lia.
  - exists 0. split_and!; [lia|done| |lia].
    intros e He. exfalso.
    assert (is_Some (cellMapOf (catalogueItems st) items !! default 0 (cell e)))
      as Hs by (apply cellMapOf_is_Some; eauto).
    rewrite Hspec, lookup_empty in Hs. by destruct Hs.
Qed.

(** An import gives cells of 54 slots with the reserved slot empty and
    with consecutive identifiers from [nextCellId]; the cell counter moves
    past them, the selection is cleared, and the history is not written:
    the cells from before are replaced, and no undo brings them back. *)
Theorem importItems_shape (items : list LayoutItem) (st : AppState) :
  Forall cellShaped (cells (importItems items st)) /\
  (forall j c, cells (importItems items st) !! j = Some c ->
               cell_id c = nextCellId st + Z.of_nat j) /\
  nextCellId (importItems items st)
  = nextCellId st + Z.of_nat (length (cells (importItems items st))) /\
  selectedSlots (importItems items st) = [] /\
  lastSelectedSlot (importItems items st) = None /\
  history (importItems items st) = history st.
Proof.
  destruct (importItems_cells_general items st) as (n & Hn & Hcells & _).
  split_and!; try done.
  - rewrite Hcells. apply Forall_fmap, Forall_forall. intros i _.
    apply slotsOfItems_shaped.
  - intros j c. rewrite Hcells, list_lookup_fmap.
    destruct (seqZ 0 n !! j) as [i|] eqn:Hi; [|done].
    apply lookup_seqZ in Hi as [-> _]. by intros [= <-].
Qed.

(** Without an entry of cell index 0 or more, as in an empty list of
    entries, the import leaves no cell at all. *)
Theorem importItems_no_cells (items : list LayoutItem) (st : AppState) :
  (forall e, e ∈ items -> default 0 (cell e) < 0) ->
  cells (importItems items st) = [] /\
  nextCellId (importItems items st) = nextCellId st.
Proof.
  intros Hneg.
  destruct (importItems_cells_general items st) as (n & Hn & Hcells & _ & Hex).
  assert (n = 0) as ->.
  { destruct (decide (0 < n)) as [Hpos|]; [|lia].
    destruct (Hex Hpos) as (e & He & Hi). pose proof (Hneg e He). lia. }
  assert (cells (importItems items st) = []) as Hnil by (by rewrite Hcells).
  split; [done|].
  change (nextCellId (importItems items st))
    with (nextCellId st
          + Z.of_nat (length (cellsOfMap (nextCellId st)
                                (cellMapOf (catalogueItems st) items)))).
  change (cellsOfMap (nextCellId st) (cellMapOf (catalogueItems st) items))
    with (cells (importItems items st)).
  rewrite Hnil. simpl. lia.
Qed.

Lemma importItems_no_cells_witness :
  (forall e, e ∈ @nil LayoutItem -> default 0 (cell e) < 0) /\
  cells (importItems [] App.oneCell) = [].
Proof.
  assert (forall e, e ∈ @nil LayoutItem -> default 0 (cell e) < 0) as H
    by (intros e He; by apply elem_of_nil in He).
  split; [exact H|].
  exact (proj1 (importItems_no_cells [] App.oneCell H)).
Defined.

Lemma importItems_cells_witness :
  (forall e, e ∈ App.oneEntry -> default 0 (cell e) <= 2) /\
  length (cells (importItems App.oneEntry App.initial)) = 3%nat.
Proof.
  assert (forall e, e ∈ App.oneEntry -> default 0 (cell e) <= 2) as Hmax.
  { intros e ->%list_elem_of_singleton. simpl. lia. }
  assert (exists e, e ∈ App.oneEntry /\ default 0 (cell e) = 2) as Hex.
  { eexists. split; [by left|done]. }
  split; [exact Hmax|].
  rewrite (importItems_cells App.oneEntry App.initial 2 Hmax Hex). reflexivity.
Defined.

(** ** Export, then import *)

Lemma entriesOf_export_from (k : nat) (cs : list Cell) (j : nat) :
  entriesOf (Z.of_nat j)
    (mjoin (imap (fun cellIndex c =>
                    (fun slot =>
                       mkLayoutItem (id (item slot)) (Some (quantity_or_1 slot))
                                    (Some (Z.of_nat (k + cellIndex))))
                      <$> occupied (slots c))
                 cs))
  = match (if decide (k <= j)%nat then cs !! (j - k)%nat else None) with
    | Some c =>
        (fun slot =>
           mkLayoutItem (id (item slot)) (Some (quantity_or_1 slot))
                        (Some (Z.of_nat j)))
          <$> occupied (slots c)
    | None => []
    end.
Proof.
  revert k. induction cs as [|c cs IH]; intros k.
  { simpl. by destruct (decide (k <= j)%nat); rewrite ?lookup_nil. }
  rewrite imap_cons. simpl mjoin. unfold entriesOf in *.
  rewrite filter_app.
  specialize (IH (S k)).
  assert (imap ((fun cellIndex c0 =>
                   (fun slot =>
                      mkLayoutItem (id (item slot)) (Some (quantity_or_1 slot))
                                   (Some (Z.of_nat (k + cellIndex))))
                     <$> occupied (slots c0)) ∘ S) cs
          = imap (fun cellIndex c0 =>
                    (fun slot =>
                       mkLayoutItem (id (item slot)) (Some (quantity_or_1 slot))
                                    (Some (Z.of_nat (S k + cellIndex))))
                      <$> occupied (slots c0)) cs) as ->.
  { apply imap_ext. intros i x _. simpl.
    by replace (k + S i)%nat with (S (k + i))%nat by lia. }
  rewrite IH. replace (k + 0)%nat with k by lia.
  destruct (decide (k = j)) as [->|Hne].
  - rewrite (decide_False (P := (S j <= j)%nat)) by lia.
    rewrite (decide_True (P := (j <= j)%nat)) by lia.
    replace (j - j)%nat with 0%nat by lia. simpl. rewrite app_nil_r.
    apply filter_all, Forall_fmap, Forall_forall. by intros s _.
  - rewrite (filter_none _ ((fun slot => _) <$> occupied (slots c))).
    2:{ apply Forall_fmap, Forall_forall. intros s _. simpl. lia. }
    simpl. destruct (decide (S k <= j)%nat) as [Hle|Hgt].
    + rewrite (decide_True (P := (k <= j)%nat)) by lia.
      by replace (j - k)%nat with (S (j - S k)) by lia.
    + by rewrite (decide_False (P := (k <= j)%nat)) by lia.
Qed.

Lemma entriesOf_export (cs : list Cell) (j : nat) :
  entriesOf (Z.of_nat j) (exportItems cs)
  = match cs !! j with
    | Some c =>
        (fun slot =>
           mkLayoutItem (id (item slot)) (Some (quantity_or_1 slot))
                        (Some (Z.of_nat j)))
          <$> occupied (slots c)
    | None => []
    end.
Proof.
  pose proof (entriesOf_export_from 0 cs j) as H.
  rewrite decide_True in H by lia. rewrite Nat.sub_0_r in H. exact H.
Qed.

Lemma elem_of_exportItems (cs : list Cell) e :
  e ∈ exportItems cs ->
  exists j c s, cs !! j = Some c /\ s ∈ occupied (slots c) /\
                cell e = Some (Z.of_nat j).
Proof.
  unfold exportItems. intros (l & He & Hl)%list_elem_of_join.
  apply list_elem_of_lookup in Hl as [j Hj].
  rewrite list_lookup_imap in Hj.
  destruct (cs !! j) as [c|] eqn:Hc; [|done]. injection Hj as <-.
  apply list_elem_of_fmap in He as (s & -> & Hs).
  exists j, c, s. by split_and!.
Qed.

Lemma slotsOfEntries_cons cat e es :
  slotsOfEntries cat (e :: es)
  = match findCatalogueItem cat (layout_id e) with
    | Some it => itemWithQuantity it (count e) :: slotsOfEntries cat es
    | None => slotsOfEntries cat es
    end.
Proof.
  unfold slotsOfEntries. simpl.
  by destruct (findCatalogueItem cat (layout_id e)).
Qed.

Lemma slotsOfEntries_export cat (l : list Slot) (j : Z) :
  Forall (fun s => findCatalogueItem cat (id (item s)) = Some (item s)) l ->
  slotsOfEntries cat
    ((fun slot =>
        mkLayoutItem (id (item slot)) (Some (quantity_or_1 slot)) (Some j))
       <$> l)
  = reimported <$> l.
Proof.
  induction 1 as [|s l Hs _ IH]; [done|].
  rewrite !fmap_cons, slotsOfEntries_cons. simpl. by rewrite Hs, IH.
Qed.

(** Exporting the cells and importing the exported entries, with a
    catalogue that holds the items: the cells after the last occupied one
    are gone; a cell that remains holds the reserved slot and then, from
    slot 1 without gaps, its first 53 items in order, each as the
    catalogue has it with the exported quantity and no annotation. *)
Theorem export_import (cs : list Cell) (st : AppState) :
  (forall c s, c ∈ cs -> s ∈ occupied (slots c) ->
               findCatalogueItem (catalogueItems st) (id (item s))
               = Some (item s)) ->
  (length (cells (importItems (exportItems cs) st)) <= length cs)%nat /\
  (forall j c, cs !! j = Some c ->
               (length (cells (importItems (exportItems cs) st)) <= j)%nat ->
               occupied (slots c) = []) /\
  (forall j c c', cs !! j = Some c ->
                  cells (importItems (exportItems cs) st) !! j = Some c' ->
                  cell_id c' = nextCellId st + Z.of_nat j /\
                  slots c'
                  = slotsOfItems (reimported <$> occupied (slots c))).
Proof.
  intros Hcat.
  destruct (importItems_cells_general (exportItems cs) st)
    as (n & Hn & Hcells & Hlt & Hex).
  assert (length (cells (importItems (exportItems cs) st)) = Z.to_nat n) as Hlen
    by (by rewrite Hcells, length_fmap, length_seqZ).
  split_and!.
  - rewrite Hlen. destruct (decide (0 < n)) as [Hpos|]; [|lia].
    destruct (Hex Hpos) as (e & (j & c & s & Hj & _ & Hc)%elem_of_exportItems & Hi).
    rewrite Hc in Hi. simpl in Hi. apply lookup_lt_Some in Hj. lia.
  - intros j c Hj Hge. rewrite Hlen in Hge.
    destruct (occupied (slots c)) as [|s l] eqn:Hocc; [done|]. exfalso.
    pose proof (entriesOf_export cs j) as He. rewrite Hj, Hocc in He.
    rewrite fmap_cons in He.
    assert (mkLayoutItem (id (item s)) (Some (quantity_or_1 s))
                         (Some (Z.of_nat j))
            ∈ entriesOf (Z.of_nat j) (exportItems cs)) as Hin
      by (rewrite He; by left).
    apply list_elem_of_filter in Hin as [_ Hin].
    pose proof (Hlt _ Hin) as Hb. simpl in Hb. lia.
  - intros j c c' Hj Hj'. rewrite Hcells, list_lookup_fmap in Hj'.
    destruct (seqZ 0 n !! j) as [i|] eqn:Hi; [|done].
    apply lookup_seqZ in Hi as [-> _]. injection Hj' as <-. simpl.
    split; [done|]. rewrite Z.add_0_l, entriesOf_export, Hj.
    rewrite slotsOfEntries_export; [done|].
    apply Forall_forall. intros s Hs. apply (Hcat c s); [|done].
    by eapply list_elem_of_lookup_2.
Qed.

Lemma export_import_witness :
  (forall c s, c ∈ cells App.withCatalogue -> s ∈ occupied (slots c) ->
               findCatalogueItem (catalogueItems App.withCatalogue) (id (item s))
               = Some (item s)) /\
  (length (cells (importItems (exportItems (cells App.withCatalogue))
                              App.withCatalogue))
   <= length (cells App.withCatalogue))%nat.
Proof.
  assert (forall c s, c ∈ cells App.withCatalogue -> s ∈ occupied (slots c) ->
                      findCatalogueItem (catalogueItems App.withCatalogue)
                                        (id (item s))
                      = Some (item s)) as H.
  { intros c s Hc. apply list_elem_of_singleton in Hc as ->.
    revert s. apply Forall_forall. vm_compute occupied.
    repeat (constructor; [reflexivity|]). constructor. }
  split; [exact H|].
  exact (proj1 (export_import (cells App.withCatalogue) App.withCatalogue H)).
Defined.

(** ** The old format *)

(** An import of the old format gives cells of exactly 54 slots with
    consecutive identifiers.  A row of 50 identifiers is moved up by one
    behind an empty reserved slot; any other row keeps its positions, slot
    0 included, and is cut after 54. *)
Theorem importOldFormat_shape (importData : list (list (option string)))
        (st : AppState) :
  Forall (fun c => length (slots c) = 54%nat)
         (cells (importOldFormat importData st)) /\
  (forall j row,
     importData !! j = Some row ->
     exists c,
       cells (importOldFormat importData st) !! j = Some c /\
       cell_id c = nextCellId st + Z.of_nat j /\
       (length row = 50%nat ->
        slots c !! 0%nat = Some None /\
        forall k x, row !! k = Some x ->
                    slots c !! S k = Some (slotOfId (catalogueItems st) x)) /\
       (length row <> 50%nat ->
        forall k x, (k < 54)%nat -> row !! k = Some x ->
                    slots c !! k = Some (slotOfId (catalogueItems st) x))).
Proof.
  unfold importOldFormat.
  cbn [cells setCells setNextCellId setSelectedSlots setLastSelectedSlot].
  split.
  - apply Forall_forall. intros c (j & Hj)%list_elem_of_lookup.
    rewrite list_lookup_imap in Hj.
    destruct (importData !! j) as [row|]; [|done]. injection Hj as <-.
    unfold importOldCell. rewrite length_fmap.
    destruct (Nat.eqb_spec (length row) 50) as [He|Hne]; simpl.
    + rewrite length_app, length_replicate. simpl. rewrite length_fmap. lia.
    + rewrite length_take, length_app, length_replicate, length_fmap. lia.
  - intros j row Hj. rewrite list_lookup_imap, Hj. simpl.
    eexists. split; [done|]. unfold importOldCell. rewrite length_fmap.
    destruct (Nat.eqb_spec (length row) 50) as [He|Hne]; simpl.
    + split; [done|]. split; [|done]. intros _. split; [done|].
      intros k x Hk.
      rewrite lookup_app_l by (rewrite length_fmap; by eapply lookup_lt_Some).
      by rewrite list_lookup_fmap, Hk.
    + split; [done|]. split; [done|]. intros _ k x Hk54 Hk.
      rewrite lookup_take_lt by done.
      rewrite lookup_app_l by (rewrite length_fmap; by eapply lookup_lt_Some).
      by rewrite list_lookup_fmap, Hk.
Qed.

(** * The selection *)

Lemma sameSlot_true c i s : sameSlot c i s = true <-> s = mkSelectedSlot c i.
Proof.
  unfold sameSlot. rewrite andb_true_iff, !bool_decide_eq_true.
  destruct s as [c' i']. simpl. split; [by intros [-> ->]|by intros [= -> ->]].
Qed.

Lemma existsb_sameSlot c i sel :
  existsb (sameSlot c i) sel = true <-> mkSelectedSlot c i ∈ sel.
Proof.
  rewrite existsb_exists. split.
  - intros (s & Hs & E). apply sameSlot_true in E. subst s.
    by apply list_elem_of_In.
  - intros Hin. exists (mkSelectedSlot c i). split.
    + by apply list_elem_of_In.
    + by apply sameSlot_true.
Qed.

Lemma sorted_filter {A} (R : relation A) (P : A -> Prop)
      `{forall x, Decision (P x)} (l : list A) :
  StronglySorted R l -> StronglySorted R (filter P l).
Proof.
  induction 1 as [|a d _ IH Ha]; [constructor|].
  rewrite filter_cons. destruct (decide (P a)); [|done].
  constructor; [done|]. apply Forall_forall.
  intros x [_ Hx]%list_elem_of_filter. rewrite Forall_forall in Ha. auto.
Qed.

Lemma sorted_seqZ (lo n : Z) : StronglySorted Z.lt (seqZ lo n).
Proof.
  unfold seqZ. generalize (Z.to_nat n). intros m. generalize 0%nat.
  induction m as [|m IH]; intros k; [constructor|].
  simpl. constructor; [apply IH|].
  apply Forall_fmap, Forall_forall. intros j Hj%elem_of_seq. simpl. lia.
Qed.

(** A second ctrl-click on a slot takes back the first: the selection is
    again what it was, when the slot was not selected before. *)
Theorem ctrl_click_twice (e : ClickEvent) (c i : Z) (st : AppState) :
  shiftKey e = false -> ctrlKey e || metaKey e = true ->
  mkSelectedSlot c i ∉ selectedSlots st ->
  selectedSlots (handleSlotClick e c i true st)
  = selectedSlots st ++ [mkSelectedSlot c i] /\
  selectedSlots (handleSlotClick e c i true (handleSlotClick e c i true st))
  = selectedSlots st.
Proof.
  intros Hshift Hctrl Hnot.
  assert (forall st', handleSlotClick e c i true st'
            = setLastSelectedSlot (Some (mkSelectedSlot c i))
                (setSelectedSlots
                   (if existsb (sameSlot c i) (selectedSlots st')
                    then filter (fun s => sameSlot c i s = false)
                                (selectedSlots st')
                    else selectedSlots st' ++ [mkSelectedSlot c i])
                   st')) as Hclick.
  { intros st'. unfold handleSlotClick. rewrite Hshift, Hctrl. simpl.
    by destruct (lastSelectedSlot st'). }
  assert (existsb (sameSlot c i) (selectedSlots st) = false) as Hex.
  { destruct (existsb (sameSlot c i) (selectedSlots st)) eqn:E; [|done].
    by apply existsb_sameSlot in E. }
  rewrite !Hclick, Hex. cbn [selectedSlots setSelectedSlots setLastSelectedSlot].
  split; [done|].
  assert (existsb (sameSlot c i) (selectedSlots st ++ [mkSelectedSlot c i])
          = true) as ->.
  { apply existsb_sameSlot, elem_of_app. right. by left. }
  rewrite filter_app, filter_all.
  - rewrite (filter_none _ [mkSelectedSlot c i]); [apply app_nil_r|].
    constructor; [|constructor]. intros H.
    assert (sameSlot c i (mkSelectedSlot c i) = true) by (by apply sameSlot_true).
    congruence.
  - apply Forall_forall. intros s Hs.
    destruct (sameSlot c i s) eqn:E; [|done].
    apply sameSlot_true in E as ->. done.
Qed.

Lemma ctrl_click_twice_witness :
  (mkSelectedSlot 1 3 ∉ selectedSlots App.selected) /\
  selectedSlots
    (handleSlotClick (mkClickEvent false true false) 1 3 true
       (handleSlotClick (mkClickEvent false true false) 1 3 true App.selected))
  = selectedSlots App.selected.
Proof.
  assert (mkSelectedSlot 1 3 ∉ selectedSlots App.selected) as H.
  { simpl. rewrite !not_elem_of_cons. split_and!; [discriminate..|].
    apply not_elem_of_nil. }
  split; [exact H|].
  exact (proj2 (ctrl_click_twice (mkClickEvent false true false) 1 3
                  App.selected eq_refl eq_refl H)).
Defined.

(** A shift-click in the cell of the last selected slot selects exactly
    the filled slots between that slot and the clicked one, in ascending
    order, each once; the last selected slot stays the anchor. *)
Theorem shift_click_range (e : ClickEvent) (c i : Z) (l : SelectedSlot)
        (st : AppState) :
  shiftKey e = true -> lastSelectedSlot st = Some l -> cellId l = c ->
  let st' := handleSlotClick e c i true st in
  lastSelectedSlot st' = Some l /\
  NoDup (selectedSlots st') /\
  StronglySorted (fun a b => slotIndex a < slotIndex b) (selectedSlots st') /\
  (forall s, s ∈ selectedSlots st' <->
             cellId s = c /\
             Z.min (slotIndex l) i <= slotIndex s <= Z.max (slotIndex l) i /\
             slotFilledAt (List.find (fun x => bool_decide (cell_id x = c))
                                     (cells st))
                          (slotIndex s) = true).
Proof.
  intros Hshift Hlast Hcell st'.
  assert (st' = setSelectedSlots
                  (rangeSelection (cells st) c (Z.min (slotIndex l) i)
                                  (Z.max (slotIndex l) i)) st) as ->.
  { unfold st', handleSlotClick. rewrite Hlast, Hshift. simpl.
    by rewrite bool_decide_true. }
  cbn [selectedSlots lastSelectedSlot setSelectedSlots]. unfold rangeSelection.
  set (lo := Z.min (slotIndex l) i). set (hi := Z.max (slotIndex l) i).
  set (cell := List.find (fun x => bool_decide (cell_id x = c)) (cells st)).
  set (idxs := filter (fun j => slotFilledAt cell j = true)
                      (seqZ lo (hi - lo + 1))).
  assert (StronglySorted Z.lt idxs) as Hsorted.
  { unfold idxs. apply sorted_filter, sorted_seqZ. }
  split_and!.
  - done.
  - apply NoDup_fmap_2; [by intros ?? [= ?]|].
    clear -Hsorted. induction Hsorted as [|a d _ IH Ha]; constructor; [|done].
    intros Hin. rewrite Forall_forall in Ha. pose proof (Ha a Hin). lia.
  - clear -Hsorted. induction Hsorted as [|a d _ IH Ha]; [constructor|].
    rewrite fmap_cons. constructor; [done|]. by apply Forall_fmap.
  - intros s. rewrite list_elem_of_fmap. unfold idxs. split.
    + intros (j & -> & [Hf Hj%elem_of_seqZ]%list_elem_of_filter). simpl.
      split_and!; [done|lia..|done].
    + intros (Hc & Hr & Hf). exists (slotIndex s). split.
      * destruct s. simpl in *. by subst.
      * apply list_elem_of_filter. split; [done|]. apply elem_of_seqZ. lia.
Qed.

Lemma shift_click_range_witness :
  lastSelectedSlot (setLastSelectedSlot (Some (mkSelectedSlot 1 2)) App.selected)
  = Some (mkSelectedSlot 1 2) /\
  NoDup (selectedSlots
           (handleSlotClick (mkClickEvent true false false) 1 6 true
              (setLastSelectedSlot (Some (mkSelectedSlot 1 2)) App.selected))).
Proof.
  assert (lastSelectedSlot
            (setLastSelectedSlot (Some (mkSelectedSlot 1 2)) App.selected)
          = Some (mkSelectedSlot 1 2)) as H by reflexivity.
  split; [exact H|].
  exact (proj1 (proj2 (shift_click_range (mkClickEvent true false false) 1 6 _
                         _ eq_refl H eq_refl))).
Defined.

(** * Cell identifiers *)

Lemma idsBelow_mono n m cs : n <= m -> idsBelow n cs -> idsBelow m cs.
Proof.
  intros Hle [Hb Hnd]. split; [|done].
  eapply Forall_impl; [exact Hb|]. simpl. intros. lia.
Qed.

Lemma idsBelow_same_ids n cs cs' :
  cell_id <$> cs' = cell_id <$> cs -> idsBelow n cs -> idsBelow n cs'.
Proof.
  intros Heq [Hb Hnd]. split; [|by rewrite Heq].
  apply Forall_forall. intros c Hc.
  assert (cell_id c ∈ cell_id <$> cs) as Hin.
  { rewrite <- Heq. apply list_elem_of_fmap. by exists c. }
  apply list_elem_of_fmap in Hin as (c' & -> & Hc').
  rewrite Forall_forall in Hb. by apply Hb.
Qed.

Lemma idsBelow_filter n (P : Cell -> Prop) `{forall c, Decision (P c)} cs :
  idsBelow n cs -> idsBelow n (filter P cs).
Proof.
  intros [Hb Hnd]. split.
  - apply Forall_forall. intros c [_ Hc]%list_elem_of_filter.
    rewrite Forall_forall in Hb. by apply Hb.
  - apply (sublist_NoDup _ (cell_id <$> cs)); [exact Hnd|].
    apply fmap_sublist, sublist_filter.
Qed.

Lemma wellNumbered_save st : wellNumbered st -> wellNumbered (saveToHistory st).
Proof.
  intros [Hc Hh]. split; [done|].
  change (nextCellId (saveToHistory st)) with (nextCellId st).
  rewrite saveToHistory_history.
  assert (Forall (idsBelow (nextCellId st)) (history st ++ [cells st])) as Hall.
  { apply Forall_app. split; [done|]. by constructor. }
  destruct (10 <=? length (history st))%nat; [|done].
  by apply Forall_drop.
Qed.

Lemma mapResult_ids (f : Cell -> Result Cell) cs cs' :
  (forall c c', f c = Ok c' -> cell_id c' = cell_id c) ->
  mapResult f cs = Ok cs' -> cell_id <$> cs' = cell_id <$> cs.
Proof.
  intros Hf. revert cs'. induction cs as [|c cs IH]; intros cs' Hm.
  { by injection Hm as <-. }
  simpl in Hm. destruct (f c) as [c'|] eqn:Ec; [|done].
  destruct (mapResult f cs) as [l'|]; [|done]. injection Hm as <-.
  rewrite !fmap_cons. f_equal; [by apply Hf|by apply IH].
Qed.

Lemma seqZ_ids (n : Z) (f : Z -> Container) (m : Z) :
  idsBelow (n + Z.of_nat (length (seqZ 0 m)))
           ((fun i => mkCell (n + i) (f i)) <$> seqZ 0 m) /\
  Forall (fun c => n <= cell_id c) ((fun i => mkCell (n + i) (f i)) <$> seqZ 0 m).
Proof.
  rewrite length_seqZ. split; [split|].
  - apply Forall_fmap, Forall_forall. intros i Hi%elem_of_seqZ. simpl. lia.
  - rewrite <- list_fmap_compose. apply NoDup_fmap_2; [|apply NoDup_seqZ].
    intros i j. simpl. lia.
  - apply Forall_fmap, Forall_forall. intros i Hi%elem_of_seqZ. simpl. lia.
Qed.

Lemma imap_ids (n : Z) (cat : list Item) (data : list (list (option string))) :
  idsBelow (n + Z.of_nat (length data)) (imap (importOldCell cat n) data).
Proof.
  assert (cell_id <$> imap (importOldCell cat n) data
          = (fun i : nat => n + Z.of_nat i) <$> seq 0 (length data)) as Hids.
  { rewrite fmap_imap, <- imap_seq_0. apply imap_ext. intros i x _. simpl.
    unfold importOldCell. by destruct (_ =? _)%nat. }
  split.
  - apply Forall_forall. intros c Hc.
    assert (cell_id c ∈ cell_id <$> imap (importOldCell cat n) data) as Hin.
    { apply list_elem_of_fmap. by exists c. }
    rewrite Hids in Hin. apply list_elem_of_fmap in Hin as (i & -> & Hi%elem_of_seq).
    lia.
  - rewrite Hids. apply NoDup_fmap_2; [|apply NoDup_seq].
    intros i j. lia.
Qed.

Lemma handles_wellNumbered st st' :
  handles st st' -> wellNumbered st -> wellNumbered st'.
Proof.
  intros Hstep Hwn.
  destruct Hstep as [st|k st|k i st|st|st st' H|items st|importData st
                    |e c i it st|st].
  - (* addCell *)
    apply wellNumbered_save in Hwn as [[Hb Hnd] Hh].
    change (nextCellId (saveToHistory st)) with (nextCellId st) in *.
    change (cells (saveToHistory st)) with (cells st) in *.
    unfold addCell. split; cbn [cells history nextCellId setCells setNextCellId].
    + split.
      * apply Forall_app. split.
        -- eapply Forall_impl; [exact Hb|]. simpl. intros. lia.
        -- constructor; [simpl; lia|constructor].
      * rewrite fmap_app. apply NoDup_app. split_and!; [done| |apply NoDup_singleton].
        intros k Hk ->%list_elem_of_singleton.
        apply list_elem_of_fmap in Hk as (c & Hc & Hin).
        rewrite Forall_forall in Hb. apply Hb in Hin. simpl in Hc. lia.
    + change (history (setCells _ (saveToHistory st)))
        with (history (saveToHistory st)).
      eapply Forall_impl; [exact Hh|]. intros cs. apply idsBelow_mono. lia.
  - (* removeCell *)
    apply wellNumbered_save in Hwn as [Hc Hh].
    split; [|done]. unfold removeCell. cbn [cells setCells nextCellId].
    by apply idsBelow_filter.
  - (* clearSlot *)
    apply wellNumbered_save in Hwn as [Hc Hh].
    change (nextCellId (saveToHistory st)) with (nextCellId st) in *.
    change (cells (saveToHistory st)) with (cells st) in *.
    unfold clearSlot. destruct (0 <? length (selectedSlots st))%nat.
    + split; [|done]. cbn [cells setCells setSelectedSlots setLastSelectedSlot
                              nextCellId].
      eapply idsBelow_same_ids; [|exact Hc].
      rewrite <- list_fmap_compose. by apply list_fmap_ext.
    + split; [|done]. cbn [cells setCells nextCellId].
      eapply idsBelow_same_ids; [|exact Hc].
      rewrite <- list_fmap_compose. apply list_fmap_ext. intros j c _. simpl.
      by destruct (cell_id c =? k).
  - (* undo *)
    destruct Hwn as [Hc Hh]. unfold undo.
    destruct (last (history st)) as [previousState|] eqn:El; [|done].
    split; cbn [cells history nextCellId setCells setHistory].
    + rewrite Forall_forall in Hh. apply Hh.
      rewrite last_lookup in El. by eapply list_elem_of_lookup_2.
    + by apply Forall_take.
  - (* toggleDisplayMode *)
    destruct Hwn as [Hc Hh]. unfold toggleDisplayMode in H.
    destruct (mapResult _ (cells st)) as [newCells|] eqn:Em; [|done].
    injection H as <-. split; [|done].
    cbn [cells setCells setDisplayMode nextCellId].
    eapply idsBelow_same_ids; [|exact Hc].
    eapply mapResult_ids; [|exact Em].
    intros c c'. unfold toggleCell.
    destruct (negb (displayMode st)); [|by intros [= <-]].
    destruct (optimizeForRedstone (slots c)); [|done]. by intros [= <-].
  - (* importItems *)
    destruct Hwn as [Hc Hh]. unfold importItems, cellsOfMap.
    destruct (maxCellIndex _) as [m|];
      (split; cbn [cells history nextCellId setCells setNextCellId
                   setSelectedSlots setLastSelectedSlot]).
    + rewrite length_fmap. apply seqZ_ids.
    + eapply Forall_impl; [exact Hh|]. intros cs. apply idsBelow_mono. lia.
    + split; constructor.
    + eapply Forall_impl; [exact Hh|]. intros cs. apply idsBelow_mono.
      simpl. lia.
  - (* importOldFormat *)
    destruct Hwn as [Hc Hh]. unfold importOldFormat.
    split; cbn [cells history nextCellId setCells setNextCellId
                setSelectedSlots setLastSelectedSlot].
    + rewrite length_imap. apply imap_ids.
    + eapply Forall_impl; [exact Hh|]. intros cs. apply idsBelow_mono. lia.
  - (* handleSlotClick *)
    assert (cells (handleSlotClick e c i it st) = cells st /\
            history (handleSlotClick e c i it st) = history st /\
            nextCellId (handleSlotClick e c i it st) = nextCellId st)
      as (Ec & Eh & En).
    { unfold handleSlotClick. destruct it; [|done]. simpl.
      destruct (lastSelectedSlot st) as [l|];
        repeat match goal with |- context [if ?b then _ else _] => destruct b end;
        done. }
    destruct Hwn as [Hc Hh]. split; by rewrite ?Ec, ?Eh, ?En.
  - (* handleBackgroundClick *)
    done.
Qed.

(** The cell identifiers stay distinct and below the next identifier, in
    the cells and in every snapshot of the history, whatever the handlers
    that run: a new cell never takes the identifier of a cell that is
    shown or that an undo can bring back. *)
Theorem cell_ids_unique (st st' : AppState) :
  wellNumbered st -> rtc handles st st' -> wellNumbered st'.
Proof.
  intros Hwn Hsteps. induction Hsteps as [|st st1 st2 Hstep _ IH]; [done|].
  apply IH. by eapply handles_wellNumbered.
Qed.

Lemma cell_ids_unique_witness :
  wellNumbered App.initial /\
  wellNumbered (undo (removeCell 1 (addCell App.initial))).
Proof.
  assert (wellNumbered App.initial) as H.
  { split; [|constructor]. split; [repeat constructor|].
    apply NoDup_singleton. }
  split; [exact H|].
  apply (cell_ids_unique App.initial _ H).
  eapply rtc_l; [apply handles_addCell|].
  eapply rtc_l; [apply handles_removeCell|].
  eapply rtc_l; [apply handles_undo|]. apply rtc_refl.
Defined.

(** With distinct identifiers, removing a cell removes that cell alone,
    and the cell just added is the one its identifier removes again. *)
Theorem removeCell_removes_one (st : AppState) (j : nat) (c : Cell) :
  wellNumbered st -> cells st !! j = Some c ->
  cells (removeCell (cell_id c) st) = delete j (cells st) /\
  cells (removeCell (nextCellId st) (addCell st)) = cells st.
Proof.
  intros [[Hb Hnd] _] Hj. split.
  - unfold removeCell. cbn [cells setCells].
    change (cells (saveToHistory st)) with (cells st).
    revert j Hj Hnd. clear Hb. induction (cells st) as [|x l IH]; intros j Hj Hnd;
      [done|].
    rewrite fmap_cons in Hnd. apply NoDup_cons in Hnd as [Hx Hnd].
    rewrite filter_cons. destruct j as [|j]; simpl in Hj.
    + injection Hj as ->. rewrite decide_False by (intros H; by apply H).
      simpl. apply filter_all, Forall_forall. intros y Hy Heq.
      apply Hx. rewrite <- Heq. apply list_elem_of_fmap. by exists y.
    + rewrite decide_True.
      * simpl. f_equal. by apply IH.
      * intros Heq. apply Hx. rewrite Heq. apply list_elem_of_fmap.
        exists c. split; [done|]. by eapply list_elem_of_lookup_2.
  - unfold removeCell, addCell.
    cbn [cells history nextCellId setCells setNextCellId].
    change (nextCellId (saveToHistory st)) with (nextCellId st).
    change (cells (saveToHistory st)) with (cells st).
    rewrite filter_app, filter_all.
    + rewrite (filter_none _ [_]); [apply app_nil_r|].
      constructor; [|constructor]. simpl. intros H. by apply H.
    + eapply Forall_impl; [exact Hb|]. simpl. intros y Hy. lia.
Qed.

Lemma removeCell_removes_one_witness :
  wellNumbered App.initial /\
  cells (removeCell (nextCellId App.initial) (addCell App.initial))
  = cells App.initial.
Proof.
  assert (wellNumbered App.initial) as H.
  { split; [|constructor]. split; [repeat constructor|].
    apply NoDup_singleton. }
  split; [exact H|].
  exact (proj2 (removeCell_removes_one App.initial 0
                  (mkCell 1 (replicate 54 None)) H eq_refl)).
Defined.
